(** * Billing application (bs2.py): a shallow embedding and its checked properties

    The development follows the layout of the program:
    - [PyStr]    : the [str] and [int] operations the program calls;
    - [Dec]      : [decimal.Decimal] under the default context (precision 28,
                   ROUND_HALF_EVEN, traps InvalidOperation, DivisionByZero and
                   Overflow), as documented by the reference implementation of
                   the decimal module;
    - [Billing]  : the module-level functions and the [BillingApp] methods,
                   written in a state-and-exception monad over the widget and
                   file-system state the methods touch;
    - [Spec]     : the vocabulary of the properties, among it the Totals
                   invariants in the words of the specification and the
                   concrete sessions the examples run;
    - [Props]    : the vocabulary of the further properties: the rows of an
                   invoice file, what the view and the list show, the
                   sessions in which every callback returns.
    The lemmas follow, grouped by component: invoice numbering, catalog
    loading, the cart and its callbacks, the totals, and the rendering of
    money; then the loops, the cart view, the writing and numbering of
    invoices, the product list, start-up, export and reload, and the
    properties of whole sessions built on them.

    Strings are sequences of code points below 256, one [ascii] per code
    point. *)

From Stdlib Require Import ZArith NArith Lia Bool List Ascii String Sorting.Sorted.
From stdpp Require Import gmap strings list fin_maps.

Local Open Scope Z_scope.

(** ** Python string and integer primitives *)
Module PyStr.

  (** [str.isspace] on code points below 256. *)
Definition isspace (c : ascii) : bool :=
  let n := N_of_ascii c in
  ((9 <=? n) && (n <=? 13) || (28 <=? n) && (n <=? 32) || (n =? 133) || (n =? 160))%N.

Fixpoint lstrip (s : string) : string :=
  match s with
  | EmptyString => EmptyString
  | String c s' => if isspace c then lstrip s' else s
  end.

Fixpoint rstrip (s : string) : string :=
  match s with
  | EmptyString => EmptyString
  | String c s' =>
      match rstrip s' with
      | EmptyString => if isspace c then EmptyString else String c EmptyString
      | r => String c r
      end
  end.

  (** [s.strip()] *)
Definition strip (s : string) : string := rstrip (lstrip s).

  (** [s.split(sep)] for a one-character separator: never the empty list. *)
Fixpoint split (sep : ascii) (s : string) : list string :=
  match s with
  | EmptyString => [EmptyString]
  | String c s' =>
      if Ascii.eqb c sep then EmptyString :: split sep s'
      else match split sep s' with
           | [] => [String c EmptyString]
           | w :: ws => String c w :: ws
           end
  end.

  (** [s.replace(c, "")] for a one-character [c]. *)
Fixpoint remove_char (x : ascii) (s : string) : string :=
  match s with
  | EmptyString => EmptyString
  | String c s' => if Ascii.eqb c x then remove_char x s' else String c (remove_char x s')
  end.

  (** [s.startswith(p)] *)
Definition startswith (p s : string) : bool := String.prefix p s.

  (** [s.endswith(p)] *)
Fixpoint endswith (p s : string) : bool :=
  String.eqb s p ||
  match s with
  | EmptyString => false
  | String _ s' => endswith p s'
  end.

Definition digit_val (c : ascii) : option N :=
  let n := N_of_ascii c in
  if ((48 <=? n) && (n <=? 57))%N then Some (n - 48)%N else None.

Definition digit_char (d : N) : ascii := ascii_of_N (48 + d).

  (** The digits of an [int] literal: groups of digits separated by single
      underscores.  [prev] tells whether the previous character was a digit. *)
Fixpoint int_digits (s : string) (acc : N) (prev : bool) : option N :=
  match s with
  | EmptyString => if prev then Some acc else None
  | String c s' =>
      match digit_val c with
      | Some d => int_digits s' (10 * acc + d)%N true
      | None => if Ascii.eqb c "_" && prev then int_digits s' acc false else None
      end
  end.

  (** The white space [int] skips around a literal: the separators 28 to 31,
      which [str.strip] removes, are not part of it. *)
Definition isspace_int (c : ascii) : bool :=
  let n := N_of_ascii c in
  ((9 <=? n) && (n <=? 13) || (n =? 32) || (n =? 133) || (n =? 160))%N.

Fixpoint lstrip_int (s : string) : string :=
  match s with
  | EmptyString => EmptyString
  | String c s' => if isspace_int c then lstrip_int s' else s
  end.

Fixpoint rstrip_int (s : string) : string :=
  match s with
  | EmptyString => EmptyString
  | String c s' =>
      match rstrip_int s' with
      | EmptyString => if isspace_int c then EmptyString else String c EmptyString
      | r => String c r
      end
  end.

  (** [int(s)] in base 10; [None] stands for ValueError. *)
Definition python_int (s : string) : option Z :=
  match rstrip_int (lstrip_int s) with
  | String "-" r => (fun n => - Z.of_N n) <$> int_digits r 0%N false
  | String "+" r => Z.of_N <$> int_digits r 0%N false
  | r => Z.of_N <$> int_digits r 0%N false
  end.

  (** The decimal digits of a natural number, most significant first; the
      digits of 0 are the single digit 0. *)
Fixpoint digits_fuel (fuel : nat) (n : N) : list ascii :=
  match fuel with
  | O => [digit_char (n mod 10)]
  | S f =>
      if (n <? 10)%N then [digit_char n]
      else digits_fuel f (n / 10)%N ++ [digit_char (n mod 10)]
  end.

Definition digits (n : N) : list ascii := digits_fuel (S (N.to_nat (N.log2 n))) n.

Definition str_of_chars (l : list ascii) : string := string_of_list_ascii l.

  (** [str(n)] for an [int]. *)
Definition str_N (n : N) : string := str_of_chars (digits n).

Definition str_Z (z : Z) : string :=
  if z <? 0 then String "-" (str_N (Z.abs_N z)) else str_N (Z.abs_N z).

  (** ASCII lower-casing, for case-insensitive matching. *)
Definition lower (c : ascii) : ascii :=
  let n := N_of_ascii c in
  if ((65 <=? n) && (n <=? 90))%N then ascii_of_N (n + 32) else c.

Fixpoint lower_str (s : string) : string :=
  match s with
  | EmptyString => EmptyString
  | String c s' => String (lower c) (lower_str s')
  end.

  (** Reads a maximal run of digits: accumulated value, number of digits read,
      and the rest of the string. *)
Fixpoint read_digits (s : string) (acc : N) (cnt : nat) : N * nat * string :=
  match s with
  | EmptyString => (acc, cnt, EmptyString)
  | String c s' =>
      match digit_val c with
      | Some d => read_digits s' (10 * acc + d)%N (S cnt)
      | None => (acc, cnt, s)
      end
  end.

End PyStr.

(** ** Exceptions and fallible results *)

Inductive exn : Set :=
| InvalidOperation   (* decimal.InvalidOperation, with its subclasses *)
| DivisionByZero     (* decimal.DivisionByZero *)
| Overflow           (* decimal.Overflow *)
| TclError           (* raised by the widget variable *)
| OSError            (* raised when a file cannot be opened *)
| AttributeError.    (* raised when an attribute is read before it is set *)

Inductive res (A : Type) : Type :=
| Ok (a : A)
| Raise (e : exn).
Arguments Ok {A} a.
Arguments Raise {A} e.

#[global] Instance res_ret : MRet res := fun A a => Ok a.
#[global] Instance res_bind : MBind res := fun A B f m =>
  match m with
  | Ok a => f a
  | Raise e => Raise e
  end.

(** ** decimal.Decimal under the default context *)
Module Dec.
  Import PyStr.

  (** A finite number is (-1)^sign * coeff * 10^exp; the other three shapes
      are the special values, the NaNs with their diagnostic payload. *)
Inductive Decimal : Set :=
| Finite (sign : bool) (coeff : N) (exp : Z)
| Infinity (sign : bool)
| NaN (sign : bool) (payload : N)
| sNaN (sign : bool) (payload : N).

  (** The default context: [getcontext()] is never changed by the program. *)
Definition prec : Z := 28.
Definition Emax : Z := 999999.
Definition Emin : Z := -999999.
Definition Etiny : Z := Emin - prec + 1.
Definition Etop : Z := Emax - prec + 1.

Inductive rounding : Set := ROUND_HALF_UP | ROUND_HALF_EVEN.

Definition pow10 (k : Z) : N := (10 ^ Z.to_N k)%N.

  (** [len(self._int)] *)
Definition ndigits (c : N) : Z := Z.of_nat (length (digits c)).

  (** [bool(d)]: only a finite zero is false. *)
Definition is_zero (d : Decimal) : bool :=
  match d with
  | Finite _ c _ => (c =? 0)%N
  | _ => false
  end.

  (** The rounding functions inspect a coefficient of which the first [keep]
      digits are kept ([keep] is below the number of digits): 1 rounds the
      kept part up, 0 says the dropped digits are all zero, -1 truncates. *)
Definition round_half_up (c : N) (keep : Z) : Z :=
  let p := pow10 (ndigits c - keep) in
  let r := (c mod p)%N in
  if (p <=? 2 * r)%N then 1 else if (r =? 0)%N then 0 else -1.

Definition round_half_even (c : N) (keep : Z) : Z :=
  let p := pow10 (ndigits c - keep) in
  let r := (c mod p)%N in
  if ((2 * r =? p)%N && ((keep =? 0) || N.even (c / p))) then -1
  else round_half_up c keep.

Definition pick_rounding_function (r : rounding) : N -> Z -> Z :=
  match r with
  | ROUND_HALF_UP => round_half_up
  | ROUND_HALF_EVEN => round_half_even
  end.

  (** [_fix_nan]: a payload longer than the precision keeps its last digits. *)
Definition fix_nan (d : Decimal) : Decimal :=
  match d with
  | NaN s p => if prec <? ndigits p then NaN s (p mod pow10 prec) else d
  | sNaN s p => if prec <? ndigits p then sNaN s (p mod pow10 prec) else d
  | _ => d
  end.

  (** [_rescale]: the same number with exponent [exp], rounded if digits are
      lost. *)
Definition rescale (d : Decimal) (exp : Z) (r : rounding) : Decimal :=
  match d with
  | Finite s c e =>
      if (c =? 0)%N then Finite s 0 exp
      else if exp <=? e then Finite s (c * pow10 (e - exp)) exp
      else
        let digits := ndigits c + e - exp in
        let '(c, digits) := if digits <? 0 then (1%N, 0) else (c, digits) in
        let changed := pick_rounding_function r c digits in
        let coeff := (c / pow10 (ndigits c - digits))%N in
        Finite s (if changed =? 1 then coeff + 1 else coeff) exp
  | _ => d
  end.

  (** [_fix]: rounds to the context precision and raises Overflow above
      Emax.  The untrapped signals only set flags the program never reads. *)
Definition fix_ (d : Decimal) : res Decimal :=
  match d with
  | NaN _ _ | sNaN _ _ => Ok (fix_nan d)
  | Infinity _ => Ok d
  | Finite s c e =>
      if (c =? 0)%N then Ok (Finite s 0 (Z.min (Z.max e Etiny) Emax))
      else
        let exp_min := ndigits c + e - prec in
        if Etop <? exp_min then Raise Overflow
        else
          let exp_min := if exp_min <? Etiny then Etiny else exp_min in
          if e <? exp_min then
            let digits := ndigits c + e - exp_min in
            let '(c1, digits) := if digits <? 0 then (1%N, 0) else (c, digits) in
            let changed := round_half_even c1 digits in
            let coeff := (c1 / pow10 (ndigits c1 - digits))%N in
            let '(coeff, exp_min) :=
              if 0 <? changed then
                let coeff := (coeff + 1)%N in
                if prec <? ndigits coeff then ((coeff / 10)%N, exp_min + 1)
                else (coeff, exp_min)
              else (coeff, exp_min) in
            if Etop <? exp_min then Raise Overflow
            else Ok (Finite s coeff exp_min)
          else Ok d
  end.

  (** [_check_nans]: a signalling NaN raises, a quiet one is the result. *)
Definition check_nans (a b : Decimal) : option (res Decimal) :=
  match a, b with
  | sNaN _ _, _ => Some (Raise InvalidOperation)
  | _, sNaN _ _ => Some (Raise InvalidOperation)
  | NaN _ _, _ => Some (Ok (fix_nan a))
  | _, NaN _ _ => Some (Ok (fix_nan b))
  | _, _ => None
  end.

  (** [Decimal(n)] for an [int]: exact. *)
Definition of_int (z : Z) : Decimal := Finite (z <? 0) (Z.abs_N z) 0.

Definition copy_negate (d : Decimal) : Decimal :=
  match d with
  | Finite s c e => Finite (negb s) c e
  | Infinity s => Infinity (negb s)
  | NaN s p => NaN (negb s) p
  | sNaN s p => sNaN (negb s) p
  end.

  (** [__mul__] *)
Definition mul (a b : Decimal) : res Decimal :=
  match check_nans a b with
  | Some r => r
  | None =>
      match a, b with
      | Infinity s1, Infinity s2 => Ok (Infinity (xorb s1 s2))
      | Infinity s1, Finite s2 c2 _ =>
          if (c2 =? 0)%N then Raise InvalidOperation else Ok (Infinity (xorb s1 s2))
      | Finite s1 c1 _, Infinity s2 =>
          if (c1 =? 0)%N then Raise InvalidOperation else Ok (Infinity (xorb s1 s2))
      | Finite s1 c1 e1, Finite s2 c2 e2 =>
          fix_ (Finite (xorb s1 s2) (c1 * c2) (e1 + e2))
      | _, _ => Raise InvalidOperation
      end
  end.

  (** [_normalize]: brings two non-zero operands to the same exponent; an
      operand too small to matter is replaced by a sticky unit. *)
Definition normalize (op1 op2 : N * Z) : (N * Z) * (N * Z) :=
  let '(tmp, other, swapped) :=
    if snd op1 <? snd op2 then (op2, op1, true) else (op1, op2, false) in
  let tmp_len := ndigits (fst tmp) in
  let other_len := ndigits (fst other) in
  let exp := snd tmp + Z.min (-1) (tmp_len - prec - 2) in
  let other := if other_len + snd other - 1 <? exp then (1%N, exp) else other in
  let tmp := ((fst tmp * pow10 (snd tmp - snd other))%N, snd other) in
  if swapped then (other, tmp) else (tmp, other).

  (** [__add__] *)
Definition add (a b : Decimal) : res Decimal :=
  match check_nans a b with
  | Some r => r
  | None =>
      match a, b with
      | Infinity s1, Infinity s2 => if xorb s1 s2 then Raise InvalidOperation else Ok a
      | Infinity _, _ => Ok a
      | _, Infinity _ => Ok b
      | Finite s1 c1 e1, Finite s2 c2 e2 =>
          let exp := Z.min e1 e2 in
          if (c1 =? 0)%N && (c2 =? 0)%N then fix_ (Finite (s1 && s2) 0 exp)
          else if (c1 =? 0)%N then
            fix_ (rescale b (Z.max exp (e2 - prec - 1)) ROUND_HALF_EVEN)
          else if (c2 =? 0)%N then
            fix_ (rescale a (Z.max exp (e1 - prec - 1)) ROUND_HALF_EVEN)
          else
            let '((i1, x1), (i2, _)) := normalize (c1, e1) (c2, e2) in
            if xorb s1 s2 then
              if (i1 =? i2)%N then fix_ (Finite false 0 exp)
              else if (i1 <? i2)%N then fix_ (Finite s2 (i2 - i1) x1)
              else fix_ (Finite s1 (i1 - i2) x1)
            else fix_ (Finite s1 (i1 + i2) x1)
      | _, _ => Raise InvalidOperation
      end
  end.

  (** [__sub__] *)
Definition sub (a b : Decimal) : res Decimal :=
  match check_nans a b with
  | Some r => r
  | None => add a (copy_negate b)
  end.

  (** The loop of [__truediv__] that removes trailing zeros of an exact
      quotient while the exponent is below the ideal one. *)
Fixpoint strip_zeros (fuel : nat) (coeff : N) (exp ideal : Z) : N * Z :=
  match fuel with
  | O => (coeff, exp)
  | S f =>
      if (exp <? ideal) && (coeff mod 10 =? 0)%N
      then strip_zeros f (coeff / 10)%N (exp + 1) ideal
      else (coeff, exp)
  end.

  (** [__truediv__] *)
Definition div (a b : Decimal) : res Decimal :=
  match check_nans a b with
  | Some r => r
  | None =>
      match a, b with
      | Infinity _, Infinity _ => Raise InvalidOperation
      | Infinity s1, Finite s2 _ _ => Ok (Infinity (xorb s1 s2))
      | Finite s1 _ _, Infinity s2 => Ok (Finite (xorb s1 s2) 0 Etiny)
      | Finite s1 c1 e1, Finite s2 c2 e2 =>
          let sign := xorb s1 s2 in
          if (c2 =? 0)%N then
            if (c1 =? 0)%N then Raise InvalidOperation else Raise DivisionByZero
          else if (c1 =? 0)%N then fix_ (Finite sign 0 (e1 - e2))
          else
            let shift := ndigits c2 - ndigits c1 + prec + 1 in
            let exp := e1 - e2 - shift in
            let '(coeff, remainder) :=
              if 0 <=? shift then N.div_eucl (c1 * pow10 shift) c2
              else N.div_eucl c1 (c2 * pow10 (- shift)) in
            let '(coeff, exp) :=
              if (remainder =? 0)%N
              then strip_zeros (Z.to_nat (e1 - e2 - exp)) coeff exp (e1 - e2)
              else ((if (coeff mod 5 =? 0)%N then coeff + 1 else coeff)%N, exp) in
            fix_ (Finite sign coeff exp)
      | _, _ => Raise InvalidOperation
      end
  end.

  (** [quantize(exp, rounding)] *)
Definition quantize (a exp : Decimal) (r : rounding) : res Decimal :=
  match check_nans a exp with
  | Some x => x
  | None =>
      match a, exp with
      | Infinity _, Infinity _ => Ok a
      | Infinity _, _ | _, Infinity _ => Raise InvalidOperation
      | Finite s c e, Finite _ _ ee =>
          if negb ((Etiny <=? ee) && (ee <=? Emax)) then Raise InvalidOperation
          else if (c =? 0)%N then fix_ (Finite s 0 ee)
          else if Emax <? e + ndigits c - 1 then Raise InvalidOperation
          else if prec <? e + ndigits c - 1 - ee + 1 then Raise InvalidOperation
          else
            match rescale a ee r with
            | Finite s' c' e' =>
                if Emax <? e' + ndigits c' - 1 then Raise InvalidOperation
                else if prec <? ndigits c' then Raise InvalidOperation
                else fix_ (Finite s' c' e')
            | _ => Raise InvalidOperation
            end
      | _, _ => Raise InvalidOperation
      end
  end.

  (** [a == b] on decimals: numeric equality, false as soon as one side is a
      NaN (with a signalling NaN Python raises instead of answering). *)
Definition eqb (a b : Decimal) : bool :=
  match a, b with
  | Infinity s1, Infinity s2 => Bool.eqb s1 s2
  | Finite s1 c1 e1, Finite s2 c2 e2 =>
      if (c1 =? 0)%N && (c2 =? 0)%N then true
      else Bool.eqb s1 s2 &&
           (c1 * pow10 (e1 - Z.min e1 e2) =? c2 * pow10 (e2 - Z.min e1 e2))%N
  | _, _ => false
  end.

Definition sign_chars (s : bool) : list ascii := if s then ["-"%char] else [].

Definition payload_chars (p : N) : list ascii := if (p =? 0)%N then [] else digits p.

  (** ["%+d" % z] *)
Definition signed_chars (z : Z) : list ascii :=
  (if z <? 0 then "-"%char else "+"%char) :: digits (Z.abs_N z).

  (** [__str__], which is also what an f-string without format spec gives. *)
Definition to_str (d : Decimal) : string :=
  str_of_chars
    match d with
    | Infinity s => sign_chars s ++ list_ascii_of_string "Infinity"
    | NaN s p => sign_chars s ++ list_ascii_of_string "NaN" ++ payload_chars p
    | sNaN s p => sign_chars s ++ list_ascii_of_string "sNaN" ++ payload_chars p
    | Finite s c e =>
        let int := digits c in
        let leftdigits := e + ndigits c in
        let dotplace := if (e <=? 0) && (-6 <? leftdigits) then leftdigits else 1 in
        let '(intpart, fracpart) :=
          if dotplace <=? 0 then
            (["0"%char], "."%char :: repeat "0"%char (Z.to_nat (- dotplace)) ++ int)
          else if ndigits c <=? dotplace then
            (int ++ repeat "0"%char (Z.to_nat (dotplace - ndigits c)), [])
          else
            (take (Z.to_nat dotplace) int, "."%char :: drop (Z.to_nat dotplace) int) in
        let exp := if leftdigits =? dotplace then []
                   else "E"%char :: signed_chars (leftdigits - dotplace) in
        sign_chars s ++ intpart ++ fracpart ++ exp
    end.

  (** The exponent suffix of a numeric string: [E], an optional sign and at
      least one digit, up to the end. *)
Definition parse_exponent (s : string) : option Z :=
  match s with
  | EmptyString => Some 0
  | String "e" r =>
      let '(neg, r) := match r with
                       | String "-" r' => (true, r')
                       | String "+" r' => (false, r')
                       | _ => (false, r)
                       end in
      match read_digits r 0%N 0%nat with
      | (_, O, _) => None
      | (v, _, EmptyString) => Some (if neg then - Z.of_N v else Z.of_N v)
      | _ => None
      end
  | _ => None
  end.

  (** The digits-only tail of a NaN: its payload. *)
Definition parse_payload (s : string) : option N :=
  match read_digits s 0%N 0%nat with
  | (v, _, EmptyString) => Some v
  | _ => None
  end.

  (** [Decimal(value)] for a [str]: exact, whatever the precision.  A string
      that is no numeric string raises InvalidOperation. *)
Definition of_string (value : string) : res Decimal :=
  let s := remove_char "_" (strip value) in
  let '(sign, s) := match s with
                    | String "-" r => (true, r)
                    | String "+" r => (false, r)
                    | _ => (false, s)
                    end in
  let s := lower_str s in
  let '(iv, icnt, rest) := read_digits s 0%N 0%nat in
  let '(v, fcnt, rest) := match rest with
                          | String "." r => read_digits r iv 0%nat
                          | _ => (iv, 0%nat, rest)
                          end in
  if (0 <? icnt + fcnt)%nat then
    match parse_exponent rest with
    | Some e => Ok (Finite sign v (e - Z.of_nat fcnt))
    | None => Raise InvalidOperation
    end
  else if String.eqb s "inf" || String.eqb s "infinity" then Ok (Infinity sign)
  else
    match s with
    | String "n" (String "a" (String "n" r)) =>
        match parse_payload r with
        | Some p => Ok (NaN sign p)
        | None => Raise InvalidOperation
        end
    | String "s" (String "n" (String "a" (String "n" r))) =>
        match parse_payload r with
        | Some p => Ok (sNaN sign p)
        | None => Raise InvalidOperation
        end
    | _ => Raise InvalidOperation
    end.

End Dec.

(** ** The billing program *)
Module Billing.
  Import PyStr Dec.

  (** *** Config *)
Definition PRODUCTS_CSV : string := "products.csv".
Definition INVOICES_DIR : string := "invoices".
  (** [Decimal("18.0")], in percent *)
Definition GST_DEFAULT : Decimal := Finite false 180 (-1).
  (** [Decimal("0.01")] *)
Definition CURRENCY_QUANT : Decimal := Finite false 1 (-2).

Definition money (d : Decimal) : res string :=
  q ← quantize d CURRENCY_QUANT ROUND_HALF_UP; Ok (to_str q).

  (** *** Data *)

  (** A catalog entry, [{"name": ..., "price": ...}]. *)
Record Product : Set := { prod_name : string; prod_price : Decimal }.

  (** A cart line, [{code, name, price, qty, line_total}]. *)
Record CartItem : Set := {
  code : string;
  name : string;
  price : Decimal;
  qty : Z;
  line_total : Decimal
}.

  (** The five attributes [update_totals] stores on the application. *)
Record Totals : Set := {
  subtotal : Decimal;
  gst_total : Decimal;
  cgst : Decimal;
  sgst : Decimal;
  grand_total : Decimal
}.

  (** The [invoice_data] dictionary of [generate_invoice]. *)
Record InvoiceData : Set := {
  date : string;
  customer_name : string;
  items : list CartItem;
  gst_percent_text : string;
  amounts : Totals
}.

  (** A file is seen through what the program does with it: the rows the csv
      module reads or writes, or a text. *)
Inductive FileData : Set :=
| CsvRows (rows : list (list string))
| Text (text : string).

  (** The part of the file system the program touches: the catalog file in
      the working directory ([None]: it does not exist), the invoices
      directory ([None]: absent, else its entries by name), and the files at
      the paths the file dialogs return, taken to lie outside the first two.
      Only the program changes it. *)
Record FS : Type := {
  products_csv : option (list (list string));
  invoices_dir : option (gmap string FileData);
  elsewhere : gmap string (list (list string))
}.

  (** What the user is shown: message boxes and pages handed to the system. *)
Inductive Event : Set :=
| showwarning (title message : string)
| showinfo (title message : string)
| showerror (title : string) (e : exn)   (* the message is [str(e)] *)
| askyesno (title message : string) (answer : bool)
| open_new_tab (path : string)           (* the absolute form of [path] *)
| open_folder (path : string).

  (** *** Catalog loader *)

  (** [a or b] on operands that are [None] or a [str]. *)
Definition py_or (a b : option string) : option string :=
  match a with
  | Some (String _ _) => a
  | _ => b
  end.

  (** The dictionary [csv.DictReader] builds for a row: [dict(zip(fieldnames,
      row))], in which a later duplicate of a field name wins, then [None] for
      every field name a short row does not reach.  [get] cannot tell a
      [None] value from a missing key, so such a key is left out. *)
Fixpoint zip_dict (fieldnames row : list string) (d : gmap string string)
  : gmap string string :=
  match fieldnames, row with
  | k :: ks, v :: vs => zip_dict ks vs (<[k := v]> d)
  | k :: ks, [] => zip_dict ks [] (delete k d)
  | [], _ => d
  end.

  (** [csv.DictReader]: the first row gives the field names, blank rows are
      skipped. *)
Definition DictReader (rows : list (list string)) : list (gmap string string) :=
  match rows with
  | [] => []
  | fieldnames :: rest =>
      (fun row => zip_dict fieldnames row ∅)
        <$> filter (fun row => row ≠ []) rest
  end.

  (** The three locals of the loop body: [code], [name] and [price]. *)
Definition row_code (r : gmap string string) : option string :=
  py_or (py_or (r !! "code") (r !! "id")) (r !! "sku").

Definition row_name (r : gmap string string) : string :=
  default EmptyString (py_or (py_or (r !! "name") (r !! "product")) (Some EmptyString)).

Definition row_price (r : gmap string string) : string :=
  default EmptyString (py_or (r !! "price") (Some "0")).

Definition read_products_row (products : gmap string Product) (r : gmap string string)
  : gmap string Product :=
  match row_code r with
  | Some (String _ _ as code) =>
      let price_d := match of_string (row_price r) with
                     | Ok d => d
                     | Raise _ => Finite false 0 0
                     end in
      <[code := {| prod_name := row_name r; prod_price := price_d |}]> products
  | _ => products
  end.

Definition read_products (fs : FS) : gmap string Product :=
  match products_csv fs with
  | None => ∅
  | Some rows => foldl read_products_row ∅ (DictReader rows)
  end.

  (** *** Invoice numbering *)

Definition ensure_invoices_dir (fs : FS) : FS :=
  match invoices_dir fs with
  | Some _ => fs
  | None => {| products_csv := products_csv fs;
               invoices_dir := Some ∅;
               elsewhere := elsewhere fs |}
  end.

  (** [os.listdir(INVOICES_DIR)], in the order the system gives. *)
Definition listdir (fs : FS) : list string :=
  match invoices_dir fs with
  | Some d => (map_to_list d).*1
  | None => []
  end.

  (** [int(fname.split("_")[1].split(".")[0])]; [None] when it raises. *)
Definition embedded_number (fname : string) : option Z :=
  tok ← split "_" fname !! 1%nat;
  tok ← split "." tok !! 0%nat;
  python_int tok.

  (** The list [nums] after the scan. *)
Fixpoint scan (fnames : list string) : list Z :=
  match fnames with
  | [] => []
  | fname :: rest =>
      if startswith "invoice_" fname && endswith ".csv" fname then
        match embedded_number fname with
        | Some n => n :: scan rest
        | None => scan rest
        end
      else scan rest
  end.

  (** [max(l)] for a non-empty list given as head and tail. *)
Definition py_max (x : Z) (l : list Z) : Z := foldl Z.max x l.

  (** Returns the number and the file system with the directory ensured;
      [max(nums + [0])] is the maximum of [nums] and 0. *)
Definition next_invoice_number (fs : FS) : Z * FS :=
  let fs := ensure_invoices_dir fs in
  let nums := scan (listdir fs) in
  (match nums ++ [0] with
   | [] => 0
   | x :: l => py_max x l
   end + 1, fs).

  (** *** The application state *)

Record App : Type := {
  products : gmap string Product;   (* [self.products]: code to catalog entry *)
  cart : list CartItem;   (* [self.cart] *)
  gst_percent : Decimal;   (* [self.gst_percent] *)
  product_listbox : list string;   (* the lines of the product list box *)
  listbox_selection : list nat;   (* [curselection()]: indices of the selected lines *)
  qty_var : option Z;   (* what [qty_var.get()] yields; [None]: it raises TclError *)
  tree : list (list string);   (* the rows of the cart view, five values each *)
  tree_selection : list nat;   (* indices of the selected rows of the cart view *)
  customer_entry : string;   (* the text of the customer field *)
  gst_var : string;   (* the text of the GST % field *)
  subtotal_label : string;
  gst_label : string;
  grand_label : string;
  totals : option Totals;   (* the stored totals; [None] before the first [update_totals] *)
  log : list Event;   (* what the user has been shown, oldest first *)
  fs : FS   (* the file system *)
}.

Definition set_products (v : gmap string Product) (s : App) : App :=
  {| products := v; cart := cart s; gst_percent := gst_percent s;
     product_listbox := product_listbox s; listbox_selection := listbox_selection s;
     qty_var := qty_var s; tree := tree s; tree_selection := tree_selection s;
     customer_entry := customer_entry s; gst_var := gst_var s;
     subtotal_label := subtotal_label s; gst_label := gst_label s;
     grand_label := grand_label s; totals := totals s; log := log s; fs := fs s |}.

Definition set_cart (v : list CartItem) (s : App) : App :=
  {| products := products s; cart := v; gst_percent := gst_percent s;
     product_listbox := product_listbox s; listbox_selection := listbox_selection s;
     qty_var := qty_var s; tree := tree s; tree_selection := tree_selection s;
     customer_entry := customer_entry s; gst_var := gst_var s;
     subtotal_label := subtotal_label s; gst_label := gst_label s;
     grand_label := grand_label s; totals := totals s; log := log s; fs := fs s |}.

Definition set_gst_percent (v : Decimal) (s : App) : App :=
  {| products := products s; cart := cart s; gst_percent := v;
     product_listbox := product_listbox s; listbox_selection := listbox_selection s;
     qty_var := qty_var s; tree := tree s; tree_selection := tree_selection s;
     customer_entry := customer_entry s; gst_var := gst_var s;
     subtotal_label := subtotal_label s; gst_label := gst_label s;
     grand_label := grand_label s; totals := totals s; log := log s; fs := fs s |}.

Definition set_product_listbox (v : list string) (s : App) : App :=
  {| products := products s; cart := cart s; gst_percent := gst_percent s;
     product_listbox := v; listbox_selection := listbox_selection s;
     qty_var := qty_var s; tree := tree s; tree_selection := tree_selection s;
     customer_entry := customer_entry s; gst_var := gst_var s;
     subtotal_label := subtotal_label s; gst_label := gst_label s;
     grand_label := grand_label s; totals := totals s; log := log s; fs := fs s |}.

Definition set_listbox_selection (v : list nat) (s : App) : App :=
  {| products := products s; cart := cart s; gst_percent := gst_percent s;
     product_listbox := product_listbox s; listbox_selection := v;
     qty_var := qty_var s; tree := tree s; tree_selection := tree_selection s;
     customer_entry := customer_entry s; gst_var := gst_var s;
     subtotal_label := subtotal_label s; gst_label := gst_label s;
     grand_label := grand_label s; totals := totals s; log := log s; fs := fs s |}.

Definition set_qty_var (v : option Z) (s : App) : App :=
  {| products := products s; cart := cart s; gst_percent := gst_percent s;
     product_listbox := product_listbox s; listbox_selection := listbox_selection s;
     qty_var := v; tree := tree s; tree_selection := tree_selection s;
     customer_entry := customer_entry s; gst_var := gst_var s;
     subtotal_label := subtotal_label s; gst_label := gst_label s;
     grand_label := grand_label s; totals := totals s; log := log s; fs := fs s |}.

Definition set_tree (v : list (list string)) (s : App) : App :=
  {| products := products s; cart := cart s; gst_percent := gst_percent s;
     product_listbox := product_listbox s; listbox_selection := listbox_selection s;
     qty_var := qty_var s; tree := v; tree_selection := tree_selection s;
     customer_entry := customer_entry s; gst_var := gst_var s;
     subtotal_label := subtotal_label s; gst_label := gst_label s;
     grand_label := grand_label s; totals := totals s; log := log s; fs := fs s |}.

Definition set_tree_selection (v : list nat) (s : App) : App :=
  {| products := products s; cart := cart s; gst_percent := gst_percent s;
     product_listbox := product_listbox s; listbox_selection := listbox_selection s;
     qty_var := qty_var s; tree := tree s; tree_selection := v;
     customer_entry := customer_entry s; gst_var := gst_var s;
     subtotal_label := subtotal_label s; gst_label := gst_label s;
     grand_label := grand_label s; totals := totals s; log := log s; fs := fs s |}.

Definition set_customer_entry (v : string) (s : App) : App :=
  {| products := products s; cart := cart s; gst_percent := gst_percent s;
     product_listbox := product_listbox s; listbox_selection := listbox_selection s;
     qty_var := qty_var s; tree := tree s; tree_selection := tree_selection s;
     customer_entry := v; gst_var := gst_var s; subtotal_label := subtotal_label s;
     gst_label := gst_label s; grand_label := grand_label s; totals := totals s;
     log := log s; fs := fs s |}.

Definition set_gst_var (v : string) (s : App) : App :=
  {| products := products s; cart := cart s; gst_percent := gst_percent s;
     product_listbox := product_listbox s; listbox_selection := listbox_selection s;
     qty_var := qty_var s; tree := tree s; tree_selection := tree_selection s;
     customer_entry := customer_entry s; gst_var := v;
     subtotal_label := subtotal_label s; gst_label := gst_label s;
     grand_label := grand_label s; totals := totals s; log := log s; fs := fs s |}.

Definition set_subtotal_label (v : string) (s : App) : App :=
  {| products := products s; cart := cart s; gst_percent := gst_percent s;
     product_listbox := product_listbox s; listbox_selection := listbox_selection s;
     qty_var := qty_var s; tree := tree s; tree_selection := tree_selection s;
     customer_entry := customer_entry s; gst_var := gst_var s; subtotal_label := v;
     gst_label := gst_label s; grand_label := grand_label s; totals := totals s;
     log := log s; fs := fs s |}.

Definition set_gst_label (v : string) (s : App) : App :=
  {| products := products s; cart := cart s; gst_percent := gst_percent s;
     product_listbox := product_listbox s; listbox_selection := listbox_selection s;
     qty_var := qty_var s; tree := tree s; tree_selection := tree_selection s;
     customer_entry := customer_entry s; gst_var := gst_var s;
     subtotal_label := subtotal_label s; gst_label := v; grand_label := grand_label s;
     totals := totals s; log := log s; fs := fs s |}.

Definition set_grand_label (v : string) (s : App) : App :=
  {| products := products s; cart := cart s; gst_percent := gst_percent s;
     product_listbox := product_listbox s; listbox_selection := listbox_selection s;
     qty_var := qty_var s; tree := tree s; tree_selection := tree_selection s;
     customer_entry := customer_entry s; gst_var := gst_var s;
     subtotal_label := subtotal_label s; gst_label := gst_label s; grand_label := v;
     totals := totals s; log := log s; fs := fs s |}.

Definition set_totals (v : option Totals) (s : App) : App :=
  {| products := products s; cart := cart s; gst_percent := gst_percent s;
     product_listbox := product_listbox s; listbox_selection := listbox_selection s;
     qty_var := qty_var s; tree := tree s; tree_selection := tree_selection s;
     customer_entry := customer_entry s; gst_var := gst_var s;
     subtotal_label := subtotal_label s; gst_label := gst_label s;
     grand_label := grand_label s; totals := v; log := log s; fs := fs s |}.

Definition set_log (v : list Event) (s : App) : App :=
  {| products := products s; cart := cart s; gst_percent := gst_percent s;
     product_listbox := product_listbox s; listbox_selection := listbox_selection s;
     qty_var := qty_var s; tree := tree s; tree_selection := tree_selection s;
     customer_entry := customer_entry s; gst_var := gst_var s;
     subtotal_label := subtotal_label s; gst_label := gst_label s;
     grand_label := grand_label s; totals := totals s; log := v; fs := fs s |}.

Definition set_fs (v : FS) (s : App) : App :=
  {| products := products s; cart := cart s; gst_percent := gst_percent s;
     product_listbox := product_listbox s; listbox_selection := listbox_selection s;
     qty_var := qty_var s; tree := tree s; tree_selection := tree_selection s;
     customer_entry := customer_entry s; gst_var := gst_var s;
     subtotal_label := subtotal_label s; gst_label := gst_label s;
     grand_label := grand_label s; totals := totals s; log := log s; fs := v |}.

  (** *** Methods run in a state-and-exception monad

      A method either returns or raises; in both cases the state it has built
      so far stays, since the event loop goes on after a failed callback. *)

Inductive outcome (A : Type) : Type :=
| Returned (a : A) (s : App)
| Raised (e : exn) (s : App).
Arguments Returned {A} a s.
Arguments Raised {A} e s.

Definition M (A : Type) : Type := App -> outcome A.

#[global] Instance M_ret : MRet M := fun A a s => Returned a s.
#[global] Instance M_bind : MBind M := fun A B f m s =>
  match m s with
  | Returned a s' => f a s'
  | Raised e s' => Raised e s'
  end.

Definition gets {A : Type} (f : App -> A) : M A := fun s => Returned (f s) s.
Definition modify (f : App -> App) : M unit := fun s => Returned tt (f s).
Definition raise {A : Type} (e : exn) : M A := fun s => Raised e s.
Definition lift {A : Type} (r : res A) : M A :=
  match r with
  | Ok a => mret a
  | Raise e => raise e
  end.

  (** [try: m except Exception as e: h e] *)
Definition try_except {A : Type} (m : M A) (h : exn -> M A) : M A := fun s =>
  match m s with
  | Returned a s' => Returned a s'
  | Raised e s' => h e s'
  end.

  (** [for x in l: body x] *)
Fixpoint for_each {A : Type} (l : list A) (body : A -> M unit) : M unit :=
  match l with
  | [] => mret tt
  | x :: l' => body x ;; for_each l' body
  end.

  (** The state an outcome leaves behind. *)
Definition state_of {A : Type} (o : outcome A) : App :=
  match o with
  | Returned _ s => s
  | Raised _ s => s
  end.

Definition messagebox (e : Event) : M unit :=
  modify (fun s => set_log (log s ++ [e]) s).

Definition nl : string := String (ascii_of_nat 10) EmptyString.
Definition dq : string := String (ascii_of_nat 34) EmptyString.
Definition cat (l : list string) : string := String.concat EmptyString l.

  (** *** Writing invoices *)

  (** [open(name, "w")] in the invoices directory, followed by one write. *)
Definition write_invoice_file (fname : string) (d : FileData) : M unit :=
  modify (fun s =>
    set_fs {| products_csv := products_csv (fs s);
              invoices_dir := Some (<[fname := d]> (default ∅ (invoices_dir (fs s))));
              elsewhere := elsewhere (fs s) |} s).

  (** [writer.writerow(row)] on an open csv file of the invoices directory. *)
Definition invoice_writerow (fname : string) (row : list string) : M unit :=
  modify (fun s =>
    set_fs {| products_csv := products_csv (fs s);
              invoices_dir :=
                Some (alter (fun d => match d with
                                      | CsvRows rows => CsvRows (rows ++ [row])
                                      | Text _ => d
                                      end) fname (default ∅ (invoices_dir (fs s))));
              elsewhere := elsewhere (fs s) |} s).

Definition item_row (row : CartItem) : res (list string) :=
  p ← money (price row);
  t ← money (line_total row);
  Ok [code row; name row; p; str_Z (qty row); t].

  (** Returns the path of the file, [os.path.join(INVOICES_DIR, ...)]. *)
Definition save_invoice_csv (inv_number : Z) (invoice_data : InvoiceData) : M string :=
  modify (fun s => set_fs (ensure_invoices_dir (fs s)) s) ;;
  let fname := "invoice_" +:+ str_Z inv_number +:+ ".csv" in
  let filename := INVOICES_DIR +:+ "/" +:+ fname in
  let writerow := invoice_writerow fname in
  write_invoice_file fname (CsvRows []) ;;
  writerow ["invoice_number"; str_Z inv_number] ;;
  writerow ["date"; date invoice_data] ;;
  writerow ["customer_name"; customer_name invoice_data] ;;
  writerow [] ;;
  writerow ["code"; "name"; "price"; "qty"; "total"] ;;
  for_each (items invoice_data) (fun row => r ← lift (item_row row); writerow r) ;;
  writerow [] ;;
  m ← lift (money (subtotal (amounts invoice_data))); writerow ["subtotal"; m] ;;
  writerow ["gst_percent"; gst_percent_text invoice_data] ;;
  m ← lift (money (gst_total (amounts invoice_data))); writerow ["gst_total"; m] ;;
  m ← lift (money (cgst (amounts invoice_data))); writerow ["cgst"; m] ;;
  m ← lift (money (sgst (amounts invoice_data))); writerow ["sgst"; m] ;;
  m ← lift (money (grand_total (amounts invoice_data))); writerow ["grand_total"; m] ;;
  mret filename.

Fixpoint rows_html (l : list CartItem) : res string :=
  match l with
  | [] => Ok EmptyString
  | row :: rest =>
      p ← money (price row);
      t ← money (line_total row);
      r ← rows_html rest;
      Ok (cat ["<tr><td>"; code row; "</td><td>"; name row;
               "</td><td align='right'>"; p;
               "</td><td align='center'>"; str_Z (qty row);
               "</td><td align='right'>"; t; "</td></tr>"; nl; r])
  end.

Definition invoice_html (inv_number : Z) (invoice_data : InvoiceData) : res string :=
  rows ← rows_html (items invoice_data);
  m_sub ← money (subtotal (amounts invoice_data));
  m_gst ← money (gst_total (amounts invoice_data));
  m_cgst ← money (cgst (amounts invoice_data));
  m_sgst ← money (sgst (amounts invoice_data));
  m_grand ← money (grand_total (amounts invoice_data));
  Ok (String.concat nl [
    EmptyString;
    "    <html>";
    cat ["    <head><meta charset="; dq; "utf-8"; dq; "><title>Invoice ";
         str_Z inv_number; "</title></head>"];
    "    <body>";
    cat ["    <h2>Invoice #"; str_Z inv_number; "</h2>"];
    cat ["    <p>Date: "; date invoice_data; "</p>"];
    cat ["    <p>Customer: "; customer_name invoice_data; "</p>"];
    cat ["    <table border="; dq; "1"; dq; " cellspacing="; dq; "0"; dq;
         " cellpadding="; dq; "6"; dq; " width="; dq; "80%"; dq; ">"];
    "      <thead>";
    "        <tr><th>Code</th><th>Item</th><th>Price</th><th>Qty</th><th>Line Total</th></tr>";
    "      </thead>";
    "      <tbody>";
    cat ["      "; rows];
    "      </tbody>";
    "    </table>";
    cat ["    <p>Subtotal: <b>"; m_sub; "</b></p>"];
    cat ["    <p>GST ("; gst_percent_text invoice_data; "%): <b>"; m_gst;
         "</b> (CGST "; m_cgst; " + SGST "; m_sgst; ")</p>"];
    cat ["    <h3>Grand Total: "; m_grand; "</h3>"];
    "    <hr>";
    "    <p>Thank you for your business!</p>";
    "    </body>";
    "    </html>";
    "    "]).

Definition save_invoice_html (inv_number : Z) (invoice_data : InvoiceData) : M string :=
  modify (fun s => set_fs (ensure_invoices_dir (fs s)) s) ;;
  let fname := "invoice_" +:+ str_Z inv_number +:+ ".html" in
  let filename := INVOICES_DIR +:+ "/" +:+ fname in
  html ← lift (invoice_html inv_number invoice_data);
  write_invoice_file fname (Text html) ;;
  mret filename.

  (** *** BillingApp *)

  (** [sorted(self.products.items())]: the codes are distinct, so the order is
      the order of the codes. *)
Fixpoint insert_sorted (x : string * Product) (l : list (string * Product))
  : list (string * Product) :=
  match l with
  | [] => [x]
  | y :: l' => if String.leb x.1 y.1 then x :: l else y :: insert_sorted x l'
  end.

Definition sorted_items (products : gmap string Product) : list (string * Product) :=
  foldr insert_sorted [] (map_to_list products).

Definition refresh_product_list : M unit :=
  modify (fun s => set_listbox_selection [] (set_product_listbox [] s)) ;;
  products ← gets products;
  for_each (sorted_items products) (fun '(code, p) =>
    m ← lift (money (prod_price p));
    modify (fun s =>
      set_product_listbox
        (product_listbox s ++ [cat [code; " | "; prod_name p; " | "; m]]) s)).

Definition refresh_cart : M unit :=
  modify (fun s => set_tree_selection [] (set_tree [] s)) ;;
  cart ← gets cart;
  for_each cart (fun item =>
    r ← lift (item_row item);
    modify (fun s => set_tree (tree s ++ [r]) s)).

  (** [subtotal = Decimal("0")] followed by [subtotal += it["line_total"]] for
      each line. *)
Definition sum_line_totals (cart : list CartItem) : res Decimal :=
  foldl (fun acc it => subtotal ← acc; add subtotal (line_total it))
        (Ok (Finite false 0 0)) cart.

  (** The last three statements of [update_totals], under its comment
      "update labels". *)
Definition update_labels (t : Totals) : M unit :=
  m ← lift (money (subtotal t));
  modify (set_subtotal_label ("Subtotal: " +:+ m)) ;;
  m_gst ← lift (money (gst_total t));
  m_cgst ← lift (money (cgst t));
  m_sgst ← lift (money (sgst t));
  modify (set_gst_label (cat ["GST: "; m_gst; " ("; m_cgst; " CGST + "; m_sgst; " SGST)"])) ;;
  m ← lift (money (grand_total t));
  modify (set_grand_label ("Grand Total: " +:+ m)).

Definition update_totals : M unit :=
  cart ← gets cart;
  subtotal ← lift (sum_line_totals cart);
  gst_percent ← try_except
                  (text ← gets gst_var; lift (of_string text))
                  (fun _ => modify (set_gst_var (to_str GST_DEFAULT)) ;; mret GST_DEFAULT);
  gst_total ← lift (p ← mul subtotal gst_percent;
                    q ← div p (Finite false 100 0);
                    quantize q CURRENCY_QUANT ROUND_HALF_UP);
  cgst ← lift (h ← div gst_total (of_int 2); quantize h CURRENCY_QUANT ROUND_HALF_UP);
  sgst ← lift (sub gst_total cgst);
  grand_total ← lift (t ← add subtotal gst_total; quantize t CURRENCY_QUANT ROUND_HALF_UP);
  let t := {| subtotal := subtotal; gst_total := gst_total; cgst := cgst; sgst := sgst;
              grand_total := grand_total |} in
  modify (set_totals (Some t)) ;;
  update_labels t.

  (** The loop of [add_selected_product] over the cart: the first line with the
      code gets its quantity incremented, then its total recomputed; the
      result tells whether a line was found.  When the recomputation raises,
      the incremented quantity stays. *)
Fixpoint increment_line (c : string) (q : Z) (cart : list CartItem)
  : list CartItem * res bool :=
  match cart with
  | [] => ([], Ok false)
  | item :: rest =>
      if String.eqb (code item) c then
        let item1 := {| code := code item; name := name item; price := price item;
                        qty := qty item + q; line_total := line_total item |} in
        match (p ← mul (price item1) (of_int (qty item1));
               quantize p CURRENCY_QUANT ROUND_HALF_UP) with
        | Ok t =>
            ({| code := code item1; name := name item1; price := price item1;
                qty := qty item1; line_total := t |} :: rest, Ok true)
        | Raise e => (item1 :: rest, Raise e)
        end
      else
        let '(rest', r) := increment_line c q rest in (item :: rest', r)
  end.

Definition add_selected_product : M unit :=
  sel ← gets listbox_selection;
  match sel with
  | [] =>
      messagebox (showwarning "Select product"
                    "Please select a product from the list (double-click works).")
  | idx :: _ =>
      lines ← gets product_listbox;
      let line := default EmptyString (lines !! idx) in
      let c := strip (default EmptyString (head (split "|" line))) in
      products ← gets products;
      match products !! c with
      | None => mret tt
      | Some prod =>
          v ← gets qty_var;
          q ← match v with
              | Some q => mret q
              | None => raise TclError
              end;
          if q <=? 0 then messagebox (showwarning "Quantity" "Enter quantity >= 1")
          else
            let price := prod_price prod in
            line_total ← lift (p ← mul price (of_int q);
                               quantize p CURRENCY_QUANT ROUND_HALF_UP);
            cart ← gets cart;
            let '(cart', r) := increment_line c q cart in
            modify (set_cart cart') ;;
            found ← lift r;
            (if found : bool then mret tt
             else modify (fun s =>
                    set_cart (Billing.cart s ++
                              [{| code := c; name := prod_name prod; price := price;
                                  qty := q; line_total := line_total |}]) s)) ;;
            refresh_cart ;;
            update_totals
      end
  end.

  (** [del self.cart[i]] at the first line with the code. *)
Fixpoint remove_first (c : string) (cart : list CartItem) : list CartItem :=
  match cart with
  | [] => []
  | it :: rest => if String.eqb (code it) c then rest else it :: remove_first c rest
  end.

Definition remove_selected : M unit :=
  sel ← gets tree_selection;
  match sel with
  | [] => mret tt
  | _ =>
      for_each sel (fun i =>
        rows ← gets tree;
        let vals := default [] (rows !! i) in
        let c := default EmptyString (head vals) in
        modify (fun s => set_cart (remove_first c (cart s)) s)) ;;
      refresh_cart ;;
      update_totals
  end.

  (** [answer] is what the user clicks in the confirmation box. *)
Definition clear_cart (answer : bool) : M unit :=
  messagebox (askyesno "Clear" "Clear the cart?" answer) ;;
  if answer then
    modify (set_cart []) ;;
    refresh_cart ;;
    update_totals
  else mret tt.

  (** [now] is the formatted current time. *)
Definition generate_invoice (now : string) : M unit :=
  cart ← gets cart;
  match cart with
  | [] => messagebox (showwarning "Empty cart" "Add items before generating an invoice.")
  | _ =>
      files ← gets fs;
      let '(inv_num, files) := next_invoice_number files in
      modify (set_fs files) ;;
      customer ← gets customer_entry;
      gst_text ← gets gst_var;
      t ← gets totals;
      match t with
      | None => raise AttributeError
      | Some t =>
          let invoice_data := {| date := now; customer_name := strip customer;
                                 items := cart; gst_percent_text := gst_text;
                                 amounts := t |} in
          csvfile ← save_invoice_csv inv_num invoice_data;
          htmlfile ← save_invoice_html inv_num invoice_data;
          messagebox (showinfo "Saved"
                        (cat ["Invoice #"; str_Z inv_num; " saved."; nl;
                              "CSV: "; csvfile; nl; "HTML: "; htmlfile])) ;;
          messagebox (open_new_tab htmlfile) ;;
          modify (set_cart []) ;;
          refresh_cart ;;
          update_totals
      end
  end.

  (** [path] is what the save dialog returns, empty when it is cancelled. *)
Definition export_cart_csv (path : string) : M unit :=
  cart ← gets cart;
  match cart with
  | [] => messagebox (showwarning "Empty cart" "No items to export.")
  | _ =>
      match path with
      | EmptyString => mret tt
      | _ =>
          let write rows := modify (fun s =>
            set_fs {| products_csv := products_csv (fs s);
                      invoices_dir := invoices_dir (fs s);
                      elsewhere := <[path := rows]> (elsewhere (fs s)) |} s) in
          let writerow row :=
            s ← gets fs; write (default [] (elsewhere s !! path) ++ [row]) in
          write [] ;;
          writerow ["code"; "name"; "price"; "qty"; "total"] ;;
          for_each cart (fun it => r ← lift (item_row it); writerow r) ;;
          messagebox (showinfo "Exported" ("Cart exported to " +:+ path))
      end
  end.

Definition open_invoices_folder : M unit :=
  modify (fun s => set_fs (ensure_invoices_dir (fs s)) s) ;;
  messagebox (open_folder INVOICES_DIR).

  (** [path] is what the open dialog returns, empty when it is cancelled. *)
Definition load_products_csv (path : string) : M unit :=
  match path with
  | EmptyString => mret tt
  | _ =>
      try_except
        (files ← gets fs;
         txt ← match elsewhere files !! path with
               | Some rows => mret rows
               | None => raise OSError
               end;
         modify (set_fs {| products_csv := Some txt;
                           invoices_dir := invoices_dir files;
                           elsewhere := elsewhere files |}) ;;
         files ← gets fs;
         modify (set_products (read_products files)) ;;
         refresh_product_list ;;
         messagebox (showinfo "Loaded"
                       (cat ["Products loaded from "; path; " into "; PRODUCTS_CSV])))
        (fun e => messagebox (showerror "Error" e))
  end.

  (** The widgets as [create_ui] leaves them. *)
Definition create_ui : M unit :=
  modify (fun s => set_listbox_selection [] (set_product_listbox [] s)) ;;
  modify (set_qty_var (Some 1)) ;;
  modify (fun s => set_tree_selection [] (set_tree [] s)) ;;
  modify (set_customer_entry EmptyString) ;;
  g ← gets gst_percent;
  modify (set_gst_var (to_str g)) ;;
  modify (set_subtotal_label "Subtotal: 0.00") ;;
  modify (set_gst_label "GST: 0.00 (CGST 0.00 + SGST 0.00)") ;;
  modify (set_grand_label "Grand Total: 0.00").

  (** [BillingApp.__init__] *)
Definition init : M unit :=
  files ← gets fs;
  modify (set_products (read_products files)) ;;
  products ← gets products;
  (if decide (products = ∅)
   then messagebox (showinfo "No products"
          (cat ["No products found in "; PRODUCTS_CSV;
                ". Please create the file and restart."]))
   else mret tt) ;;
  modify (set_cart []) ;;
  modify (set_gst_percent GST_DEFAULT) ;;
  create_ui ;;
  refresh_product_list ;;
  update_totals.

  (** The object before [__init__] has run, on a given file system. *)
Definition blank (files : FS) : App :=
  {| products := ∅; cart := []; gst_percent := GST_DEFAULT;
     product_listbox := []; listbox_selection := []; qty_var := None;
     tree := []; tree_selection := []; customer_entry := EmptyString;
     gst_var := EmptyString; subtotal_label := EmptyString;
     gst_label := EmptyString; grand_label := EmptyString;
     totals := None; log := []; fs := files |}.

  (** *** Sessions *)

  (** What the user can do between two callbacks, and the callbacks. *)
Inductive action : Type :=
| SelectProduct (sel : list nat)
| TypeQty (v : option Z)
| TypeGst (text : string)
| TypeCustomer (text : string)
| SelectRows (sel : list nat)
| AddSelectedProduct
| RemoveSelected
| ClearCart (answer : bool)
| GenerateInvoice (now : string)
| ExportCartCsv (path : string)
| OpenInvoicesFolder
| LoadProductsCsv (path : string).

Definition run (a : action) : M unit :=
  match a with
  | SelectProduct sel => modify (set_listbox_selection sel)
  | TypeQty v => modify (set_qty_var v)
  | TypeGst text => modify (set_gst_var text)
  | TypeCustomer text => modify (set_customer_entry text)
  | SelectRows sel => modify (set_tree_selection sel)
  | AddSelectedProduct => add_selected_product
  | RemoveSelected => remove_selected
  | ClearCart answer => clear_cart answer
  | GenerateInvoice now => generate_invoice now
  | ExportCartCsv path => export_cart_csv path
  | OpenInvoicesFolder => open_invoices_folder
  | LoadProductsCsv path => load_products_csv path
  end.

  (** A selection made by the user names existing lines or rows. *)
Definition enabled (a : action) (s : App) : Prop :=
  match a with
  | SelectProduct sel => Forall (fun i => (i < length (product_listbox s))%nat) sel
  | SelectRows sel => Forall (fun i => (i < length (tree s))%nat) sel
  | _ => True
  end.

  (** The states of a session: the application starts when [__init__]
      returns, and every callback, returning or raising, leaves a state from
      which the session goes on. *)
Inductive reachable : App -> Prop :=
| reach_init files s :
    init (blank files) = Returned tt s -> reachable s
| reach_step a s :
    reachable s -> enabled a s -> reachable (state_of (run a s)).

End Billing.

(** ** Vocabulary of the properties *)
Module Spec.
  Import PyStr Dec Billing.


Definition is_nan (d : Decimal) : bool :=
  match d with
  | NaN _ _ | sNaN _ _ => true
  | _ => false
  end.

  (** round_half_up(x, 2) *)
Definition round_half_up_2 (x : Decimal) : res Decimal :=
  quantize x CURRENCY_QUANT ROUND_HALF_UP.

  (** The parsed tax rate: the number in the rate field, or the default rate
      when the field holds no numeric string. *)
Definition parsed_rate (text : string) : Decimal :=
  match of_string text with
  | Ok d => d
  | Raise _ => GST_DEFAULT
  end.

  (** The Totals invariants, in the words of the specification: the subtotal
      is the sum of the line totals, the tax is the rounded percentage of it,
      the first split the rounded half of the tax, the second the remainder,
      the grand total the rounded sum. *)
Definition compute_totals (cart : list CartItem) (tax_rate_percent : Decimal)
  : res Totals :=
  subtotal ← sum_line_totals cart;
  tax_total ← (p ← mul subtotal tax_rate_percent;
               q ← div p (of_int 100);
               round_half_up_2 q);
  tax_split_a ← (h ← div tax_total (of_int 2); round_half_up_2 h);
  tax_split_b ← sub tax_total tax_split_a;
  grand_total ← (t ← add subtotal tax_total; round_half_up_2 t);
  Ok {| subtotal := subtotal; gst_total := tax_total; cgst := tax_split_a;
        sgst := tax_split_b; grand_total := grand_total |}.


  (** The ids embedded in the names of the invoice store. *)
Definition found_ids (files : FS) : list Z := scan (listdir files).

  (** [max(found_ids) + 1], and 1 when none is found. *)
Definition max_plus_one (ids : list Z) : Z :=
  match ids with
  | [] => 1
  | x :: l => py_max x l + 1
  end.

  (** The code [add_selected_product] reads off the selected line. *)
Definition selected_code (s : App) : option string :=
  match listbox_selection s with
  | [] => None
  | idx :: _ =>
      Some (strip (default EmptyString
                     (head (split "|" (default EmptyString (product_listbox s !! idx))))))
  end.

  (** A rejected add: the cart stays and the user is shown something. *)
Definition rejected_and_reported (s : App) : Prop :=
  let s' := state_of (add_selected_product s) in
  cart s' = cart s /\ exists e, log s' = log s ++ [e].

Definition codes (cart : list CartItem) : list string := code <$> cart.

  (** A store with invoices 1, 2 and 5, a name whose token is no number and a
      file of another kind. *)
Definition store_1_2_5 : FS :=
  {| products_csv := None;
     invoices_dir := Some (list_to_map
       [("invoice_1.csv", CsvRows []); ("invoice_2.csv", CsvRows []);
        ("invoice_5.csv", CsvRows []); ("invoice_draft.csv", CsvRows []);
        ("invoice_9.html", Text EmptyString)]);
     elsewhere := ∅ |}.

  (** A store whose only invoice name carries a negative number. *)
Definition store_negative : FS :=
  {| products_csv := None;
     invoices_dir := Some {["invoice_-3.csv" := CsvRows []]};
     elsewhere := ∅ |}.

  (** A catalog file with two records of the same code. *)
Definition catalog_A_twice : FS :=
  {| products_csv := Some [["code"; "name"; "price"];
                           ["A"; "Widget"; "9.999"];
                           ["A"; "Widget2"; "5.00"]];
     invoices_dir := None;
     elsewhere := ∅ |}.


  (** A catalog file whose one code starts with a blank. *)
Definition catalog_padded : FS :=
  {| products_csv := Some [["code"; "name"; "price"]; [" A"; "Gadget"; "9.999"]];
     invoices_dir := None;
     elsewhere := ∅ |}.

  (** The session on that catalog after the user has selected the only line
      of the product list. *)
Definition padded_selected : App :=
  state_of (run (SelectProduct [0%nat]) (state_of (init (blank catalog_padded)))).

  (** The application as it starts on the two-record catalog. *)
Definition started : App := state_of (init (blank catalog_A_twice)).

  (** The cart holds at most one line per product code. *)
Definition one_per_code (s : App) : Prop := NoDup (codes (cart s)).

  (** The state after a sequence of user actions. *)
Definition session (l : list action) (s : App) : App :=
  foldl (fun s a => state_of (run a s)) s l.

  (** Each action of the sequence is enabled in the state it meets. *)
Fixpoint all_enabled (l : list action) (s : App) : Prop :=
  match l with
  | [] => True
  | a :: l' => enabled a s /\ all_enabled l' (state_of (run a s))
  end.

  (** On the two-record catalog: the product A added with quantity 2, then
      with quantity 3. *)
Definition added_2_then_3 : App :=
  session [SelectProduct [0%nat]; TypeQty (Some 2); AddSelectedProduct;
           TypeQty (Some 3); AddSelectedProduct] started.

  (** The state in which [update_totals] computes: the rate field holds the
      default rate when its text was no numeric string. *)
Definition rate_fallback (s : App) : App :=
  match of_string (gst_var s) with
  | Ok _ => s
  | Raise _ => set_gst_var (to_str GST_DEFAULT) s
  end.

  (** A catalog with the product X at 10.00, and the session in which X is
      added with quantity 3 at the default rate 18.0. *)
Definition catalog_X : FS :=
  {| products_csv := Some [["code"; "name"; "price"]; ["X"; "Item"; "10.00"]];
     invoices_dir := None;
     elsewhere := ∅ |}.

Definition added_X_3 : App :=
  session [SelectProduct [0%nat]; TypeQty (Some 3); AddSelectedProduct]
          (state_of (init (blank catalog_X))).




  (** The amount |c * 10^e| in hundredths, rounded to the nearest with ties
      away from zero. *)
Definition cents (c : N) (e : Z) : N :=
  if -2 <=? e then (c * pow10 (e + 2))%N
  else ((2 * c + pow10 (-2 - e)) / (2 * pow10 (-2 - e)))%N.

  (** A sign, the digits of the units, a point and exactly two digits. *)
Definition two_decimals (s : bool) (m : N) : string :=
  str_of_chars (sign_chars s ++ digits (m / 100) ++
                ["."%char; digit_char (m / 10 mod 10); digit_char (m mod 10)]).

  (** [m] keeps [P]: whatever state [m] leaves, returning or raising. *)
Definition keeps (P : App -> Prop) {A : Type} (m : M A) : Prop :=
  forall s, P s -> P (state_of (m s)).

Definition with_invoices (d : option (gmap string FileData)) (files : FS) : FS :=
  {| products_csv := products_csv files; invoices_dir := d;
     elsewhere := elsewhere files |}.

End Spec.

(** ** Vocabulary of the further properties *)
Module Props.
  Import PyStr Dec Billing Spec.

  (** The names [save_invoice_csv] and [save_invoice_html] give the files of
      invoice [n]. *)
Definition invoice_csv_name (n : Z) : string := "invoice_" +:+ str_Z n +:+ ".csv".
Definition invoice_html_name (n : Z) : string := "invoice_" +:+ str_Z n +:+ ".html".

  (** The rows of an invoice file, top to bottom. *)
Definition invoice_rows (n : Z) (d : InvoiceData) : res (list (list string)) :=
  rows ← mapM item_row (items d);
  m_sub ← money (subtotal (amounts d));
  m_gst ← money (gst_total (amounts d));
  m_cgst ← money (cgst (amounts d));
  m_sgst ← money (sgst (amounts d));
  m_grand ← money (grand_total (amounts d));
  Ok ([["invoice_number"; str_Z n];
       ["date"; date d];
       ["customer_name"; customer_name d];
       [];
       ["code"; "name"; "price"; "qty"; "total"]]
      ++ rows ++
      [[];
       ["subtotal"; m_sub];
       ["gst_percent"; gst_percent_text d];
       ["gst_total"; m_gst];
       ["cgst"; m_cgst];
       ["sgst"; m_sgst];
       ["grand_total"; m_grand]]).

  (** The [invoice_data] dictionary [generate_invoice] builds in a state with
      stored totals [t]. *)
Definition invoice_data (now : string) (s : App) (t : Totals) : InvoiceData :=
  {| date := now; customer_name := strip (customer_entry s); items := cart s;
     gst_percent_text := gst_var s; amounts := t |}.

  (** The paths the two writers return. *)
Definition invoice_csv_path (n : Z) : string :=
  INVOICES_DIR +:+ "/" +:+ invoice_csv_name n.
Definition invoice_html_path (n : Z) : string :=
  INVOICES_DIR +:+ "/" +:+ invoice_html_name n.

  (** The state with one file of the invoices directory written. *)
Definition with_invoice_file (fname : string) (d : FileData) (s : App) : App :=
  set_fs {| products_csv := products_csv (fs s);
            invoices_dir := Some (<[fname := d]> (default ∅ (invoices_dir (fs s))));
            elsewhere := elsewhere (fs s) |} s.

  (** The codes [remove_selected] reads off the selected rows of the view. *)
Definition selected_codes (s : App) : list string :=
  (fun i => default EmptyString (head (default [] (tree s !! i)))) <$> tree_selection s.

  (** The total of a line is the rounded product of its price and quantity. *)
Definition line_ok (it : CartItem) : Prop :=
  (p ← mul (price it) (of_int (qty it)); round_half_up_2 p) = Ok (line_total it).

  (** A cart line as an add leaves it: a quantity of at least 1 under a code
      that is not empty. *)
Definition well_formed_line (it : CartItem) : Prop :=
  1 <= qty it /\ code it <> EmptyString.

  (** The first row of an exported cart. *)
Definition CART_HEADER : list string := ["code"; "name"; "price"; "qty"; "total"].

  (** The view shows the cart: one row per line, in order, with the values
      [refresh_cart] renders. *)
Definition view_shows_cart (s : App) : Prop := mapM item_row (cart s) = Ok (tree s).

  (** What the right-hand side of the window rests on: the cart, its view,
      the stored totals and the three labels. *)
Definition display (s : App)
  : list CartItem * list (list string) * option Totals * string * string * string :=
  (cart s, tree s, totals s, subtotal_label s, gst_label s, grand_label s).

  (** The labels show the stored totals. *)
Definition labels_show_totals (s : App) : Prop :=
  exists t m_sub m_gst m_cgst m_sgst m_grand,
    totals s = Some t /\
    money (subtotal t) = Ok m_sub /\ money (gst_total t) = Ok m_gst /\
    money (cgst t) = Ok m_cgst /\ money (sgst t) = Ok m_sgst /\
    money (grand_total t) = Ok m_grand /\
    subtotal_label s = "Subtotal: " +:+ m_sub /\
    gst_label s = cat ["GST: "; m_gst; " ("; m_cgst; " CGST + "; m_sgst; " SGST)"] /\
    grand_label s = "Grand Total: " +:+ m_grand.

  (** The states of a session in which every callback so far has returned. *)
Inductive returning : App -> Prop :=
| ret_init files s :
    init (blank files) = Returned tt s -> returning s
| ret_step a s s' :
    returning s -> enabled a s -> run a s = Returned tt s' -> returning s'.

  (** The line of the product list for a catalog entry. *)
Definition product_line (cp : string * Product) : res string :=
  m ← money (prod_price cp.2);
  Ok (cat [cp.1; " | "; prod_name cp.2; " | "; m]).

  (** The product list shows the catalog in the order of the codes, up to the
      first entry whose price did not render. *)
Definition listbox_shows_catalog (s : App) : Prop :=
  exists k, mapM product_line (take k (sorted_items (products s))) = Ok (product_listbox s).

  (** A code that survives the way [add_selected_product] reads it off a
      line: no bar in it and no white space around it. *)
Definition clean_code (c : string) : Prop :=
  strip c = c /\ Forall (fun x => x <> "|"%char) (list_ascii_of_string c).

  (** The line totals in hundredths, added up as natural numbers. *)
Definition hundredths (d : Decimal) : N :=
  match d with
  | Finite _ c _ => c
  | _ => 0%N
  end.

Definition sum_hundredths (cart : list CartItem) : N :=
  foldr (fun it acc => (hundredths (line_total it) + acc)%N) 0%N cart.

  (** The outcome is a return. *)
Definition is_returned {A : Type} (o : outcome A) : bool :=
  match o with
  | Returned _ _ => true
  | Raised _ _ => false
  end.

  (** Each action of the sequence is enabled in the state it meets, and its
      callback returns. *)
Fixpoint all_returned (l : list action) (s : App) : Prop :=
  match l with
  | [] => True
  | a :: l' =>
      enabled a s /\ is_returned (run a s) = true /\ all_returned l' (state_of (run a s))
  end.

  (** The session of [added_X_3] after the user has selected the only row of
      the cart view. *)
Definition row_selected : App := session [SelectRows [0%nat]] added_X_3.

  (** A catalog with one product at 5 * 10^25, and the session in which it has
      been added once: a second add makes a line total of 29 digits. *)
Definition catalog_big : FS :=
  {| products_csv := Some [["code"; "name"; "price"];
                           ["B"; "Bullion"; "50000000000000000000000000"]];
     invoices_dir := None;
     elsewhere := ∅ |}.

Definition big_added : App :=
  session [SelectProduct [0%nat]; AddSelectedProduct]
          (state_of (init (blank catalog_big))).

  (** The session on the catalog with X after the user has selected the only
      line of the product list. *)
Definition X_selected : App :=
  session [SelectProduct [0%nat]] (state_of (init (blank catalog_X))).


  (** The session of [added_X_3] after the user has typed inf into the rate
      field. *)
Definition rate_inf : App := session [TypeGst "inf"] added_X_3.

  (** The time stamp of the example invoices. *)
Definition example_now : string := "2026-11-03 10:00:00".

End Props.

(** ** Invoice numbering *)
Section numbering.
  Import PyStr Dec Billing Spec.

Lemma py_max_ge (l : list Z) (x : Z) :
  x <= py_max x l /\ forall y, y ∈ l -> y <= py_max x l.
Proof.
  unfold py_max. revert x. induction l as [|a l IH]; intros x; simpl.
  - split; [lia|]. intros y Hy. inversion Hy.
  - destruct (IH (Z.max x a)) as [H1 H2]. split; [lia|].
    intros y Hy. apply elem_of_cons in Hy as [->|Hy]; [lia|auto].
Qed.

Lemma py_max_in (l : list Z) (x : Z) : py_max x l = x \/ py_max x l ∈ l.
Proof.
  unfold py_max. revert x. induction l as [|a l IH]; intros x; simpl; [by left|].
  destruct (IH (Z.max x a)) as [H|H].
  - rewrite H. destruct (Z.max_spec x a) as [[_ ->]|[_ ->]]; [right; left|by left].
  - right. by right.
Qed.

  (** The maximum of [nums + [0]]: an upper bound of the numbers and of 0 that
      is one of them. *)
Lemma max_with_zero (nums : list Z) :
  let m := match nums ++ [0] with [] => 0 | x :: l => py_max x l end in
  0 <= m /\ (forall i, i ∈ nums -> i <= m) /\ (m = 0 \/ m ∈ nums).
Proof.
  destruct nums as [|x l]; simpl.
  - unfold py_max; simpl. split; [lia|]. split; [|by left].
    intros i Hi. inversion Hi.
  - destruct (py_max_ge (l ++ [0]) x) as [Hx Hl].
    split; [apply Hl; set_solver|].
    split.
    + intros i Hi. apply elem_of_cons in Hi as [->|Hi]; [done|].
      apply Hl. set_solver.
    + destruct (py_max_in (l ++ [0]) x) as [->|Hin]; [right; left|].
      apply elem_of_app in Hin as [Hin|Hin]; [right; by right|].
      left. apply list_elem_of_singleton in Hin. done.
Qed.

Lemma listdir_ensure (files : FS) : listdir (ensure_invoices_dir files) = listdir files.
Proof.
  unfold ensure_invoices_dir, listdir.
  destruct (invoices_dir files) eqn:E; simpl; [by rewrite E|].
  by rewrite map_to_list_empty.
Qed.

Lemma elem_of_listdir (files : FS) (fname : string) :
  fname ∈ listdir files <->
  exists d, invoices_dir files = Some d /\ is_Some (d !! fname).
Proof.
  unfold listdir. destruct (invoices_dir files) as [d|].
  - rewrite list_elem_of_fmap. split.
    + intros [[k v] [-> Hkv]]. apply elem_of_map_to_list in Hkv. eauto.
    + intros [d' [[= <-] [v Hv]]]. exists (fname, v). split; [done|].
      by apply elem_of_map_to_list.
  - split; [intros H; inversion H|]. by intros [d [? _]].
Qed.

Lemma elem_of_scan (fnames : list string) (i : Z) :
  i ∈ scan fnames <->
  exists fname, fname ∈ fnames /\ startswith "invoice_" fname = true /\
                endswith ".csv" fname = true /\ embedded_number fname = Some i.
Proof.
  induction fnames as [|f l IH]; simpl.
  - split; [intros H; inversion H|]. intros [f [Hf _]]. inversion Hf.
  - transitivity
      ((startswith "invoice_" f = true /\ endswith ".csv" f = true /\
        embedded_number f = Some i) \/ i ∈ scan l).
    + destruct (startswith "invoice_" f); simpl; [|intuition discriminate].
      destruct (endswith ".csv" f); simpl; [|intuition discriminate].
      destruct (embedded_number f) as [n|]; [|intuition discriminate].
      rewrite elem_of_cons. split.
      * intros [->|H]; [left|right]; auto.
      * intros [(_ & _ & [= ->])|H]; [left|right]; auto.
    + rewrite IH. split.
      * intros [H|(f' & Hf' & H)]; [exists f|exists f']; split; auto;
          [left|by right].
      * intros (f' & Hf' & H). apply elem_of_cons in Hf' as [->|Hf'];
          [left|right]; eauto.
Qed.

  (** The number returned depends only on which ids are found. *)
Lemma next_invoice_number_value (files : FS) :
  let n := (next_invoice_number files).1 in
  1 <= n /\ (forall i, i ∈ found_ids files -> i < n) /\
  (n = 1 \/ n - 1 ∈ found_ids files).
Proof.
  unfold next_invoice_number, found_ids; simpl. rewrite listdir_ensure.
  destruct (max_with_zero (scan (listdir files))) as (H0 & Hub & Hin).
  cbv zeta in *. repeat split.
  - lia.
  - intros i Hi. specialize (Hub i Hi). lia.
  - destruct Hin as [->|Hin]; [by left|right].
    by replace (_ + 1 - 1) with
      (match scan (listdir files) ++ [0] with [] => 0 | x :: l => py_max x l end) by lia.
Qed.

Lemma next_invoice_number_same_ids (f1 f2 : FS) :
  (forall i, i ∈ found_ids f1 <-> i ∈ found_ids f2) ->
  (next_invoice_number f1).1 = (next_invoice_number f2).1.
Proof.
  intros Hids.
  destruct (next_invoice_number_value f1) as (Ha1 & Hb1 & Hc1).
  destruct (next_invoice_number_value f2) as (Ha2 & Hb2 & Hc2).
  cbv zeta in *.
  destruct Hc1 as [E1|I1], Hc2 as [E2|I2].
  - congruence.
  - apply Hids, Hb1 in I2. lia.
  - apply Hids, Hb2 in I1. lia.
  - apply Hids, Hb2 in I1. apply Hids, Hb1 in I2. lia.
Qed.

End numbering.

Section numbering_claims.
  Import PyStr Dec Billing Spec.

Lemma py_max_floor (x : Z) (l : list Z) :
  (exists i, i ∈ x :: l /\ 0 <= i) -> py_max x (l ++ [0]) = py_max x l.
Proof.
  intros (i & Hi & H0). unfold py_max. rewrite foldl_app. simpl.
  destruct (py_max_ge l x) as [Hx Hl]. unfold py_max in *.
  apply elem_of_cons in Hi as [->|Hi]; [lia|]. specialize (Hl i Hi). lia.
Qed.

Lemma found_ids_insert_unparsed (files : FS) (d : gmap string FileData)
    (fname : string) (data : FileData) (i : Z) :
  invoices_dir files = Some d ->
  embedded_number fname = None ->
  i ∈ found_ids (with_invoices (Some (<[fname := data]> d)) files) <-> i ∈ found_ids files.
Proof.
  intros Hd Hnone. unfold found_ids. rewrite !elem_of_scan.
  split; intros (f & Hf & Hs & He & Hi); exists f; (split; [|done]);
    apply elem_of_listdir in Hf as (d' & Hd' & Hsome); apply elem_of_listdir.
  - simpl in Hd'. injection Hd' as <-. exists d. split; [done|].
    rewrite lookup_insert_ne in Hsome; [done|]. intros ->. congruence.
  - exists (<[fname := data]> d). split; [done|].
    rewrite lookup_insert_ne; [congruence|]. intros ->. congruence.
Qed.

(** C6 (as amended): [next_invoice_number] returns one more than the largest
    of 0 and the ids found, the ids being those of the names of the store that
    carry the invoice prefix and suffix and whose token converts to an
    integer.  So it is [max(ids) + 1] as soon as one id is not negative, and 1
    when no id is found; on an empty or absent store it is 1, and an absent
    store is created empty; a name whose token does not convert changes
    nothing; with files 1, 2 and 5 the result is 6. *)
Theorem next_invoice_number_max_floor_plus_one (files : FS) :
  let n := (next_invoice_number files).1 in
  let ids := found_ids files in
  ((forall i, i ∈ ids -> i <= n - 1) /\ 0 <= n - 1 /\ (n - 1 = 0 \/ n - 1 ∈ ids)) /\
  ((ids = [] \/ exists i, i ∈ ids /\ 0 <= i) -> n = max_plus_one ids) /\
  (forall i, i ∈ ids <->
     exists fname d, invoices_dir files = Some d /\ is_Some (d !! fname) /\
       startswith "invoice_" fname = true /\ endswith ".csv" fname = true /\
       embedded_number fname = Some i) /\
  (invoices_dir files = None \/ invoices_dir files = Some ∅ -> n = 1) /\
  invoices_dir (next_invoice_number files).2 = Some (default ∅ (invoices_dir files)) /\
  (forall d fname data,
     invoices_dir files = Some d -> embedded_number fname = None ->
     (next_invoice_number (with_invoices (Some (<[fname := data]> d)) files)).1 = n) /\
  (next_invoice_number store_1_2_5).1 = 6.
Proof.
  cbv zeta.
  destruct (next_invoice_number_value files) as (H1 & Hub & Hin). cbv zeta in *.
  split_and!.
  - intros i Hi. specialize (Hub i Hi). lia.
  - lia.
  - destruct Hin as [->|Hin]; [by left|by right].
  - intros Hids. unfold next_invoice_number, found_ids in *. simpl.
    rewrite listdir_ensure. destruct (scan (listdir files)) as [|x l] eqn:E.
    + reflexivity.
    + destruct Hids as [Hnil|Hex]; [discriminate|].
      simpl. by rewrite py_max_floor.
  - intros i. unfold found_ids. rewrite elem_of_scan. split.
    + intros (f & Hf & H). apply elem_of_listdir in Hf as (d & Hd & Hsome).
      exists f, d. tauto.
    + intros (f & d & Hd & Hsome & H).
      exists f. split; [|done]. apply elem_of_listdir. eauto.
  - intros Hempty. unfold next_invoice_number. simpl. rewrite listdir_ensure.
    unfold listdir. destruct Hempty as [-> | ->]; [done|].
    by rewrite map_to_list_empty.
  - unfold next_invoice_number, ensure_invoices_dir. simpl.
    destruct (invoices_dir files) eqn:E; simpl; [by rewrite E|done].
  - intros d fname data Hd Hnone. apply next_invoice_number_same_ids.
    intros i. by apply found_ids_insert_unparsed.
  - vm_compute. reflexivity.
Qed.

Lemma next_invoice_number_max_floor_plus_one_witness :
  (next_invoice_number store_1_2_5).1 = max_plus_one (found_ids store_1_2_5).
Proof.
  destruct (next_invoice_number_max_floor_plus_one store_1_2_5) as (_ & H & _).
  apply H. right. exists 5. split; [|lia].
  replace (found_ids store_1_2_5) with [5; 1; 2] by (vm_compute; reflexivity).
  left.
Defined.

(** C6, as first stated, fails where every id found is negative: the only id
    of this store is -3, its maximum plus one is -2, and the function returns
    1. *)
Lemma next_invoice_number_not_max_plus_one :
  found_ids store_negative = [-3] /\
  (next_invoice_number store_negative).1 = 1 /\
  (next_invoice_number store_negative).1 <> max_plus_one (found_ids store_negative).
Proof. vm_compute. repeat split; discriminate. Qed.

(** C10: whatever the store holds, names with a zero or negative number
    included, [next_invoice_number] returns an integer that is at least 1,
    the maximum being taken over the numbers found and 0. *)
Theorem next_invoice_number_at_least_1 (files : FS) :
  1 <= (next_invoice_number files).1 /\
  (next_invoice_number store_negative).1 = 1.
Proof.
  split; [apply next_invoice_number_value|vm_compute; reflexivity].
Qed.

End numbering_claims.

(** ** Catalog loading *)
Section catalog.
  Import PyStr Dec Billing Spec.







End catalog.

(** ** The monad: how methods compose *)
Section monad.
  Import PyStr Dec Billing Spec.

Lemma bind_returned {A B : Type} (m : M A) (f : A -> M B) (s s' : App) (b : B) :
  (m ≫= f) s = Returned b s' ->
  exists a s1, m s = Returned a s1 /\ f a s1 = Returned b s'.
Proof.
  unfold mbind, M_bind. destruct (m s) as [a s1|e s1]; [eauto|discriminate].
Qed.

Lemma keeps_bind (P : App -> Prop) {A B : Type} (m : M A) (f : A -> M B) :
  keeps P m -> (forall a, keeps P (f a)) -> keeps P (m ≫= f).
Proof.
  intros Hm Hf s Hs. specialize (Hm s Hs). unfold mbind, M_bind.
  destruct (m s) as [a s1|e s1]; simpl in *; [by apply Hf|done].
Qed.

Lemma keeps_ret (P : App -> Prop) {A : Type} (a : A) : keeps P (mret a).
Proof. by intros s Hs. Qed.

Lemma keeps_gets (P : App -> Prop) {A : Type} (f : App -> A) : keeps P (gets f).
Proof. by intros s Hs. Qed.

Lemma keeps_raise (P : App -> Prop) {A : Type} (e : exn) : keeps P (raise (A := A) e).
Proof. by intros s Hs. Qed.

Lemma keeps_lift (P : App -> Prop) {A : Type} (r : res A) : keeps P (lift r).
Proof. destruct r; [apply keeps_ret|apply keeps_raise]. Qed.

Lemma keeps_modify (P : App -> Prop) (f : App -> App) :
  (forall s, P s -> P (f s)) -> keeps P (modify f).
Proof. intros Hf s Hs. by apply Hf. Qed.

Lemma keeps_for_each (P : App -> Prop) {A : Type} (l : list A) (body : A -> M unit) :
  (forall x, keeps P (body x)) -> keeps P (for_each l body).
Proof.
  intros Hb. induction l as [|x l IH]; simpl; [apply keeps_ret|].
  apply keeps_bind; [apply Hb|by intros _].
Qed.

Lemma keeps_try_except (P : App -> Prop) {A : Type} (m : M A) (h : exn -> M A) :
  keeps P m -> (forall e, keeps P (h e)) -> keeps P (try_except m h).
Proof.
  intros Hm Hh s Hs. specialize (Hm s Hs). unfold try_except.
  destruct (m s) as [a s1|e s1]; simpl in *; [done|by apply Hh].
Qed.

End monad.

(** ** Proof automation *)

  (** Goals [keeps P m] for a method [m] that touches the cart, the totals or
      the file system only through [modify]. *)
Ltac keeps_step :=
  lazymatch goal with
  | |- Spec.keeps _ (_ ≫= _) => apply keeps_bind; [|intros]
  | |- Spec.keeps _ (mret _) => apply keeps_ret
  | |- Spec.keeps _ (Billing.gets _) => apply keeps_gets
  | |- Spec.keeps _ (Billing.raise _) => apply keeps_raise
  | |- Spec.keeps _ (Billing.lift _) => apply keeps_lift
  | |- Spec.keeps _ (Billing.for_each _ _) => apply keeps_for_each; intros
  | |- Spec.keeps _ (Billing.try_except _ _) => apply keeps_try_except; [|intros]
  | |- Spec.keeps _ (Billing.modify _) => apply keeps_modify; intros ? ?; simpl; try assumption
  | |- Spec.keeps _ (Billing.messagebox _) =>
      unfold Billing.messagebox; apply keeps_modify; intros ? ?; simpl; try assumption
  | |- Spec.keeps _ (match ?x with _ => _ end) => destruct x
  | |- Spec.keeps _ (let '(_, _) := ?x in _) => destruct x
  end.

(** ** The cart and the callbacks *)
Section cart.
  Import PyStr Dec Billing Spec.

Lemma refresh_cart_keeps_cart (c0 : list CartItem) :
  keeps (fun s => cart s = c0) refresh_cart.
Proof. unfold refresh_cart. repeat keeps_step. Qed.

Lemma update_totals_keeps_cart (c0 : list CartItem) :
  keeps (fun s => cart s = c0) update_totals.
Proof. unfold update_totals, update_labels. repeat keeps_step. Qed.

Lemma refresh_product_list_keeps_cart (c0 : list CartItem) :
  keeps (fun s => cart s = c0) refresh_product_list.
Proof. unfold refresh_product_list. repeat keeps_step. Qed.

(** C8: with an empty cart, generating an invoice and exporting the cart both
    return after a warning to the user and change nothing else: the file
    system, and with it the next invoice number, the cart and the stored
    totals are as before. *)
Theorem empty_cart_rejected (s : App) (now path : string) :
  cart s = [] ->
  generate_invoice now s =
    Returned tt (set_log (log s ++ [showwarning "Empty cart"
                                      "Add items before generating an invoice."]) s) /\
  export_cart_csv path s =
    Returned tt (set_log (log s ++ [showwarning "Empty cart" "No items to export."]) s) /\
  (forall s', s' = state_of (generate_invoice now s) \/
              s' = state_of (export_cart_csv path s) ->
     fs s' = fs s /\ cart s' = cart s /\ totals s' = totals s /\
     (next_invoice_number (fs s')).1 = (next_invoice_number (fs s)).1).
Proof.
  intros Hcart.
  assert (Hg : generate_invoice now s =
    Returned tt (set_log (log s ++ [showwarning "Empty cart"
                                      "Add items before generating an invoice."]) s)).
  { unfold generate_invoice, mbind, M_bind, gets. by rewrite Hcart. }
  assert (He : export_cart_csv path s =
    Returned tt (set_log (log s ++ [showwarning "Empty cart" "No items to export."]) s)).
  { unfold export_cart_csv, mbind, M_bind, gets. by rewrite Hcart. }
  split; [done|]. split; [done|].
  intros s' [-> | ->]; [rewrite Hg|rewrite He]; done.
Qed.

Lemma empty_cart_rejected_witness :
  fs (state_of (generate_invoice "2026-11-03 10:00:00" started)) = fs started.
Proof.
  destruct (empty_cart_rejected started "2026-11-03 10:00:00" "cart.csv") as (_ & _ & H).
  - vm_compute. reflexivity.
  - apply (H (state_of (generate_invoice "2026-11-03 10:00:00" started))). by left.
Defined.

  (** What [add_selected_product] does once the code has been read off the
      selected line. *)
Lemma add_selected_product_unknown (s : App) (c : string) :
  selected_code s = Some c -> products s !! c = None ->
  add_selected_product s = Returned tt s.
Proof.
  unfold selected_code, add_selected_product, mbind, M_bind, gets.
  destruct (listbox_selection s) as [|idx sel]; [discriminate|].
  intros [= <-] Hnone. by rewrite Hnone.
Qed.

Lemma add_selected_product_bad_quantity (s : App) (c : string) (prod : Product) (q : Z) :
  selected_code s = Some c -> products s !! c = Some prod ->
  qty_var s = Some q -> q <= 0 ->
  add_selected_product s =
    Returned tt (set_log (log s ++ [showwarning "Quantity" "Enter quantity >= 1"]) s).
Proof.
  unfold selected_code, add_selected_product, mbind, M_bind, gets.
  destruct (listbox_selection s) as [|idx sel]; [discriminate|].
  intros [= <-] Hsome Hq Hle. rewrite Hsome, Hq. simpl.
  destruct (Z.leb_spec q 0); [done|lia].
Qed.

(** C5 (as amended): an add is rejected when the code read off the selected
    line is not in the catalog, and when the code is known and the quantity is
    not positive.  In both cases the cart is left unchanged.  The second case
    is reported to the user with a warning; in the first nothing is shown and
    the whole state is as before. *)
Theorem add_rejected_cart_unchanged (s : App) (c : string) :
  selected_code s = Some c ->
  (products s !! c = None ->
   add_selected_product s = Returned tt s) /\
  (forall prod q,
     products s !! c = Some prod -> qty_var s = Some q -> q <= 0 ->
     add_selected_product s =
       Returned tt (set_log (log s ++ [showwarning "Quantity" "Enter quantity >= 1"]) s)) /\
  ((products s !! c = None \/ exists q, qty_var s = Some q /\ q <= 0) ->
   cart (state_of (add_selected_product s)) = cart s).
Proof.
  intros Hc. split; [by apply add_selected_product_unknown|].
  split; [intros prod q; by apply add_selected_product_bad_quantity|].
  intros [Hnone|(q & Hq & Hle)].
  - by rewrite (add_selected_product_unknown s c).
  - destruct (products s !! c) as [prod|] eqn:Hp.
    + by rewrite (add_selected_product_bad_quantity s c prod q).
    + by rewrite (add_selected_product_unknown s c).
Qed.

Lemma add_rejected_cart_unchanged_witness :
  add_selected_product padded_selected = Returned tt padded_selected.
Proof.
  destruct (add_rejected_cart_unchanged padded_selected "A") as [H _].
  - vm_compute. reflexivity.
  - apply H. vm_compute. reflexivity.
Defined.

Lemma padded_selected_reachable : reachable padded_selected.
Proof.
  unfold padded_selected. apply reach_step.
  - apply (reach_init catalog_padded). vm_compute. reflexivity.
  - constructor; [|constructor]. vm_compute. lia.
Qed.

(** C5, as first stated, fails for an unknown code: in this session state the
    code read off the selected line is A, the catalog has no such code, and
    the add leaves the log of what the user was shown as it was. *)
Lemma add_unknown_code_not_reported :
  reachable padded_selected /\
  selected_code padded_selected = Some "A" /\
  products padded_selected !! "A" = None /\
  ~ rejected_and_reported padded_selected.
Proof.
  assert (Hc : selected_code padded_selected = Some "A") by (vm_compute; reflexivity).
  assert (Hp : products padded_selected !! "A" = None) by (vm_compute; reflexivity).
  split; [apply padded_selected_reachable|]. split; [done|]. split; [done|].
  generalize dependent padded_selected. intros s Hc Hp [_ [e He]].
  rewrite (add_selected_product_unknown s "A" Hc Hp) in He.
  apply (f_equal length) in He. rewrite length_app in He.
  simpl in He. lia.
Qed.

End cart.

(** ** One cart line per product code *)
Section cart_invariant.
  Import PyStr Dec Billing Spec.

Lemma increment_line_codes (c : string) (q : Z) (cart : list CartItem) :
  codes (fst (increment_line c q cart)) = codes cart.
Proof.
  induction cart as [|item rest IH]; simpl; [done|].
  destruct (String.eqb (code item) c).
  - destruct (mbind _ _); reflexivity.
  - destruct (increment_line c q rest) as [rest' r]. simpl in *. by rewrite IH.
Qed.

Lemma increment_line_not_found (c : string) (q : Z) (cart : list CartItem) :
  snd (increment_line c q cart) = Ok false ->
  (c ∉ codes cart) /\ fst (increment_line c q cart) = cart.
Proof.
  induction cart as [|item rest IH]; simpl.
  - intros _. split; [apply not_elem_of_nil|done].
  - destruct (String.eqb_spec (code item) c) as [Heq|Hne].
    + destruct (mbind _ _); discriminate.
    + destruct (increment_line c q rest) as [rest' r]. simpl in *.
      intros Hr. destruct (IH Hr) as [Hnot ->]. split; [|done].
      rewrite not_elem_of_cons. split; [congruence|done].
Qed.

Lemma increment_line_found (c : string) (q : Z) (l1 l2 : list CartItem) (it : CartItem) :
  code it = c -> c ∉ codes l1 ->
  increment_line c q (l1 ++ it :: l2) =
  match (p ← mul (price it) (of_int (qty it + q)); round_half_up_2 p) with
  | Ok t => (l1 ++ {| code := code it; name := name it; price := price it;
                      qty := qty it + q; line_total := t |} :: l2, Ok true)
  | Raise e => (l1 ++ {| code := code it; name := name it; price := price it;
                         qty := qty it + q; line_total := line_total it |} :: l2, Raise e)
  end.
Proof.
  intros Hit. induction l1 as [|x l1 IH]; simpl; intros Hnot.
  - rewrite Hit, String.eqb_refl. unfold round_half_up_2.
    by destruct (mbind _ _).
  - apply not_elem_of_cons in Hnot as [Hx Hl1].
    destruct (String.eqb_spec (code x) c) as [Heq|Hne]; [congruence|].
    rewrite IH by done. by destruct (mbind _ _).
Qed.

Lemma elem_of_codes_remove_first (c x : string) (cart : list CartItem) :
  x ∈ codes (remove_first c cart) -> x ∈ codes cart.
Proof.
  induction cart as [|it rest IH]; simpl; [done|].
  destruct (String.eqb (code it) c); simpl.
  - intros H. by right.
  - rewrite !elem_of_cons. intros [->|H]; [by left|right; auto].
Qed.

Lemma NoDup_codes_remove_first (c : string) (cart : list CartItem) :
  NoDup (codes cart) -> NoDup (codes (remove_first c cart)).
Proof.
  induction cart as [|it rest IH]; simpl; [done|].
  intros Hnd. apply NoDup_cons in Hnd as [Hnot Hnd].
  destruct (String.eqb (code it) c); simpl; [done|].
  apply NoDup_cons. split; [|auto].
  intros Hin. apply Hnot. by apply elem_of_codes_remove_first in Hin.
Qed.

Lemma keeps_cart_any (Q : list CartItem -> Prop) {A : Type} (m : M A) :
  (forall c0, keeps (fun s => cart s = c0) m) -> keeps (fun s => Q (cart s)) m.
Proof. intros Hm s Hs. by rewrite (Hm (cart s) s eq_refl). Qed.

Lemma refresh_update_keeps (P : list CartItem -> Prop) :
  keeps (fun s => P (cart s)) (refresh_cart ;; update_totals).
Proof.
  apply keeps_bind; [|intros _]; apply keeps_cart_any; intros c0.
  - apply refresh_cart_keeps_cart.
  - apply update_totals_keeps_cart.
Qed.

Lemma add_selected_product_one_per_code : keeps one_per_code add_selected_product.
Proof.
  unfold add_selected_product.
  apply keeps_bind; [apply keeps_gets|intros sel].
  destruct sel as [|idx sel]; [unfold one_per_code; keeps_step|].
  apply keeps_bind; [apply keeps_gets|intros lines].
  apply keeps_bind; [apply keeps_gets|intros products].
  destruct (products !! _) as [prod|]; [|apply keeps_ret].
  apply keeps_bind; [apply keeps_gets|intros v].
  apply keeps_bind; [destruct v; [apply keeps_ret|apply keeps_raise]|intros q].
  destruct (q <=? 0); [unfold one_per_code; keeps_step|].
  apply keeps_bind; [apply keeps_lift|intros lt].
  set (c := strip _).
  intros s Hs. unfold mbind at 1, M_bind at 1, gets at 1.
  destruct (increment_line c q (cart s)) as [cart' r] eqn:Hinc.
  pose proof (increment_line_codes c q (cart s)) as Hcodes.
  rewrite Hinc in Hcodes. simpl in Hcodes.
  unfold mbind at 1, M_bind at 1, modify at 1.
  assert (Hs1 : one_per_code (set_cart cart' s)).
  { unfold one_per_code. simpl. by rewrite Hcodes. }
  destruct r as [found|e]; simpl; [|done].
  destruct found.
  - simpl. by apply (refresh_update_keeps (fun c => NoDup (codes c))).
  - unfold mbind at 1, M_bind at 1, modify at 1.
    apply (refresh_update_keeps (fun c => NoDup (codes c))). simpl.
    pose proof (increment_line_not_found c q (cart s)) as Hnf.
    rewrite Hinc in Hnf. simpl in Hnf. destruct (Hnf eq_refl) as [Hnot ->].
    unfold codes. rewrite fmap_app. simpl. apply NoDup_app. split; [done|].
    split; [|apply NoDup_singleton].
    intros x Hx Hx'. apply list_elem_of_singleton in Hx'. by subst.
Qed.

Lemma remove_selected_one_per_code : keeps one_per_code remove_selected.
Proof.
  unfold remove_selected.
  apply keeps_bind; [apply keeps_gets|intros sel].
  destruct sel as [|i sel]; [apply keeps_ret|].
  apply keeps_bind; [|intros _; apply (refresh_update_keeps (fun c => NoDup (codes c)))].
  apply keeps_for_each. intros j.
  apply keeps_bind; [apply keeps_gets|intros rows].
  apply keeps_modify. intros s Hs. unfold one_per_code. simpl.
  by apply NoDup_codes_remove_first.
Qed.

Lemma save_invoice_csv_keeps_cart (n : Z) (d : InvoiceData) (c0 : list CartItem) :
  keeps (fun s => cart s = c0) (save_invoice_csv n d).
Proof.
  unfold save_invoice_csv, invoice_writerow, write_invoice_file. repeat keeps_step.
Qed.

Lemma save_invoice_html_keeps_cart (n : Z) (d : InvoiceData) (c0 : list CartItem) :
  keeps (fun s => cart s = c0) (save_invoice_html n d).
Proof. unfold save_invoice_html, write_invoice_file. repeat keeps_step. Qed.

Lemma export_cart_csv_keeps_cart (path : string) (c0 : list CartItem) :
  keeps (fun s => cart s = c0) (export_cart_csv path).
Proof. unfold export_cart_csv. repeat keeps_step. Qed.

Lemma open_invoices_folder_keeps_cart (c0 : list CartItem) :
  keeps (fun s => cart s = c0) open_invoices_folder.
Proof. unfold open_invoices_folder. repeat keeps_step. Qed.

Lemma load_products_csv_keeps_cart (path : string) (c0 : list CartItem) :
  keeps (fun s => cart s = c0) (load_products_csv path).
Proof.
  unfold load_products_csv. destruct path; [apply keeps_ret|].
  repeat first [apply refresh_product_list_keeps_cart | keeps_step].
Qed.

Lemma generate_invoice_one_per_code (now : string) :
  keeps one_per_code (generate_invoice now).
Proof.
  unfold generate_invoice, one_per_code.
  apply keeps_bind; [apply keeps_gets|intros cart0].
  destruct cart0 as [|it rest]; [keeps_step|].
  repeat first
    [ apply (keeps_cart_any (fun c => NoDup (codes c))); intros;
      first [apply save_invoice_csv_keeps_cart | apply save_invoice_html_keeps_cart]
    | apply (refresh_update_keeps (fun c => NoDup (codes c)))
    | keeps_step
    | apply NoDup_nil_2 ].
Qed.

Lemma run_one_per_code (a : action) : keeps one_per_code (run a).
Proof.
  destruct a; simpl.
  1-5: by apply keeps_modify.
  - apply add_selected_product_one_per_code.
  - apply remove_selected_one_per_code.
  - unfold clear_cart. apply keeps_bind; [unfold one_per_code; keeps_step|intros _].
    destruct answer; [|apply keeps_ret].
    apply keeps_bind; [|intros _; apply (refresh_update_keeps (fun c => NoDup (codes c)))].
    apply keeps_modify. intros s _. apply NoDup_nil_2.
  - apply generate_invoice_one_per_code.
  - by apply (keeps_cart_any (fun c => NoDup (codes c))), export_cart_csv_keeps_cart.
  - by apply (keeps_cart_any (fun c => NoDup (codes c))), open_invoices_folder_keeps_cart.
  - by apply (keeps_cart_any (fun c => NoDup (codes c))), load_products_csv_keeps_cart.
Qed.

Lemma init_cart (files : FS) (s : App) :
  init (blank files) = Returned tt s -> cart s = [].
Proof.
  unfold init. intros H.
  apply bind_returned in H as (f & s1 & H1 & H).
  apply bind_returned in H as ([] & s2 & H2 & H).
  apply bind_returned in H as (p & s3 & H3 & H).
  apply bind_returned in H as ([] & s4 & H4 & H).
  apply bind_returned in H as ([] & s5 & H5 & H).
  apply bind_returned in H as ([] & s6 & H6 & H).
  apply bind_returned in H as ([] & s7 & H7 & H).
  apply bind_returned in H as ([] & s8 & H8 & H).
  assert (Hc5 : cart s5 = []) by (by injection H5 as <-).
  assert (Hc6 : cart s6 = []).
  { injection H6 as <-. done. }
  assert (Hc7 : cart s7 = []).
  { assert (K : keeps (fun s => cart s = []) create_ui)
      by (unfold create_ui; repeat keeps_step).
    specialize (K s6 Hc6). by rewrite H7 in K. }
  assert (Hc8 : cart s8 = []).
  { pose proof (refresh_product_list_keeps_cart [] s7 Hc7) as K. by rewrite H8 in K. }
  pose proof (update_totals_keeps_cart [] s8 Hc8) as K. by rewrite H in K.
Qed.

Lemma reachable_one_per_code (s : App) : reachable s -> one_per_code s.
Proof.
  induction 1 as [files s Hinit|a s Hreach IH Hen].
  - unfold one_per_code. rewrite (init_cart files s Hinit). apply NoDup_nil_2.
  - by apply run_one_per_code.
Qed.


Lemma lift_returned {A : Type} (r : res A) (a : A) (s s1 : App) :
  lift r s = Returned a s1 -> r = Ok a /\ s1 = s.
Proof. destruct r; simpl; [by intros [= -> ->]|discriminate]. Qed.

Lemma returned_keeps_cart {A : Type} (m : M A) (s s' : App) (a : A) :
  (forall c0, keeps (fun s => cart s = c0) m) ->
  m s = Returned a s' -> cart s' = cart s.
Proof. intros K H. specialize (K (cart s) s eq_refl). by rewrite H in K. Qed.

Lemma refresh_update_returned (s s' : App) :
  (refresh_cart ;; update_totals) s = Returned tt s' -> cart s' = cart s.
Proof.
  apply returned_keeps_cart. intros c0.
  apply keeps_bind; [apply refresh_cart_keeps_cart|intros _; apply update_totals_keeps_cart].
Qed.

Lemma add_selected_product_present (s s' : App) (c : string) (prod : Product) (q : Z)
    (l1 l2 : list CartItem) (it : CartItem) :
  selected_code s = Some c -> products s !! c = Some prod ->
  qty_var s = Some q -> 0 < q ->
  cart s = l1 ++ it :: l2 -> code it = c -> c ∉ codes l1 ->
  add_selected_product s = Returned tt s' ->
  exists t,
    (p ← mul (price it) (of_int (qty it + q)); round_half_up_2 p) = Ok t /\
    cart s' = l1 ++ {| code := code it; name := name it; price := price it;
                       qty := qty it + q; line_total := t |} :: l2.
Proof.
  unfold selected_code, add_selected_product.
  unfold mbind at 1 2 3 4 5, M_bind at 1 2 3 4 5, gets at 1 2 3 4.
  destruct (listbox_selection s) as [|idx sel]; [discriminate|].
  intros [= <-] Hprod Hq Hpos Hcart Hit Hnot. rewrite Hprod, Hq. simpl.
  destruct (Z.leb_spec q 0) as [Hle|_]; [lia|].
  intros H. apply bind_returned in H as (lt & s1 & H1 & H).
  apply lift_returned in H1 as [_ ->].
  unfold mbind at 1, M_bind at 1, gets at 1 in H.
  rewrite Hcart, increment_line_found in H by done.
  destruct (mbind _ _) as [t|e] eqn:Ht.
  - exists t. split; [done|].
    unfold mbind at 1 2, M_bind at 1 2, modify at 1 in H. simpl in H.
    by apply refresh_update_returned in H.
  - unfold mbind at 1 2, M_bind at 1 2, modify at 1 in H. simpl in H. discriminate.
Qed.

Lemma add_selected_product_absent (s s' : App) (c : string) (prod : Product) (q : Z) :
  selected_code s = Some c -> products s !! c = Some prod ->
  qty_var s = Some q -> 0 < q ->
  c ∉ codes (cart s) ->
  add_selected_product s = Returned tt s' ->
  exists t,
    (p ← mul (prod_price prod) (of_int q); round_half_up_2 p) = Ok t /\
    cart s' = cart s ++ [{| code := c; name := prod_name prod; price := prod_price prod;
                            qty := q; line_total := t |}].
Proof.
  unfold selected_code, add_selected_product.
  unfold mbind at 1 2 3 4 5, M_bind at 1 2 3 4 5, gets at 1 2 3 4.
  destruct (listbox_selection s) as [|idx sel]; [discriminate|].
  intros [= <-] Hprod Hq Hpos Hnot. rewrite Hprod, Hq. simpl.
  destruct (Z.leb_spec q 0) as [Hle|_]; [lia|].
  intros H. apply bind_returned in H as (lt & s1 & H1 & H).
  apply lift_returned in H1 as [Hlt ->].
  exists lt. split; [done|].
  unfold mbind at 1, M_bind at 1, gets at 1 in H.
  set (c := strip _) in *.
  destruct (increment_line c q (cart s)) as [cart' r] eqn:Hinc.
  unfold mbind at 1 2, M_bind at 1 2, modify at 1 in H.
  destruct r as [found|e]; simpl in H; [|discriminate].
  destruct found.
  { exfalso. clear H. revert cart' Hinc. induction (cart s) as [|x l IH]; simpl.
    - discriminate.
    - apply not_elem_of_cons in Hnot as [Hx Hl].
      destruct (String.eqb_spec (code x) c) as [Heq|Hne]; [congruence|].
      destruct (increment_line c q l) as [l' r']. intros cart' [= _ ->].
      by apply (IH Hl l'). }
  pose proof (increment_line_not_found c q (cart s)) as Hnf.
  rewrite Hinc in Hnf. simpl in Hnf. destruct (Hnf eq_refl) as [_ ->].
  unfold mbind at 1, M_bind at 1, modify at 1 in H.
  by apply refresh_update_returned in H.
Qed.


Lemma session_reachable (l : list action) (s : App) :
  reachable s -> all_enabled l s -> reachable (session l s).
Proof.
  unfold session. revert s. induction l as [|a l IH]; intros s Hs Hl; simpl; [done|].
  destruct Hl as [Ha Hl]. apply IH; [by apply reach_step|done].
Qed.



End cart_invariant.

(** ** Totals *)
Section totals.
  Import PyStr Dec Billing Spec.




Lemma run_bind_gets {A B : Type} (f : App -> A) (k : A -> M B) (s : App) :
  (gets f ≫= k) s = k (f s) s.
Proof. reflexivity. Qed.

Lemma run_bind_lift {A B : Type} (r : res A) (k : A -> M B) (s : App) :
  (lift r ≫= k) s = match r with Ok a => k a s | Raise e => Raised e s end.
Proof. by destruct r. Qed.

Lemma run_bind_modify {B : Type} (g : App -> App) (k : unit -> M B) (s : App) :
  (modify g ≫= k) s = k tt (g s).
Proof. reflexivity. Qed.

Lemma run_bind_ret {A B : Type} (a : A) (k : A -> M B) (s : App) :
  (mret a ≫= k) s = k a s.
Proof. reflexivity. Qed.

Lemma run_parse_rate {B : Type} (k : Decimal -> M B) (s : App) :
  (try_except (text ← gets gst_var; lift (of_string text))
     (fun _ => modify (set_gst_var (to_str GST_DEFAULT)) ;; mret GST_DEFAULT) ≫= k) s =
  k (parsed_rate (gst_var s)) (rate_fallback s).
Proof.
  unfold parsed_rate, rate_fallback, try_except, mbind, M_bind, gets.
  by destruct (of_string (gst_var s)).
Qed.

  (** What [update_totals] does, in terms of the Totals the invariants
      determine. *)
Lemma update_totals_computes (s : App) :
  match compute_totals (cart s) (parsed_rate (gst_var s)) with
  | Ok t => update_totals s = update_labels t (set_totals (Some t) (rate_fallback s))
  | Raise e => update_totals s = Raised e s \/ update_totals s = Raised e (rate_fallback s)
  end.
Proof.
  unfold update_totals, compute_totals, round_half_up_2.
  rewrite run_bind_gets, run_bind_lift.
  destruct (sum_line_totals (cart s)) as [st|e]; simpl; [|by left].
  rewrite run_parse_rate, run_bind_lift.
  change (Finite false 100 0) with (of_int 100).
  destruct (mul st (parsed_rate (gst_var s)) ≫= _) as [gt|e]; simpl; [|by right].
  rewrite run_bind_lift.
  destruct (div gt (of_int 2) ≫= _) as [cg|e]; simpl; [|by right].
  rewrite run_bind_lift.
  destruct (sub gt cg) as [sg|e]; simpl; [|by right].
  rewrite run_bind_lift.
  destruct (add st gt ≫= _) as [gr|e]; simpl; [|by right].
  by rewrite run_bind_modify.
Qed.







End totals.

(** ** Digits and powers of ten *)
Section digits.
  Import PyStr Dec Billing Spec.

Lemma log2_div10_lt (n : N) : (10 <= n)%N -> (N.log2 (n / 10) < N.log2 n)%N.
Proof.
  intros Hn.
  assert (H0 : (0 < n / 10)%N).
  { apply N.div_str_pos. lia. }
  apply N.log2_lt_pow2; [done|].
  assert (Hlt : (n < 2 ^ N.succ (N.log2 n))%N) by (apply N.log2_spec; lia).
  rewrite N.pow_succ_r' in Hlt.
  assert (n / 10 <= n / 2)%N by (apply N.div_le_compat_l; lia).
  assert (n / 2 < 2 ^ N.log2 n)%N by (apply N.Div0.div_lt_upper_bound; lia).
  lia.
Qed.

Lemma digits_fuel_enough (f1 f2 : nat) (n : N) :
  (N.to_nat (N.log2 n) < f1)%nat -> (N.to_nat (N.log2 n) < f2)%nat ->
  digits_fuel f1 n = digits_fuel f2 n.
Proof.
  revert f2 n. induction f1 as [|f1 IH]; intros f2 n H1 H2; [lia|].
  destruct f2 as [|f2]; [lia|]. simpl.
  destruct (N.ltb_spec n 10) as [Hlt|Hge]; [done|].
  pose proof (log2_div10_lt n Hge).
  rewrite (IH f2); [done|lia|lia].
Qed.

Lemma digits_unfold (n : N) :
  digits n = if (n <? 10)%N then [digit_char n]
             else digits (n / 10) ++ [digit_char (n mod 10)].
Proof.
  unfold digits at 1. simpl.
  destruct (N.ltb_spec n 10) as [Hlt|Hge]; [done|].
  pose proof (log2_div10_lt n Hge).
  f_equal. apply digits_fuel_enough; lia.
Qed.

Lemma ndigits_unfold (n : N) :
  ndigits n = if (n <? 10)%N then 1 else ndigits (n / 10) + 1.
Proof.
  unfold ndigits. rewrite digits_unfold.
  destruct (n <? 10)%N; [done|]. rewrite length_app. simpl. lia.
Qed.

Lemma ndigits_pos (n : N) : 1 <= ndigits n.
Proof.
  rewrite ndigits_unfold. destruct (n <? 10)%N; [lia|].
  unfold ndigits. lia.
Qed.

Lemma pow10_pos (k : Z) : (0 < pow10 k)%N.
Proof. unfold pow10. apply N.neq_0_lt_0, N.pow_nonzero. lia. Qed.

Lemma pow10_succ (k : Z) : 0 <= k -> pow10 (k + 1) = (10 * pow10 k)%N.
Proof.
  intros Hk. unfold pow10. rewrite Z2N.inj_add by lia.
  rewrite N.add_1_r, N.pow_succ_r'. done.
Qed.

Lemma pow10_0 : pow10 0 = 1%N.
Proof. reflexivity. Qed.

Lemma pow10_neg (k : Z) : k <= 0 -> pow10 k = 1%N.
Proof. intros Hk. unfold pow10. replace (Z.to_N k) with 0%N by lia. done. Qed.

  (** A number with [k] digits lies between 10^(k-1) and 10^k. *)
Lemma ndigits_bounds (n : N) :
  (n < pow10 (ndigits n))%N /\ (n <> 0%N -> pow10 (ndigits n - 1) <= n)%N.
Proof.
  induction n as [n IH] using (well_founded_induction N.lt_wf_0).
  rewrite ndigits_unfold. destruct (N.ltb_spec n 10) as [Hlt|Hge].
  - change (pow10 1) with 10%N. change (pow10 (1 - 1)) with 1%N. lia.
  - assert (Hd : (n / 10 < n)%N) by (apply N.div_lt; lia).
    destruct (IH _ Hd) as [Hub Hlb].
    pose proof (ndigits_pos (n / 10)) as Hp.
    rewrite pow10_succ by lia.
    replace (ndigits (n / 10) + 1 - 1) with ((ndigits (n / 10) - 1) + 1) by lia.
    rewrite pow10_succ by lia.
    assert (Hnz : (n / 10 <> 0)%N).
    { intros E. apply N.div_small_iff in E; lia. }
    specialize (Hlb Hnz).
    pose proof (N.Div0.div_mod n 10) as Hdm.
    pose proof (N.mod_upper_bound n 10 ltac:(lia)).
    generalize dependent (pow10 (ndigits (n / 10))).
    generalize dependent (pow10 (ndigits (n / 10) - 1)).
    generalize dependent (n mod 10)%N. generalize dependent (n / 10)%N.
    intros. split; [|intros _]; lia.
Qed.

Lemma pow10_mono (a b : Z) : a <= b -> (pow10 a <= pow10 b)%N.
Proof. intros H. unfold pow10. apply N.pow_le_mono_r; lia. Qed.

Lemma ndigits_le (n : N) (k : Z) : 1 <= k -> (ndigits n <= k <-> (n < pow10 k)%N).
Proof.
  intros Hk. destruct (ndigits_bounds n) as [Hub Hlb]. split.
  - intros H. pose proof (pow10_mono _ _ H). lia.
  - intros H. destruct (N.eq_dec n 0%N) as [->|Hnz].
    + change (ndigits 0) with 1. lia.
    + specialize (Hlb Hnz).
      destruct (Z_le_gt_dec (ndigits n) k) as [|Hgt]; [done|].
      pose proof (pow10_mono k (ndigits n - 1) ltac:(lia)). lia.
Qed.


End digits.

(** ** Shapes of results and exact additions *)
Section shapes.
  Import PyStr Dec Billing Spec.


Lemma fix_zero (s : bool) (e : Z) :
  Etiny <= e <= Emax -> fix_ (Finite s 0 e) = Ok (Finite s 0 e).
Proof. intros H. unfold fix_. simpl. do 2 f_equal. lia. Qed.

Lemma fix_fits (s : bool) (c : N) (e : Z) :
  ndigits c <= prec -> Etiny <= e <= Etop -> fix_ (Finite s c e) = Ok (Finite s c e).
Proof.
  intros Hn He. unfold fix_.
  destruct (N.eqb_spec c 0) as [->|Hc]; [apply fix_zero; unfold Etop, Emax, prec in *; lia|].
  destruct (Z.ltb_spec Etop (ndigits c + e - prec)); [lia|].
  destruct (Z.ltb_spec (ndigits c + e - prec) Etiny).
  - destruct (Z.ltb_spec e Etiny); [lia|done].
  - destruct (Z.ltb_spec e (ndigits c + e - prec)); [lia|done].
Qed.


Lemma fix_nan_idem (d : Decimal) : fix_nan (fix_nan d) = fix_nan d.
Proof.
  assert (H : forall p, (prec <? ndigits (p mod pow10 prec)%N) = false).
  { intros p. apply Z.ltb_ge. apply ndigits_le; [done|].
    apply N.mod_upper_bound. pose proof (pow10_pos prec). lia. }
  destruct d as [s c e|s|s p|s p]; simpl; try done.
  - destruct (prec <? ndigits p) eqn:E; simpl; [by rewrite H|by rewrite E].
  - destruct (prec <? ndigits p) eqn:E; simpl; [by rewrite H|by rewrite E].
Qed.

Lemma quantize_currency_finite (s : bool) (c : N) (e : Z) (r : rounding) :
  quantize (Finite s c e) CURRENCY_QUANT r =
  if (c =? 0)%N then Ok (Finite s 0 (-2))
  else if Emax <? e + ndigits c - 1 then Raise InvalidOperation
  else if prec <? e + ndigits c - 1 - (-2) + 1 then Raise InvalidOperation
  else match rescale (Finite s c e) (-2) r with
       | Finite s' c' e' =>
           if Emax <? e' + ndigits c' - 1 then Raise InvalidOperation
           else if prec <? ndigits c' then Raise InvalidOperation
           else fix_ (Finite s' c' e')
       | _ => Raise InvalidOperation
       end.
Proof.
  unfold quantize, CURRENCY_QUANT. cbn [check_nans].
  change (negb ((Etiny <=? -2) && (-2 <=? Emax))) with false. cbv iota.
  destruct (c =? 0)%N; [|reflexivity].
  apply fix_zero. unfold Etiny, Emin, Emax, prec. lia.
Qed.




Lemma ndigits_small (c : N) : (c < pow10 prec)%N -> ndigits c <= prec.
Proof. intros H. by apply ndigits_le. Qed.

Lemma small_ndigits (c : N) : ndigits c <= prec -> (c < pow10 prec)%N.
Proof. intros H. by apply ndigits_le. Qed.

Lemma normalize_same_exp (c1 c2 : N) (e : Z) :
  ndigits c1 <= prec -> ndigits c2 <= prec ->
  normalize (c1, e) (c2, e) = ((c1, e), (c2, e)).
Proof.
  intros H1 H2. pose proof (ndigits_pos c1) as P1. pose proof (ndigits_pos c2) as P2.
  unfold normalize. cbn [fst snd]. rewrite Z.ltb_irrefl. cbv zeta. cbn [fst snd].
  replace (Z.min (-1) (ndigits c1 - prec - 2)) with (ndigits c1 - prec - 2)
    by (unfold prec in *; lia).
  destruct (Z.ltb_spec (ndigits c2 + e - 1) (e + (ndigits c1 - prec - 2)));
    [unfold prec in *; lia|].
  cbn [fst snd]. by rewrite Z.sub_diag, pow10_0, N.mul_1_r.
Qed.

  (** Addition of two numbers of one exponent whose digits fit the
      precision: no digit is lost when the signs differ, and the sum of the
      coefficients is all there is to round when they agree. *)
Lemma add_same_exp (s1 s2 : bool) (c1 c2 : N) (e : Z) :
  Etiny <= e <= Etop -> ndigits c1 <= prec -> ndigits c2 <= prec ->
  add (Finite s1 c1 e) (Finite s2 c2 e) =
  if xorb s1 s2 then
    Ok (if (c1 =? c2)%N then Finite false 0 e
        else if (c1 <? c2)%N then Finite s2 (c2 - c1) e
        else Finite s1 (c1 - c2) e)
  else fix_ (Finite s1 (c1 + c2) e).
Proof.
  intros He H1 H2.
  pose proof (small_ndigits c1 H1) as B1. pose proof (small_ndigits c2 H2) as B2.
  pose proof (ndigits_pos c1) as P1. pose proof (ndigits_pos c2) as P2.
  assert (HeM : Etiny <= e <= Emax) by (unfold Etop, Emax, prec in *; lia).
  unfold add. cbn [check_nans]. rewrite Z.min_id.
  destruct (N.eqb_spec c1 0) as [->|Hc1], (N.eqb_spec c2 0) as [->|Hc2]; cbn [andb].
  - change (0 + 0)%N with 0%N. rewrite !fix_zero by done.
    by destruct s1, s2.
  - unfold rescale. rewrite (proj2 (N.eqb_neq c2 0) Hc2).
    replace (Z.max e (e - prec - 1)) with e by (unfold prec; lia).
    rewrite Z.leb_refl, Z.sub_diag, pow10_0, N.mul_1_r, fix_fits by done.
    destruct (xorb s1 s2) eqn:Hx.
    + rewrite (proj2 (N.eqb_neq 0 c2)) by lia.
      rewrite (proj2 (N.ltb_lt 0 c2)) by lia. by rewrite N.sub_0_r.
    + apply xorb_eq in Hx as ->. by rewrite N.add_0_l, fix_fits.
  - unfold rescale. rewrite (proj2 (N.eqb_neq c1 0) Hc1).
    replace (Z.max e (e - prec - 1)) with e by (unfold prec; lia).
    rewrite Z.leb_refl, Z.sub_diag, pow10_0, N.mul_1_r, fix_fits by done.
    destruct (xorb s1 s2) eqn:Hx.
    + rewrite (proj2 (N.ltb_ge c1 0)) by lia. by rewrite N.sub_0_r.
    + by rewrite N.add_0_r, fix_fits.
  - rewrite normalize_same_exp by done.
    destruct (xorb s1 s2); [|done].
    destruct (N.eqb_spec c1 c2) as [->|Hne]; [by rewrite fix_zero|].
    destruct (N.ltb_spec c1 c2).
    + rewrite fix_fits; [done| |done]. apply ndigits_small. lia.
    + rewrite fix_fits; [done| |done]. apply ndigits_small. lia.
Qed.

Lemma currency_exp_range : Etiny <= -2 <= Etop.
Proof. unfold Etiny, Etop, Emin, Emax, prec. lia. Qed.



End shapes.

(** ** The totals claims *)
Section totals_claims.
  Import PyStr Dec Billing Spec.






End totals_claims.

(** ** Recomputation of the totals *)
Section recompute.
  Import PyStr Dec Billing Spec.













End recompute.

(** ** Rendering money *)
Section money.
  Import PyStr Dec Billing Spec.

Lemma pow10_add (a b : Z) : 0 <= a -> 0 <= b -> pow10 (a + b) = (pow10 a * pow10 b)%N.
Proof.
  intros Ha Hb. unfold pow10. rewrite Z2N.inj_add by lia. apply N.pow_add_r.
Qed.

Lemma pow10_lt_inv (a b : Z) : 0 <= a -> (pow10 a < pow10 b)%N -> a < b.
Proof.
  intros Ha H. destruct (Z_lt_ge_dec a b) as [|Hge]; [done|].
  pose proof (pow10_mono b a ltac:(lia)). lia.
Qed.

  (** [cents] is the rounding to the nearest hundredth, a tie going up. *)
Lemma cents_nearest (c : N) (e : Z) :
  e < -2 ->
  let p := pow10 (-2 - e) in
  (2 * cents c e * p <= 2 * c + p /\ 2 * c + p < 2 * (cents c e + 1) * p)%N.
Proof.
  intros He p. unfold cents. destruct (Z.leb_spec (-2) e); [lia|]. fold p.
  pose proof (pow10_pos (-2 - e)) as Hp. fold p in Hp.
  pose proof (N.Div0.div_mod (2 * c + p) (2 * p)) as Hdm.
  pose proof (N.mod_upper_bound (2 * c + p) (2 * p) ltac:(lia)) as Hm.
  generalize dependent ((2 * c + p) / (2 * p))%N.
  generalize dependent ((2 * c + p) mod (2 * p))%N. intros. nia.
Qed.

Lemma cents_unique (c p m : N) :
  (0 < p)%N -> (2 * m * p <= 2 * c + p)%N -> (2 * c + p < 2 * (m + 1) * p)%N ->
  ((2 * c + p) / (2 * p))%N = m.
Proof.
  intros Hp H1 H2. symmetry.
  apply (N.div_unique _ _ _ (2 * c + p - 2 * p * m)); lia.
Qed.

  (** [_rescale] to two decimals with ROUND_HALF_UP computes [cents]. *)
Lemma rescale_cents (s : bool) (c : N) (e : Z) :
  rescale (Finite s c e) (-2) ROUND_HALF_UP = Finite s (cents c e) (-2).
Proof.
  unfold rescale, cents. destruct (N.eqb_spec c 0) as [->|Hc].
  { destruct (-2 <=? e); [done|]. pose proof (pow10_pos (-2 - e)).
    by rewrite N.div_small by lia. }
  destruct (Z.leb_spec (-2) e) as [He|He].
  { by replace (e - -2) with (e + 2) by lia. }
  pose proof (pow10_pos (-2 - e)) as Hp.
  destruct (ndigits_bounds c) as [Hub Hlb]. specialize (Hlb Hc).
  pose proof (ndigits_pos c) as Hn.
  destruct (Z.ltb_spec (ndigits c + e - -2) 0) as [Hneg|Hpos].
  - cbn [pick_rounding_function]. unfold round_half_up.
    change (ndigits 1) with 1. rewrite Z.sub_0_r. change (pow10 1) with 10%N.
    change ((10 <=? 2 * (1 mod 10))%N) with false. cbv iota.
    change ((1 mod 10 =? 0)%N) with false. cbv iota.
    change (-1 =? 1) with false. cbv iota. change (1 / 10)%N with 0%N.
    assert (Hle : (pow10 (ndigits c) <= pow10 (-2 - e - 1))%N) by (apply pow10_mono; lia).
    assert (Hk : pow10 (-2 - e) = (10 * pow10 (-2 - e - 1))%N).
    { rewrite <- pow10_succ by lia. f_equal. lia. }
    rewrite Hk. by rewrite N.div_small by lia.
  - cbn [pick_rounding_function]. unfold round_half_up.
    replace (ndigits c - (ndigits c + e - -2)) with (-2 - e) by lia.
    set (p := pow10 (-2 - e)) in *.
    pose proof (N.Div0.div_mod c p) as Hdm.
    pose proof (N.mod_upper_bound c p ltac:(lia)) as Hm.
    f_equal. symmetry.
    clear Hub Hlb Hc. revert Hdm Hm.
    generalize (c mod p)%N as r. generalize (c / p)%N as q. intros q r -> Hm.
    destruct (N.leb_spec p (2 * r)) as [Hup|Hdown].
    + change (1 =? 1) with true. cbv iota.
      apply cents_unique; [done| |]; nia.
    + assert (Hch : ((if (r =? 0)%N then 0 else -1) =? 1) = false)
        by (by destruct (r =? 0)%N).
      rewrite Hch. apply cents_unique; [done| |]; nia.
Qed.


Lemma digits_two_last (m : N) :
  (100 <= m)%N ->
  digits m = digits (m / 100) ++ [digit_char (m / 10 mod 10); digit_char (m mod 10)].
Proof.
  intros Hm. rewrite (digits_unfold m).
  destruct (N.ltb_spec m 10); [lia|].
  rewrite (digits_unfold (m / 10)).
  assert (10 <= m / 10)%N by (apply N.div_le_lower_bound; lia).
  destruct (N.ltb_spec (m / 10) 10); [lia|].
  rewrite N.Div0.div_div. change (10 * 10)%N with 100%N.
  by rewrite <- app_assoc.
Qed.

  (** A number with exponent -2 is written with exactly two decimals. *)
Lemma to_str_two_decimals (s : bool) (m : N) :
  to_str (Finite s m (-2)) = two_decimals s m.
Proof.
  unfold to_str, two_decimals. do 2 f_equal.
  destruct (N.ltb_spec m 100) as [Hsmall|Hbig].
  - rewrite (N.div_small m 100) by lia. change (digits 0) with ["0"%char].
    destruct (N.ltb_spec m 10) as [H1|H2].
    + rewrite (ndigits_unfold m), (digits_unfold m).
      rewrite (proj2 (N.ltb_lt m 10)) by lia.
      rewrite (N.div_small m 10), (N.mod_small m 10) by lia. reflexivity.
    + rewrite (ndigits_unfold m), (digits_unfold m).
      rewrite (proj2 (N.ltb_ge m 10)) by lia.
      assert (m / 10 < 10)%N by (apply N.Div0.div_lt_upper_bound; lia).
      rewrite (ndigits_unfold (m / 10)), (digits_unfold (m / 10)).
      rewrite (proj2 (N.ltb_lt (m / 10) 10)) by lia.
      rewrite (N.mod_small (m / 10) 10) by lia. reflexivity.
  - assert (Hn : ndigits m = ndigits (m / 100) + 2).
    { rewrite (ndigits_unfold m). destruct (N.ltb_spec m 10); [lia|].
      rewrite (ndigits_unfold (m / 10)).
      assert (10 <= m / 10)%N by (apply N.div_le_lower_bound; lia).
      destruct (N.ltb_spec (m / 10) 10); [lia|].
      rewrite N.Div0.div_div. change (10 * 10)%N with 100%N. lia. }
    pose proof (ndigits_pos (m / 100)) as Hp.
    rewrite Hn, (digits_two_last m Hbig).
    replace (-2 + (ndigits (m / 100) + 2)) with (ndigits (m / 100)) by lia.
    change (-2 <=? 0) with true. cbn [andb].
    rewrite (proj2 (Z.ltb_lt (-6) (ndigits (m / 100)))) by lia.
    rewrite (proj2 (Z.leb_gt (ndigits (m / 100)) 0)) by lia.
    rewrite (proj2 (Z.leb_gt (ndigits (m / 100) + 2) (ndigits (m / 100)))) by lia.
    rewrite Z.eqb_refl.
    unfold ndigits at 1 2. rewrite Nat2Z.id.
    rewrite take_app_length, drop_app_length. by rewrite app_nil_r.
Qed.

  (** [money] on a finite amount: the amount in hundredths, rounded half up,
      written with two decimals, as long as it has at most 28 digits. *)
Lemma money_finite (s : bool) (c : N) (e : Z) :
  money (Finite s c e) =
  if (cents c e <? pow10 prec)%N then Ok (two_decimals s (cents c e))
  else Raise InvalidOperation.
Proof.
  unfold money. rewrite quantize_currency_finite.
  destruct (N.eqb_spec c 0) as [->|Hc].
  { assert (Hz : cents 0 e = 0%N).
    { pose proof (rescale_cents s 0 e) as H. unfold rescale in H. simpl in H.
      by injection H. }
    rewrite Hz. change (0 <? pow10 prec)%N with true. cbv iota.
    simpl. by rewrite to_str_two_decimals. }
  rewrite rescale_cents.
  pose proof (ndigits_pos c) as Hn. pose proof (ndigits_pos (cents c e)) as Hn'.
  destruct (ndigits_bounds c) as [Hub Hlb]. specialize (Hlb Hc).
  assert (Hbig : 28 < e + ndigits c + 2 -> (pow10 prec <= cents c e)%N).
  { intros Hgt. unfold cents. destruct (Z.leb_spec (-2) e) as [He|He].
    - assert (Hle : (pow10 prec <= pow10 ((ndigits c - 1) + (e + 2)))%N)
        by (apply pow10_mono; unfold prec; lia).
      rewrite pow10_add in Hle by lia.
      pose proof (pow10_pos (e + 2)). nia.
    - set (p := pow10 (-2 - e)) in *.
      pose proof (pow10_pos (-2 - e)) as Hp. fold p in Hp.
      assert (Hle : (pow10 prec * p <= pow10 (ndigits c - 1))%N).
      { unfold p. rewrite <- pow10_add by (unfold prec; lia).
        apply pow10_mono. unfold prec. lia. }
      apply N.div_le_lower_bound; [lia|]. nia. }
  destruct (Z.ltb_spec Emax (e + ndigits c - 1)) as [H1|H1].
  { rewrite (proj2 (N.ltb_ge _ _)); [done|]. apply Hbig. unfold Emax in H1. lia. }
  destruct (Z.ltb_spec prec (e + ndigits c - 1 - -2 + 1)) as [H2|H2].
  { rewrite (proj2 (N.ltb_ge _ _)); [done|]. apply Hbig. unfold prec in H2. lia. }
  destruct (Z.ltb_spec Emax (-2 + ndigits (cents c e) - 1)) as [H3|H3].
  { destruct (N.ltb_spec (cents c e) (pow10 prec)) as [Hlt|Hge]; [|done].
    apply ndigits_small in Hlt. unfold Emax, prec in *. lia. }
  destruct (Z.ltb_spec prec (ndigits (cents c e))) as [H4|H4].
  { destruct (N.ltb_spec (cents c e) (pow10 prec)) as [Hlt|Hge]; [|done].
    apply ndigits_small in Hlt. lia. }
  rewrite fix_fits by (done || apply currency_exp_range).
  rewrite (proj2 (N.ltb_lt _ _)) by (by apply small_ndigits).
  simpl. by rewrite to_str_two_decimals.
Qed.


(** C4 (as amended): for every finite amount whose value in hundredths,
    rounded to the nearest with ties away from zero, has at most 28 digits,
    [money] renders that rounded value with a sign, the digits of the units,
    a point and exactly two digits (1.005 gives 1.01 and 1.004 gives 1.00);
    for a larger finite amount, an infinity or a signalling NaN it raises
    InvalidOperation, and a quiet NaN is rendered as NaN. *)
Theorem money_two_decimals_half_up :
  (forall s c e,
     money (Finite s c e) =
     if (cents c e <? pow10 prec)%N then Ok (two_decimals s (cents c e))
     else Raise InvalidOperation) /\
  (forall c e, -2 <= e -> cents c e = (c * pow10 (e + 2))%N) /\
  (forall c e, e < -2 ->
     (2 * cents c e * pow10 (-2 - e) <= 2 * c + pow10 (-2 - e) /\
      2 * c + pow10 (-2 - e) < 2 * (cents c e + 1) * pow10 (-2 - e))%N) /\
  (forall s p, money (NaN s p) = Ok (to_str (fix_nan (NaN s p)))) /\
  (forall s, money (Infinity s) = Raise InvalidOperation) /\
  (forall s p, money (sNaN s p) = Raise InvalidOperation) /\
  (of_string "1.005" ≫= money) = Ok "1.01" /\
  (of_string "1.004" ≫= money) = Ok "1.00" /\
  (of_string "-1.005" ≫= money) = Ok "-1.01" /\
  (of_string "0.005" ≫= money) = Ok "0.01".
Proof.
  split; [apply money_finite|].
  split; [intros c e He; unfold cents; by rewrite (proj2 (Z.leb_le _ _) He)|].
  split; [apply cents_nearest|].
  split; [done|]. split; [done|]. split; [done|].
  repeat split; vm_compute; reflexivity.
Qed.

Lemma money_two_decimals_half_up_witness :
  (2 * cents 1005 (-3) * pow10 (-2 - -3) <= 2 * 1005 + pow10 (-2 - -3))%N.
Proof.
  destruct money_two_decimals_half_up as (_ & _ & H & _).
  apply (H 1005%N (-3)). lia.
Defined.

(** C4, as first stated, fails on amounts the program can be given: ten to
    the 26 is a decimal amount and [money] raises on it, and the amount read
    from the text NaN is rendered without any fractional digit. *)
Lemma money_raises_or_renders_nan :
  (of_string "1E+26" ≫= money) = Raise InvalidOperation /\
  (of_string "NaN" ≫= money) = Ok "NaN".
Proof. split; vm_compute; reflexivity. Qed.

End money.

(** ** Loops *)
Section loops.
  Import PyStr Dec Billing Spec Props.

Lemma bind_run {A B : Type} (m : M A) (k : A -> M B) (s : App) :
  (m ≫= k) s = match m s with
               | Returned a s1 => k a s1
               | Raised e s1 => Raised e s1
               end.
Proof. reflexivity. Qed.

Lemma for_each_modify {A : Type} (l : list A) (body : A -> M unit)
    (k : A -> App -> App) :
  (forall x s, body x s = Returned tt (k x s)) ->
  forall s, for_each l body s = Returned tt (foldl (fun s x => k x s) s l).
Proof.
  intros Hb. induction l as [|x l IH]; intros s; simpl; [done|].
  rewrite bind_run, Hb. apply IH.
Qed.

Lemma for_each_collect {A R : Type} (l : list A) (body : A -> M unit)
    (f : A -> res R) (g : R -> App -> App) :
  (forall x s, body x s = match f x with
                          | Ok r => Returned tt (g r s)
                          | Raise e => Raised e s
                          end) ->
  forall s,
    match mapM f l with
    | Ok rows => for_each l body s = Returned tt (foldl (fun s r => g r s) s rows)
    | Raise e => exists s', for_each l body s = Raised e s'
    end.
Proof.
  intros Hb. induction l as [|x l IH]; intros s; simpl; [done|].
  rewrite bind_run, Hb.
  destruct (f x) as [r|e]; simpl; [|eauto].
  specialize (IH (g r s)).
  destruct (mapM f l) as [rows|e]; simpl; [done|].
  destruct IH as [s' Hs']. eauto.
Qed.

End loops.

(** ** The cart view *)
Section view.
  Import PyStr Dec Billing Spec Props.

Lemma foldl_tree_rows (rows : list (list string)) (s : App) :
  foldl (fun s r => set_tree (tree s ++ [r]) s) s rows = set_tree (tree s ++ rows) s.
Proof.
  revert s. induction rows as [|r rows IH]; intros s; simpl.
  - rewrite app_nil_r. by destruct s.
  - rewrite IH. unfold set_tree. simpl. by rewrite <- app_assoc.
Qed.

  (** [refresh_cart] rebuilds the view from the cart, and stops at the first
      line that does not render. *)
Lemma refresh_cart_runs (s : App) :
  match mapM item_row (cart s) with
  | Ok rows => refresh_cart s = Returned tt (set_tree rows (set_tree_selection [] s))
  | Raise e => exists s', refresh_cart s = Raised e s'
  end.
Proof.
  unfold refresh_cart. rewrite run_bind_modify, run_bind_gets.
  change (cart (set_tree_selection [] (set_tree [] s))) with (cart s).
  pose proof (for_each_collect (cart s)
    (fun item => r ← lift (item_row item); modify (fun s => set_tree (tree s ++ [r]) s))
    item_row (fun r s => set_tree (tree s ++ [r]) s)) as H.
  specialize (H ltac:(intros x s0; cbv beta; rewrite run_bind_lift; by destruct (item_row x))
                (set_tree_selection [] (set_tree [] s))).
  destruct (mapM item_row (cart s)) as [rows|e]; [|done].
  rewrite H, foldl_tree_rows. reflexivity.
Qed.

Lemma mapM_res_lookup {A B : Type} (f : A -> res B) (l : list A) (k : list B) :
  mapM f l = Ok k ->
  length k = length l /\
  forall i x, l !! i = Some x -> exists y, f x = Ok y /\ k !! i = Some y.
Proof.
  revert k. induction l as [|x l IH]; intros k; simpl.
  - intros [= <-]. split; [done|]. intros i x Hx. by rewrite lookup_nil in Hx.
  - destruct (f x) as [y|e] eqn:Hy; simpl; [|discriminate].
    destruct (mapM f l) as [k'|e]; simpl; [|discriminate].
    intros [= <-]. destruct (IH k' eq_refl) as [Hlen Hl]. split; [simpl; lia|].
    intros [|i] x'; simpl.
    + intros [= <-]. eauto.
    + apply Hl.
Qed.

End view.

(** ** What the callbacks leave of the cart *)
Section callbacks.
  Import PyStr Dec Billing Spec Props.

Lemma keeps_and (P Q : App -> Prop) {A : Type} (m : M A) :
  keeps P m -> keeps Q m -> keeps (fun s => P s /\ Q s) m.
Proof. intros HP HQ s [Hp Hq]. split; [by apply HP|by apply HQ]. Qed.

Lemma keeps_returned (P : App -> Prop) {A : Type} (m : M A) (s s' : App) (a : A) :
  keeps P m -> P s -> m s = Returned a s' -> P s'.
Proof. intros K Hs H. specialize (K s Hs). by rewrite H in K. Qed.

Lemma Forall_remove_first (Q : CartItem -> Prop) (c : string) (cart : list CartItem) :
  Forall Q cart -> Forall Q (remove_first c cart).
Proof.
  induction 1 as [|it rest Hit Hrest IH]; simpl; [done|].
  destruct (String.eqb (code it) c); [done|by constructor].
Qed.

  (** Every callback but the add leaves a cart property that holds of the
      empty cart and survives the removal of a line. *)
Lemma generate_invoice_keeps_cart (Q : list CartItem -> Prop) (now : string) :
  Q [] -> keeps (fun s => Q (cart s)) (generate_invoice now).
Proof.
  intros Hnil. unfold generate_invoice.
  apply keeps_bind; [apply keeps_gets|intros cart0].
  destruct cart0 as [|it rest]; [keeps_step|].
  repeat first
    [ apply (keeps_cart_any Q); intros;
      first [apply save_invoice_csv_keeps_cart | apply save_invoice_html_keeps_cart]
    | apply (refresh_update_keeps Q)
    | keeps_step
    | assumption ].
Qed.

Lemma remove_selected_keeps_cart (Q : list CartItem -> Prop) :
  (forall c l, Q l -> Q (remove_first c l)) ->
  keeps (fun s => Q (cart s)) remove_selected.
Proof.
  intros Hrm. unfold remove_selected.
  apply keeps_bind; [apply keeps_gets|intros sel].
  destruct sel as [|i sel]; [apply keeps_ret|].
  apply keeps_bind; [|intros _; apply (refresh_update_keeps Q)].
  apply keeps_for_each. intros j.
  apply keeps_bind; [apply keeps_gets|intros rows].
  apply keeps_modify. intros s Hs. simpl. by apply Hrm.
Qed.

Lemma clear_cart_keeps_cart (Q : list CartItem -> Prop) (answer : bool) :
  Q [] -> keeps (fun s => Q (cart s)) (clear_cart answer).
Proof.
  intros Hnil. unfold clear_cart. apply keeps_bind; [keeps_step|intros _].
  destruct answer; [|apply keeps_ret].
  apply keeps_bind; [|intros _; apply (refresh_update_keeps Q)].
  apply keeps_modify. intros s _. exact Hnil.
Qed.

Lemma run_keeps_cart (Q : list CartItem -> Prop) (a : action) :
  Q [] -> (forall c l, Q l -> Q (remove_first c l)) ->
  a <> AddSelectedProduct ->
  keeps (fun s => Q (cart s)) (run a).
Proof.
  intros Hnil Hrm Ha. destruct a; simpl.
  1-5: by apply keeps_modify.
  - done.
  - by apply remove_selected_keeps_cart.
  - by apply clear_cart_keeps_cart.
  - by apply generate_invoice_keeps_cart.
  - by apply (keeps_cart_any Q), export_cart_csv_keeps_cart.
  - by apply (keeps_cart_any Q), open_invoices_folder_keeps_cart.
  - by apply (keeps_cart_any Q), load_products_csv_keeps_cart.
Qed.

  (** The cases of an add that returns: nothing of the display has changed,
      or the cart was changed for a known code and a positive quantity, and
      the view and the totals were rebuilt after it. *)
Lemma add_selected_product_returned (s s' : App) :
  add_selected_product s = Returned tt s' ->
  display s' = display s \/
  exists c prod q,
    selected_code s = Some c /\ products s !! c = Some prod /\
    qty_var s = Some q /\ 0 < q /\
    ((c ∉ codes (cart s)) \/
     exists l1 it l2, cart s = l1 ++ it :: l2 /\ code it = c /\ c ∉ codes l1) /\
    exists s1 s2, refresh_cart s1 = Returned tt s2 /\ update_totals s2 = Returned tt s'.
Proof.
  intros H.
  destruct (selected_code s) as [c|] eqn:Hc.
  2:{ left. unfold selected_code in Hc. revert H.
      unfold add_selected_product. rewrite run_bind_gets.
      destruct (listbox_selection s); [|discriminate].
      unfold messagebox, modify. by intros [= <-]. }
  destruct (products s !! c) as [prod|] eqn:Hp.
  2:{ left. rewrite (add_selected_product_unknown s c Hc Hp) in H.
      by injection H as <-. }
  destruct (qty_var s) as [q|] eqn:Hq.
  2:{ exfalso. revert H. unfold selected_code in Hc.
      unfold add_selected_product. rewrite run_bind_gets.
      destruct (listbox_selection s); [discriminate|].
      injection Hc as Hc. rewrite !run_bind_gets, Hc, Hp, run_bind_gets, Hq.
      rewrite bind_run. unfold raise. discriminate. }
  destruct (Z.le_gt_cases q 0) as [Hle|Hgt].
  { left. rewrite (add_selected_product_bad_quantity s c prod q Hc Hp Hq Hle) in H.
    by injection H as <-. }
  right. exists c, prod, q. split_and!; try done.
  - destruct (decide (c ∈ codes (cart s))) as [Hin|Hnot]; [right|by left].
    apply list_elem_of_split_l in Hin as (k1 & k2 & Hk & Hnot).
    unfold codes in Hk.
    apply fmap_app_inv in Hk as (l1 & l2' & Hl1 & Hl2 & Hcart).
    symmetry in Hl2. apply fmap_cons_inv in Hl2 as (it & l2 & Hit & Hl2 & ->).
    exists l1, it, l2. split_and!; [done|done|]. unfold codes. by rewrite <- Hl1.
  - revert H. unfold selected_code in Hc.
    unfold add_selected_product. rewrite run_bind_gets.
    destruct (listbox_selection s); [discriminate|].
    injection Hc as Hc. rewrite !run_bind_gets, Hc, Hp, run_bind_gets, Hq.
    rewrite run_bind_ret.
    destruct (Z.leb_spec q 0) as [Hle|_]; [lia|].
    intros H. apply bind_returned in H as (lt & s1 & H1 & H).
    apply lift_returned in H1 as [_ ->].
    rewrite run_bind_gets in H.
    destruct (increment_line c q (cart s)) as [cart' r].
    rewrite run_bind_modify in H.
    apply bind_returned in H as (found & s1 & H1 & H).
    apply bind_returned in H as ([] & s2 & H2 & H).
    apply bind_returned in H as ([] & s3 & H3 & H).
    eauto.
Qed.

End callbacks.

(** ** Export and catalog reload *)
Section side_files.
  Import PyStr Dec Billing Spec Props.


Lemma foldl_export_rows (path : string) (rows : list (list string)) (s : App)
    (r0 : list (list string)) :
  let g := fun r s =>
    set_fs {| products_csv := products_csv (fs s);
              invoices_dir := invoices_dir (fs s);
              elsewhere := <[path := default [] (elsewhere (fs s) !! path) ++ [r]]>
                             (elsewhere (fs s)) |} s in
  elsewhere (fs s) !! path = Some r0 ->
  elsewhere (fs (foldl (fun s r => g r s) s rows)) !! path = Some (r0 ++ rows) /\
  log (foldl (fun s r => g r s) s rows) = log s.
Proof.
  intros g. revert s r0. induction rows as [|r rows IH]; intros s r0 Hs; simpl.
  - by rewrite app_nil_r.
  - destruct (IH (g r s) (r0 ++ [r])) as [H1 H2].
    + unfold g. simpl. rewrite Hs. simpl. apply lookup_insert_eq.
    + rewrite H1, H2, <- app_assoc. done.
Qed.

End side_files.

(** ** The display after a callback that returns *)
Section display.
  Import PyStr Dec Billing Spec Props.

Lemma update_totals_keeps_view (c0 : list CartItem) (t0 : list (list string))
    (ts0 : list nat) :
  keeps (fun s => cart s = c0 /\ tree s = t0 /\ tree_selection s = ts0) update_totals.
Proof. unfold update_totals, update_labels. repeat keeps_step. Qed.

Lemma refresh_update_view (s1 s2 s' : App) :
  refresh_cart s1 = Returned tt s2 -> update_totals s2 = Returned tt s' ->
  view_shows_cart s' /\ tree_selection s' = [] /\ cart s' = cart s1.
Proof.
  intros H1 H2. pose proof (refresh_cart_runs s1) as Hr.
  destruct (mapM item_row (cart s1)) as [rows|e] eqn:Hrows.
  - rewrite H1 in Hr. injection Hr as ->.
    pose proof (update_totals_keeps_view (cart s1) rows []
                  (set_tree rows (set_tree_selection [] s1))
                  ltac:(done)) as K.
    rewrite H2 in K. simpl in K. destruct K as (Kc & Kt & Ks).
    unfold view_shows_cart. rewrite Kc, Kt. done.
  - destruct Hr as [s0 Hr]. rewrite H1 in Hr. discriminate.
Qed.

Lemma update_labels_returned (t : Totals) (s s' : App) :
  update_labels t s = Returned tt s' ->
  exists m_sub m_gst m_cgst m_sgst m_grand,
    money (subtotal t) = Ok m_sub /\ money (gst_total t) = Ok m_gst /\
    money (cgst t) = Ok m_cgst /\ money (sgst t) = Ok m_sgst /\
    money (grand_total t) = Ok m_grand /\
    s' = set_grand_label ("Grand Total: " +:+ m_grand)
           (set_gst_label (cat ["GST: "; m_gst; " ("; m_cgst; " CGST + "; m_sgst; " SGST)"])
              (set_subtotal_label ("Subtotal: " +:+ m_sub) s)).
Proof.
  unfold update_labels. rewrite run_bind_lift.
  destruct (money (subtotal t)) as [m1|e]; [|discriminate].
  rewrite run_bind_modify, run_bind_lift.
  destruct (money (gst_total t)) as [m2|e]; [|discriminate].
  rewrite run_bind_lift.
  destruct (money (cgst t)) as [m3|e]; [|discriminate].
  rewrite run_bind_lift.
  destruct (money (sgst t)) as [m4|e]; [|discriminate].
  rewrite run_bind_modify, run_bind_lift.
  destruct (money (grand_total t)) as [m5|e]; [|discriminate].
  unfold modify. intros [= <-]. by exists m1, m2, m3, m4, m5.
Qed.

Lemma update_totals_labels (s s' : App) :
  update_totals s = Returned tt s' -> labels_show_totals s'.
Proof.
  intros H. pose proof (update_totals_computes s) as Hc.
  destruct (compute_totals (cart s) (parsed_rate (gst_var s))) as [t|e].
  - rewrite H in Hc. symmetry in Hc.
    apply update_labels_returned in Hc as (m1 & m2 & m3 & m4 & m5 & ? & ? & ? & ? & ? & ->).
    by exists t, m1, m2, m3, m4, m5.
  - destruct Hc as [Hc|Hc]; rewrite H in Hc; discriminate.
Qed.

Lemma remove_selected_returned (s s' : App) :
  remove_selected s = Returned tt s' ->
  display s' = display s \/
  exists s1 s2, refresh_cart s1 = Returned tt s2 /\ update_totals s2 = Returned tt s'.
Proof.
  unfold remove_selected. rewrite run_bind_gets.
  destruct (tree_selection s); [by intros [= <-]; left|].
  intros H. right.
  apply bind_returned in H as ([] & s1 & H1 & H).
  apply bind_returned in H as ([] & s2 & H2 & H). eauto.
Qed.

Lemma clear_cart_returned (answer : bool) (s s' : App) :
  clear_cart answer s = Returned tt s' ->
  display s' = display s \/
  exists s1 s2, refresh_cart s1 = Returned tt s2 /\ update_totals s2 = Returned tt s'.
Proof.
  unfold clear_cart, messagebox. rewrite run_bind_modify.
  destruct answer; [|by intros [= <-]; left].
  rewrite run_bind_modify. intros H. right.
  apply bind_returned in H as ([] & s2 & H2 & H). eauto.
Qed.

Lemma generate_invoice_returned (now : string) (s s' : App) :
  generate_invoice now s = Returned tt s' ->
  display s' = display s \/
  exists s1 s2, refresh_cart s1 = Returned tt s2 /\ update_totals s2 = Returned tt s'.
Proof.
  unfold generate_invoice. rewrite run_bind_gets.
  destruct (cart s) as [|it rest] eqn:Hcart.
  { unfold messagebox, modify. intros [= <-]. left. unfold display. simpl. by rewrite Hcart. }
  rewrite run_bind_gets. destruct (next_invoice_number (fs s)) as [n files].
  rewrite run_bind_modify, !run_bind_gets.
  change (totals (set_fs files s)) with (totals s).
  destruct (totals s) as [t|]; [|unfold raise; discriminate].
  intros H. right.
  apply bind_returned in H as (csvfile & s1 & H1 & H).
  apply bind_returned in H as (htmlfile & s2 & H2 & H).
  unfold messagebox in H. rewrite !run_bind_modify in H.
  apply bind_returned in H as ([] & s3 & H3 & H). eauto.
Qed.

Lemma open_invoices_folder_keeps_display (d0 : _) :
  keeps (fun s => display s = d0) open_invoices_folder.
Proof. unfold open_invoices_folder, display. repeat keeps_step. Qed.

Lemma refresh_product_list_keeps_display (d0 : _) :
  keeps (fun s => display s = d0) refresh_product_list.
Proof. unfold refresh_product_list, display. repeat keeps_step. Qed.

Lemma load_products_csv_keeps_display (path : string) (d0 : _) :
  keeps (fun s => display s = d0) (load_products_csv path).
Proof.
  unfold load_products_csv. destruct path; [apply keeps_ret|].
  repeat first [apply refresh_product_list_keeps_display | keeps_step].
Qed.

Lemma export_cart_csv_keeps_display (path : string) (d0 : _) :
  keeps (fun s => display s = d0) (export_cart_csv path).
Proof. unfold export_cart_csv, display. repeat keeps_step. Qed.

  (** A callback that returns has left the display alone, or has rebuilt the
      view and the totals as its last two steps. *)
Lemma run_returned (a : action) (s s' : App) :
  run a s = Returned tt s' ->
  display s' = display s \/
  exists s1 s2, refresh_cart s1 = Returned tt s2 /\ update_totals s2 = Returned tt s'.
Proof.
  destruct a; simpl.
  1-5: by intros [= <-]; left.
  - intros H. apply add_selected_product_returned in H as [H|(c & p & q & _ & _ & _ & _ & _ & H)];
      [by left|by right].
  - apply remove_selected_returned.
  - apply clear_cart_returned.
  - apply generate_invoice_returned.
  - intros H. left. by apply (keeps_returned _ _ _ _ _ (export_cart_csv_keeps_display path _) eq_refl H).
  - intros H. left. by apply (keeps_returned _ _ _ _ _ (open_invoices_folder_keeps_display _) eq_refl H).
  - intros H. left. by apply (keeps_returned _ _ _ _ _ (load_products_csv_keeps_display path _) eq_refl H).
Qed.

Lemma init_returned (files : FS) (s' : App) :
  init (blank files) = Returned tt s' ->
  exists s2, cart s2 = [] /\ tree s2 = [] /\ update_totals s2 = Returned tt s'.
Proof.
  unfold init. rewrite run_bind_gets, run_bind_modify, run_bind_gets.
  intros H.
  apply bind_returned in H as ([] & s1 & H1 & H).
  rewrite !run_bind_modify in H.
  apply bind_returned in H as ([] & s2 & H2 & H).
  apply bind_returned in H as ([] & s3 & H3 & H).
  exists s3. split_and!; [| |done].
  - assert (K : keeps (fun s => cart s = []) (create_ui ;; refresh_product_list)).
    { apply keeps_bind; [unfold create_ui; repeat keeps_step|intros _].
      apply refresh_product_list_keeps_cart. }
    assert (K2 : cart (state_of ((create_ui ;; refresh_product_list)
                   (set_gst_percent GST_DEFAULT (set_cart [] s1)))) = []) by (by apply K).
    rewrite bind_run, H2, H3 in K2. done.
  - assert (Ht : tree s2 = []).
    { revert H2. unfold create_ui. rewrite !run_bind_modify, run_bind_gets, !run_bind_modify.
      unfold modify. by intros [= <-]. }
    assert (K : keeps (fun s => tree s = []) refresh_product_list)
      by (unfold refresh_product_list; repeat keeps_step).
    specialize (K s2 Ht). by rewrite H3 in K.
Qed.

Lemma returning_display (s : App) :
  returning s -> view_shows_cart s /\ labels_show_totals s.
Proof.
  induction 1 as [files s Hinit|a s s' Hs [IHv IHl] Hen Hrun].
  - apply init_returned in Hinit as (s2 & Hc & Ht & Hu). split.
    + pose proof (update_totals_keeps_view [] [] (tree_selection s2) s2 ltac:(done)) as K.
      rewrite Hu in K. simpl in K. destruct K as (Kc & Kt & _).
      unfold view_shows_cart. by rewrite Kc, Kt.
    + by apply update_totals_labels in Hu.
  - apply run_returned in Hrun as [Hd|(s1 & s2 & H1 & H2)].
    + unfold display in Hd. injection Hd as Hc Ht Hto Hl1 Hl2 Hl3. split.
      * unfold view_shows_cart in *. by rewrite Hc, Ht.
      * destruct IHl as (t & m1 & m2 & m3 & m4 & m5 & ? & ? & ? & ? & ? & ? & ? & ? & ?).
        exists t, m1, m2, m3, m4, m5. rewrite Hto, Hl1, Hl2, Hl3. done.
    + split; [by destruct (refresh_update_view s1 s2 s' H1 H2)|].
      by apply update_totals_labels in H2.
Qed.

End display.

(** ** Cart lines *)
Section lines.
  Import PyStr Dec Billing Spec Props.

Lemma returning_lines (s : App) : returning s -> Forall line_ok (cart s).
Proof.
  induction 1 as [files s Hinit|a s s' Hs IH Hen Hrun].
  - by rewrite (init_cart files s Hinit).
  - assert (a = AddSelectedProduct \/ a <> AddSelectedProduct) as [->|Ha]
      by (destruct a; (by left) || (by right)).
    + simpl in Hrun.
      destruct (add_selected_product_returned s s' Hrun)
        as [Hd|(c & prod & q & Hc & Hp & Hq & Hpos & [Hnot|(l1 & it & l2 & Hcart & Hit & Hnot)] & _)].
      * unfold display in Hd. injection Hd as Hd _ _ _ _ _. by rewrite Hd.
      * destruct (add_selected_product_absent s s' c prod q Hc Hp Hq Hpos Hnot Hrun)
          as (t & Ht & ->).
        apply Forall_app. split; [done|]. by constructor.
      * destruct (add_selected_product_present s s' c prod q l1 l2 it
                    Hc Hp Hq Hpos Hcart Hit Hnot Hrun) as (t & Ht & ->).
        rewrite Hcart in IH. apply Forall_app in IH as [IH1 IH2].
        apply Forall_cons in IH2 as [_ IH2].
        apply Forall_app. split; [done|]. by constructor.
    + apply (keeps_returned (fun s => Forall line_ok (cart s)) (run a) s s' tt); [|done|done].
      apply (run_keeps_cart (Forall line_ok)); [done| |done].
      intros c l. apply Forall_remove_first.
Qed.

Lemma read_products_no_empty_code (files : FS) : read_products files !! EmptyString = None.
Proof.
  unfold read_products. destruct (products_csv files) as [rows|]; [|done].
  generalize (DictReader rows). intros l.
  assert (H : (∅ : gmap string Product) !! EmptyString = None) by done.
  revert H. generalize (∅ : gmap string Product).
  induction l as [|r l IH]; intros m Hm; simpl; [done|].
  apply IH. unfold read_products_row.
  destruct (row_code r) as [[|a c]|]; [done| |done].
  by rewrite lookup_insert_ne.
Qed.

Lemma increment_line_well_formed (c : string) (q : Z) (cart : list CartItem) :
  0 < q -> Forall well_formed_line cart ->
  Forall well_formed_line (increment_line c q cart).1.
Proof.
  intros Hq. induction 1 as [|it rest [Hit1 Hit2] Hrest IH]; simpl; [done|].
  destruct (String.eqb (code it) c).
  - destruct (mbind _ _); simpl; constructor; try done; split; simpl; (lia || done).
  - destruct (increment_line c q rest) as [rest' r]. simpl in *.
    constructor; [by split|done].
Qed.

Lemma add_selected_product_well_formed :
  keeps (fun s => products s !! EmptyString = None /\ Forall well_formed_line (cart s))
        add_selected_product.
Proof.
  set (P := fun s => products s !! EmptyString = None /\ Forall well_formed_line (cart s)).
  assert (Htail : keeps P (refresh_cart ;; update_totals)).
  { unfold P, refresh_cart, update_totals, update_labels. repeat keeps_step. }
  unfold add_selected_product.
  apply keeps_bind; [apply keeps_gets|intros sel].
  destruct sel as [|idx sel]; [unfold P; keeps_step|].
  apply keeps_bind; [apply keeps_gets|intros lines].
  set (c := strip _).
  intros s Hs. rewrite run_bind_gets.
  destruct (products s !! c) as [prod|] eqn:Hprod; [|done].
  rewrite run_bind_gets. destruct (qty_var s) as [q|]; [|done].
  rewrite run_bind_ret.
  destruct (Z.leb_spec q 0) as [Hle|Hgt]; [done|].
  rewrite run_bind_lift. destruct (mbind _ _) as [lt|e]; [|done].
  rewrite run_bind_gets.
  pose proof (increment_line_well_formed c q (cart s) Hgt (proj2 Hs)) as Hinc.
  destruct (increment_line c q (cart s)) as [cart' r]. simpl in Hinc.
  rewrite run_bind_modify.
  assert (Hs1 : P (set_cart cart' s)) by (split; [apply Hs|done]).
  rewrite run_bind_lift. destruct r as [found|e]; [|done].
  destruct found.
  - rewrite run_bind_ret. by apply Htail.
  - rewrite run_bind_modify. apply Htail. split; [apply Hs|]. simpl.
    apply Forall_app. split; [done|]. constructor; [|done]. split; simpl; [lia|].
    intros ->. destruct Hs as [Hs _]. congruence.
Qed.

Lemma run_keeps_no_empty_code (a : action) :
  keeps (fun s => products s !! EmptyString = None) (run a).
Proof.
  destruct a; simpl.
  1-5: by apply keeps_modify.
  - unfold add_selected_product, refresh_cart, update_totals, update_labels.
    repeat keeps_step.
  - unfold remove_selected, refresh_cart, update_totals, update_labels.
    repeat keeps_step.
  - unfold clear_cart, refresh_cart, update_totals, update_labels.
    repeat keeps_step.
  - unfold generate_invoice, save_invoice_csv, save_invoice_html, invoice_writerow,
      write_invoice_file, refresh_cart, update_totals, update_labels.
    repeat keeps_step.
  - unfold export_cart_csv. repeat keeps_step.
  - unfold open_invoices_folder. repeat keeps_step.
  - unfold load_products_csv, refresh_product_list. repeat keeps_step.
    apply read_products_no_empty_code.
Qed.

Lemma init_no_empty_code (files : FS) (s : App) :
  init (blank files) = Returned tt s -> products s !! EmptyString = None.
Proof.
  intros H.
  assert (K : keeps (fun s => products s !! EmptyString = None) init).
  { unfold init, create_ui, refresh_product_list, update_totals, update_labels.
    repeat keeps_step. apply read_products_no_empty_code. }
  specialize (K (blank files) ltac:(done)). by rewrite H in K.
Qed.

Lemma reachable_well_formed (s : App) :
  reachable s ->
  products s !! EmptyString = None /\ Forall well_formed_line (cart s).
Proof.
  induction 1 as [files s Hinit|a s Hreach IH Hen].
  - split; [by apply (init_no_empty_code files)|].
    by rewrite (init_cart files s Hinit).
  - assert (a = AddSelectedProduct \/ a <> AddSelectedProduct) as [->|Ha]
      by (destruct a; (by left) || (by right)).
    + by apply add_selected_product_well_formed.
    + split; [apply (run_keeps_no_empty_code a s), IH|].
      apply (run_keeps_cart (Forall well_formed_line) a); [done| |done|apply IH].
      intros c l. apply Forall_remove_first.
Qed.

End lines.

(** ** Removing the selected rows *)
Section removal.
  Import PyStr Dec Billing Spec Props.

Lemma filter_all {A : Type} (P : A -> Prop) `{!forall x, Decision (P x)} (l : list A) :
  Forall P l -> filter P l = l.
Proof.
  induction 1 as [|x l Hx Hl IH]; [done|].
  rewrite filter_cons_True by done. by rewrite IH.
Qed.

Lemma remove_first_filter (c : string) (cart : list CartItem) :
  NoDup (codes cart) ->
  remove_first c cart = filter (fun it => code it <> c) cart.
Proof.
  induction cart as [|it rest IH]; simpl; [done|].
  intros Hnd. apply NoDup_cons in Hnd as [Hnot Hnd].
  destruct (String.eqb_spec (code it) c) as [Heq|Hne].
  - rewrite filter_cons_False by (intros H; by apply H).
    symmetry. apply filter_all. apply Forall_forall. intros x Hx Hcx.
    apply Hnot. rewrite Heq, <- Hcx. unfold codes. apply list_elem_of_fmap. eauto.
  - rewrite filter_cons_True by done. by rewrite IH.
Qed.

Lemma foldl_remove_first_filter (xs : list string) (cart : list CartItem) :
  NoDup (codes cart) ->
  foldl (fun c x => remove_first x c) cart xs = filter (fun it => code it ∉ xs) cart.
Proof.
  revert cart. induction xs as [|x xs IH]; intros cart Hnd; simpl.
  - symmetry. apply filter_all. apply Forall_forall. intros it _. apply not_elem_of_nil.
  - rewrite IH by (by apply NoDup_codes_remove_first).
    rewrite remove_first_filter by done.
    rewrite list_filter_filter. apply list_filter_iff. intros it.
    rewrite not_elem_of_cons. tauto.
Qed.

Lemma foldl_remove_rows (sel : list nat) (s : App) :
  let k := fun (i : nat) (s : App) =>
    set_cart (remove_first (default EmptyString (head (default [] (tree s !! i))))
                           (cart s)) s in
  let s1 := foldl (fun s i => k i s) s sel in
  tree s1 = tree s /\
  cart s1 = foldl (fun c x => remove_first x c) (cart s)
              ((fun i => default EmptyString (head (default [] (tree s !! i)))) <$> sel).
Proof.
  intros k. revert s. induction sel as [|i sel IH]; intros s; simpl; [done|].
  destruct (IH (k i s)) as [Ht Hc]. split; [by rewrite Ht|]. by rewrite Hc.
Qed.

Lemma remove_selected_cart (s : App) :
  cart (state_of (remove_selected s)) =
  foldl (fun c x => remove_first x c) (cart s) (selected_codes s).
Proof.
  unfold remove_selected, selected_codes. rewrite run_bind_gets.
  destruct (tree_selection s) as [|i sel] eqn:Hsel; [done|].
  rewrite bind_run.
  rewrite (for_each_modify (i :: sel) _
    (fun (i : nat) (s : App) =>
       set_cart (remove_first (default EmptyString (head (default [] (tree s !! i))))
                              (cart s)) s)) by done.
  destruct (foldl_remove_rows (i :: sel) s) as [_ Hc]. cbv zeta in Hc.
  rewrite <- Hc.
  by apply (refresh_update_keeps (fun c => c = _)).
Qed.

End removal.

(** ** Integers and their decimal text *)
Section int_text.
  Import PyStr Dec Billing Spec Props.

Lemma str_of_chars_app (a b : list ascii) :
  str_of_chars (a ++ b) = str_of_chars a +:+ str_of_chars b.
Proof. unfold str_of_chars. induction a as [|c a IH]; simpl; [done|]. by rewrite IH. Qed.

Lemma small_cases (d : N) :
  (d < 10)%N ->
  d = 0%N \/ d = 1%N \/ d = 2%N \/ d = 3%N \/ d = 4%N \/
  d = 5%N \/ d = 6%N \/ d = 7%N \/ d = 8%N \/ d = 9%N.
Proof. lia. Qed.

Lemma digit_val_digit_char (d : N) : (d < 10)%N -> digit_val (digit_char d) = Some d.
Proof.
  intros H. destruct (small_cases d H) as [->|[->|[->|[->|[->|[->|[->|[->|[->| ->]]]]]]]]];
    reflexivity.
Qed.

Lemma digits_are_digits (n : N) : Forall (fun c => is_Some (digit_val c)) (digits n).
Proof.
  induction n as [n IH] using (well_founded_induction N.lt_wf_0).
  rewrite digits_unfold. destruct (N.ltb_spec n 10) as [Hlt|Hge].
  - constructor; [|done]. rewrite digit_val_digit_char by done. eauto.
  - apply Forall_app. split.
    + apply IH. apply N.div_lt; lia.
    + constructor; [|done]. rewrite digit_val_digit_char; [eauto|].
      apply N.mod_lt. lia.
Qed.

Lemma digits_nonempty (n : N) : digits n <> [].
Proof.
  rewrite digits_unfold. destruct (n <? 10)%N; [done|].
  intros H. apply app_eq_nil in H as [_ H]. discriminate.
Qed.

  (** Reading the digits of a number adds them to what was read so far. *)
Lemma int_digits_digits (n : N) (rest : list ascii) (acc : N) (prev : bool) :
  int_digits (str_of_chars (digits n ++ rest)) acc prev =
  int_digits (str_of_chars rest) (acc * pow10 (ndigits n) + n)%N true.
Proof.
  revert rest acc prev.
  induction n as [n IH] using (well_founded_induction N.lt_wf_0).
  intros rest acc prev. rewrite digits_unfold, ndigits_unfold.
  destruct (N.ltb_spec n 10) as [Hlt|Hge].
  - simpl. rewrite digit_val_digit_char by done.
    change (pow10 1) with 10%N. f_equal. lia.
  - rewrite <- app_assoc. rewrite IH by (apply N.div_lt; lia).
    simpl. rewrite digit_val_digit_char by (apply N.mod_lt; lia).
    f_equal. rewrite pow10_succ by (pose proof (ndigits_pos (n / 10)); lia).
    pose proof (N.div_mod n 10 ltac:(lia)) as Hdm.
    set (p := pow10 (ndigits (n / 10))) in *. clearbody p.
    set (q := (n / 10)%N) in *. set (r := (n mod 10)%N) in *.
    clearbody q r. clear IH. nia.
Qed.

Lemma int_digits_str_N (n : N) : int_digits (str_N n) 0 false = Some n.
Proof.
  unfold str_N. rewrite <- (app_nil_r (digits n)), int_digits_digits. simpl.
  done.
Qed.

Lemma digit_not_space (c : ascii) : is_Some (digit_val c) -> isspace_int c = false.
Proof.
  intros [d Hd]. revert Hd. unfold digit_val, isspace_int.
  generalize (N_of_ascii c). intros n.
  destruct (N.leb_spec 48 n), (N.leb_spec n 57); simpl; try discriminate.
  intros _.
  destruct (N.leb_spec 9 n), (N.leb_spec n 13), (N.eqb_spec n 32), (N.eqb_spec n 133),
    (N.eqb_spec n 160); simpl; try reflexivity; lia.
Qed.

Lemma rstrip_int_no_space (l : list ascii) :
  Forall (fun c => isspace_int c = false) l ->
  rstrip_int (str_of_chars l) = str_of_chars l.
Proof.
  unfold str_of_chars. induction 1 as [|c l Hc Hl IH]; simpl; [done|].
  rewrite IH, Hc. by destruct (string_of_list_ascii l).
Qed.

Lemma lstrip_int_no_space (c : ascii) (s : string) :
  isspace_int c = false -> lstrip_int (String c s) = String c s.
Proof. intros H. simpl. by rewrite H. Qed.

  (** [int] on a text that starts with a digit. *)
Lemma python_int_unsigned (c : ascii) (r : string) :
  is_Some (digit_val c) ->
  rstrip_int (lstrip_int (String c r)) = String c r ->
  python_int (String c r) = Z.of_N <$> int_digits (String c r) 0%N false.
Proof.
  intros [d Hd] Hs. unfold python_int. rewrite Hs. clear Hs. revert Hd.
  destruct c as [[] [] [] [] [] [] [] []]; try discriminate; reflexivity.
Qed.

  (** [int(str(n)) == n] *)
Lemma python_int_str_Z (n : Z) : python_int (str_Z n) = Some n.
Proof.
  assert (Hd : forall m, exists c l, digits m = c :: l /\ is_Some (digit_val c) /\
                 Forall (fun c => isspace_int c = false) (c :: l)).
  { intros m. pose proof (digits_are_digits m) as Hm.
    destruct (digits m) as [|c l] eqn:E; [by apply digits_nonempty in E|].
    exists c, l. split; [done|]. split; [by apply Forall_cons in Hm as [? _]|].
    eapply Forall_impl; [exact Hm|]. intros x. apply digit_not_space. }
  unfold str_Z. destruct (Z.ltb_spec n 0) as [Hneg|Hpos].
  - unfold python_int.
    destruct (Hd (Z.abs_N n)) as (c & l & E & Hc & Hsp).
    rewrite lstrip_int_no_space by reflexivity.
    change (String "-" (str_N (Z.abs_N n)))
      with (str_of_chars ("-"%char :: digits (Z.abs_N n))).
    rewrite rstrip_int_no_space by (rewrite E; by constructor).
    simpl. fold (str_N (Z.abs_N n)). rewrite int_digits_str_N. simpl. f_equal. lia.
  - destruct (Hd (Z.abs_N n)) as (c & l & E & Hc & Hsp).
    pose proof (int_digits_str_N (Z.abs_N n)) as Hint.
    assert (Es : str_N (Z.abs_N n) = String c (str_of_chars l))
      by (unfold str_N; by rewrite E).
    rewrite Es in Hint |- *.
    rewrite python_int_unsigned; [| done |].
    + rewrite Hint. simpl. f_equal. lia.
    + rewrite lstrip_int_no_space by (by apply Forall_cons in Hsp as [? _]).
      exact (rstrip_int_no_space (c :: l) Hsp).
Qed.

End int_text.

(** ** Names of invoice files *)
Section names.
  Import PyStr Dec Billing Spec Props.

Lemma split_no_sep (sep : ascii) (l : list ascii) :
  Forall (fun c => Ascii.eqb c sep = false) l ->
  split sep (str_of_chars l) = [str_of_chars l].
Proof.
  unfold str_of_chars. induction 1 as [|c l Hc Hl IH]; simpl; [done|].
  by rewrite Hc, IH.
Qed.

Lemma split_app_sep (sep : ascii) (l : list ascii) (rest : string) :
  Forall (fun c => Ascii.eqb c sep = false) l ->
  exists ws, split sep (str_of_chars l +:+ String sep rest) = str_of_chars l :: ws.
Proof.
  unfold str_of_chars. induction 1 as [|c l Hc Hl [ws IH]]; simpl.
  - rewrite Ascii.eqb_refl. eauto.
  - rewrite Hc, IH. eauto.
Qed.

  (** The characters of [str(n)]: a minus sign or none, then digits. *)
Lemma str_Z_chars (n : Z) :
  exists l, str_Z n = str_of_chars l /\
            Forall (fun c => c = "-"%char \/ is_Some (digit_val c)) l.
Proof.
  unfold str_Z, str_N. pose proof (digits_are_digits (Z.abs_N n)) as Hd.
  destruct (n <? 0).
  - exists ("-"%char :: digits (Z.abs_N n)). split; [done|].
    constructor; [by left|]. eapply Forall_impl; [exact Hd|]. by right.
  - exists (digits (Z.abs_N n)). split; [done|].
    eapply Forall_impl; [exact Hd|]. by right.
Qed.

Lemma sign_or_digit_not (sep : ascii) (l : list ascii) :
  sep <> "-"%char -> digit_val sep = None ->
  Forall (fun c => c = "-"%char \/ is_Some (digit_val c)) l ->
  Forall (fun c => Ascii.eqb c sep = false) l.
Proof.
  intros H1 H2 Hl. eapply Forall_impl; [exact Hl|]. intros c [->|[d Hd]].
  - apply Ascii.eqb_neq. congruence.
  - apply Ascii.eqb_neq. intros ->. congruence.
Qed.

Lemma endswith_app (p a b : string) : endswith p b = true -> endswith p (a +:+ b) = true.
Proof.
  intros H. induction a as [|c a IH]; simpl; [done|].
  rewrite IH. apply orb_true_r.
Qed.

Lemma length_append (a b : string) :
  String.length (a +:+ b) = (String.length a + String.length b)%nat.
Proof. induction a as [|c a IH]; simpl; [done|]. by rewrite IH. Qed.

Lemma endswith_csv_html (a : string) : endswith ".csv" (a +:+ ".html") = false.
Proof.
  induction a as [|c a IH]; [reflexivity|].
  change (endswith ".csv" (String c a +:+ ".html"))
    with (String.eqb (String c (a +:+ ".html")) ".csv" || endswith ".csv" (a +:+ ".html")).
  rewrite IH, orb_false_r. apply String.eqb_neq. intros H.
  apply (f_equal String.length) in H. simpl in H. rewrite length_append in H.
  simpl in H. lia.
Qed.

Lemma embedded_number_csv_name (n : Z) : embedded_number (invoice_csv_name n) = Some n.
Proof.
  unfold embedded_number, invoice_csv_name.
  destruct (str_Z_chars n) as (l & El & Hl).
  assert (H1 : split "_" ("invoice_" +:+ str_Z n +:+ ".csv") !! 1%nat
               = Some (str_Z n +:+ ".csv")).
  { change ("invoice_" +:+ str_Z n +:+ ".csv")
      with (String "i" (String "n" (String "v" (String "o" (String "i" (String "c"
             (String "e" (String "_" (str_Z n +:+ ".csv"))))))))).
    assert (Hs : split "_" (str_Z n +:+ ".csv") = [str_Z n +:+ ".csv"]).
    { rewrite El. change ".csv" with (str_of_chars (list_ascii_of_string ".csv")).
      rewrite <- str_of_chars_app. apply split_no_sep.
      apply Forall_app. split.
      - by apply sign_or_digit_not.
      - repeat constructor. }
    simpl. rewrite Hs. reflexivity. }
  rewrite H1. simpl.
  assert (H2 : split "." (str_Z n +:+ ".csv") !! 0%nat = Some (str_Z n)).
  { rewrite El.
    destruct (split_app_sep "." l "csv") as [ws Hws]; [by apply sign_or_digit_not|].
    by rewrite Hws. }
  rewrite H2. simpl. apply python_int_str_Z.
Qed.

End names.

(** ** Writing an invoice *)
Section writing.
  Import PyStr Dec Billing Spec Props.

Lemma alter_insert_row (m : gmap string FileData) (fname : string)
    (rows : list (list string)) (row : list string) :
  alter (fun d => match d with
                  | CsvRows rows => CsvRows (rows ++ [row])
                  | Text _ => d
                  end) fname (<[fname := CsvRows rows]> m)
  = <[fname := CsvRows (rows ++ [row])]> m.
Proof.
  apply map_eq. intros k. destruct (decide (k = fname)) as [->|Hne].
  - by rewrite lookup_alter_eq, !lookup_insert_eq.
  - by rewrite lookup_alter_ne, !lookup_insert_ne.
Qed.

Lemma invoice_writerow_appends (fname : string) (rows : list (list string))
    (row : list string) (s : App) :
  invoice_writerow fname row (with_invoice_file fname (CsvRows rows) s) =
  Returned tt (with_invoice_file fname (CsvRows (rows ++ [row])) s).
Proof.
  unfold invoice_writerow, modify, with_invoice_file. simpl.
  rewrite alter_insert_row. reflexivity.
Qed.

Lemma foldl_writerow (fname : string) (rs rows : list (list string)) (s : App) :
  foldl (fun s r => state_of (invoice_writerow fname r s))
        (with_invoice_file fname (CsvRows rows) s) rs
  = with_invoice_file fname (CsvRows (rows ++ rs)) s.
Proof.
  revert rows. induction rs as [|r rs IH]; intros rows; cbn [foldl].
  - by rewrite app_nil_r.
  - rewrite invoice_writerow_appends. cbn [state_of]. rewrite IH. by rewrite <- app_assoc.
Qed.

Lemma write_item_rows (fname : string) (l : list CartItem) (rows : list (list string))
    (s : App) :
  match mapM item_row l with
  | Ok rs =>
      for_each l (fun row => r ← lift (item_row row); invoice_writerow fname r)
        (with_invoice_file fname (CsvRows rows) s)
      = Returned tt (with_invoice_file fname (CsvRows (rows ++ rs)) s)
  | Raise e =>
      exists s',
        for_each l (fun row => r ← lift (item_row row); invoice_writerow fname r)
          (with_invoice_file fname (CsvRows rows) s) = Raised e s'
  end.
Proof.
  pose proof (for_each_collect l
    (fun row => r ← lift (item_row row); invoice_writerow fname r)
    item_row (fun r s => state_of (invoice_writerow fname r s))) as H.
  specialize (H ltac:(intros x s0; cbv beta; rewrite run_bind_lift; by destruct (item_row x))
                (with_invoice_file fname (CsvRows rows) s)).
  destruct (mapM item_row l) as [rs|e]; [|done].
  by rewrite H, foldl_writerow.
Qed.

Lemma write_invoice_file_run (fname : string) (d : FileData) (s : App) :
  write_invoice_file fname d s = Returned tt (with_invoice_file fname d s).
Proof. reflexivity. Qed.

Lemma ensure_then_write (fname : string) (d : FileData) (s : App) :
  with_invoice_file fname d (set_fs (ensure_invoices_dir (fs s)) s)
  = with_invoice_file fname d s.
Proof.
  unfold with_invoice_file, ensure_invoices_dir.
  destruct (invoices_dir (fs s)) eqn:E; simpl; by rewrite ?E.
Qed.

  (** [save_invoice_csv] writes the rows of the invoice, or stops where one of
      them does not render. *)
Lemma save_invoice_csv_runs (n : Z) (d : InvoiceData) (s : App) :
  match invoice_rows n d with
  | Ok rows =>
      save_invoice_csv n d s =
      Returned (invoice_csv_path n) (with_invoice_file (invoice_csv_name n) (CsvRows rows) s)
  | Raise e => exists s', save_invoice_csv n d s = Raised e s'
  end.
Proof.
  remember (save_invoice_csv n d s) as o eqn:Ho.
  unfold save_invoice_csv in Ho. unfold invoice_rows.
  rewrite run_bind_modify in Ho.
  fold (invoice_csv_name n) in Ho.
  set (fname := invoice_csv_name n) in *.
  unfold write_invoice_file in Ho. rewrite run_bind_modify in Ho.
  fold (with_invoice_file fname (CsvRows []) (set_fs (ensure_invoices_dir (fs s)) s)) in Ho.
  rewrite ensure_then_write in Ho.
  do 5 (rewrite bind_run, invoice_writerow_appends in Ho).
  cbn [app] in Ho. rewrite bind_run in Ho.
  pose proof (write_item_rows fname (items d)
    [["invoice_number"; str_Z n]; ["date"; date d];
     ["customer_name"; customer_name d]; [];
     ["code"; "name"; "price"; "qty"; "total"]] s) as Hloop.
  destruct (mapM item_row (items d)) as [rs|e]; cbn [mbind res_bind].
  2:{ destruct Hloop as [s' Hs']. rewrite Hs' in Ho. eauto. }
  rewrite Hloop in Ho.
  rewrite bind_run, invoice_writerow_appends in Ho.
  rewrite run_bind_lift in Ho.
  destruct (money (subtotal (amounts d))) as [m1|e]; cbn [mbind res_bind]; [|eauto].
  do 2 (rewrite bind_run, invoice_writerow_appends in Ho).
  rewrite run_bind_lift in Ho.
  destruct (money (gst_total (amounts d))) as [m2|e]; cbn [mbind res_bind]; [|eauto].
  rewrite bind_run, invoice_writerow_appends, run_bind_lift in Ho.
  destruct (money (cgst (amounts d))) as [m3|e]; cbn [mbind res_bind]; [|eauto].
  rewrite bind_run, invoice_writerow_appends, run_bind_lift in Ho.
  destruct (money (sgst (amounts d))) as [m4|e]; cbn [mbind res_bind]; [|eauto].
  rewrite bind_run, invoice_writerow_appends, run_bind_lift in Ho.
  destruct (money (grand_total (amounts d))) as [m5|e]; cbn [mbind res_bind]; [|eauto].
  rewrite bind_run, invoice_writerow_appends in Ho.
  rewrite <- !app_assoc in Ho. exact Ho.
Qed.

Lemma save_invoice_html_runs (n : Z) (d : InvoiceData) (s : App) :
  match invoice_html n d with
  | Ok html =>
      save_invoice_html n d s =
      Returned (invoice_html_path n) (with_invoice_file (invoice_html_name n) (Text html) s)
  | Raise e =>
      save_invoice_html n d s = Raised e (set_fs (ensure_invoices_dir (fs s)) s)
  end.
Proof.
  unfold save_invoice_html. rewrite run_bind_modify, run_bind_lift.
  destruct (invoice_html n d) as [html|e]; [|done].
  fold (invoice_html_name n).
  rewrite bind_run, write_invoice_file_run, ensure_then_write. reflexivity.
Qed.

Lemma rows_html_renders (l : list CartItem) (rs : list (list string)) :
  mapM item_row l = Ok rs -> exists h, rows_html l = Ok h.
Proof.
  revert rs. induction l as [|it l IH]; intros rs; [simpl; eauto|].
  change (mapM item_row (it :: l))
    with (y ← item_row it; k ← mapM item_row l; mret (y :: k)).
  cbn [rows_html].
  assert (Hi : item_row it = (p ← money (price it); t ← money (line_total it);
                              Ok [code it; name it; p; str_Z (qty it); t]))
    by reflexivity.
  rewrite Hi. clear Hi.
  destruct (money (price it)) as [p|e]; cbn [mbind res_bind]; [|discriminate].
  destruct (money (line_total it)) as [t|e]; cbn [mbind res_bind]; [|discriminate].
  destruct (mapM item_row l) as [rs'|e]; cbn [mbind res_bind]; [|discriminate].
  intros _. destruct (IH rs' eq_refl) as [h ->]. cbn [mbind res_bind]. eauto.
Qed.

Lemma invoice_html_renders (n : Z) (d : InvoiceData) (rows : list (list string)) :
  invoice_rows n d = Ok rows -> exists html, invoice_html n d = Ok html.
Proof.
  unfold invoice_rows, invoice_html.
  destruct (mapM item_row (items d)) as [rs|e] eqn:Hrs; simpl; [|discriminate].
  destruct (rows_html_renders _ _ Hrs) as [h ->]. simpl.
  destruct (money (subtotal (amounts d))); simpl; [|discriminate].
  destruct (money (gst_total (amounts d))); simpl; [|discriminate].
  destruct (money (cgst (amounts d))); simpl; [|discriminate].
  destruct (money (sgst (amounts d))); simpl; [|discriminate].
  destruct (money (grand_total (amounts d))); simpl; [|discriminate].
  eauto.
Qed.

End writing.

(** ** Generating an invoice *)
Section generation.
  Import PyStr Dec Billing Spec Props.

Lemma endswith_csv_html_name (n : Z) : endswith ".csv" (invoice_html_name n) = false.
Proof.
  unfold invoice_html_name. generalize (str_Z n). intros b.
  assert (H : forall a, endswith ".csv" (a +:+ b +:+ ".html") = false).
  { induction a as [|c a IH]; [apply endswith_csv_html|].
    change (endswith ".csv" (String c a +:+ b +:+ ".html"))
      with (String.eqb (String c (a +:+ b +:+ ".html")) ".csv"
            || endswith ".csv" (a +:+ b +:+ ".html")).
    rewrite IH, orb_false_r. apply String.eqb_neq. intros H.
    apply (f_equal String.length) in H. cbn [String.length] in H.
    rewrite !length_append in H. cbn [String.length] in H. lia. }
  apply H.
Qed.

Lemma csv_name_matches (n : Z) :
  startswith "invoice_" (invoice_csv_name n) = true /\
  endswith ".csv" (invoice_csv_name n) = true.
Proof.
  split.
  { unfold invoice_csv_name, startswith. generalize (str_Z n +:+ ".csv"). intros r.
    change ("invoice_" +:+ r)
      with (String "i" (String "n" (String "v" (String "o" (String "i" (String "c"
             (String "e" (String "_" r)))))))).
    destruct r; reflexivity. }
  unfold invoice_csv_name.
  apply endswith_app, endswith_app. reflexivity.
Qed.

Lemma html_name_not_csv_name (n : Z) : invoice_html_name n <> invoice_csv_name n.
Proof.
  intros H. pose proof (endswith_csv_html_name n) as H1.
  rewrite H in H1. destruct (csv_name_matches n) as [_ H2]. congruence.
Qed.

  (** The ids found once the two files of invoice [n] are in the store. *)
Lemma found_ids_after_invoice (files : FS) (n i : Z) (csv html : FileData) :
  i ∈ found_ids
        (with_invoices
           (Some (<[invoice_html_name n := html]>
                    (<[invoice_csv_name n := csv]> (default ∅ (invoices_dir files)))))
           files)
  <-> i = n \/ i ∈ found_ids files.
Proof.
  unfold found_ids. rewrite !elem_of_scan. split.
  - intros (f & Hf & Hs & He & Hi).
    apply elem_of_listdir in Hf as (d' & Hd' & Hsome). simpl in Hd'.
    injection Hd' as <-.
    destruct (decide (f = invoice_html_name n)) as [->|Hh].
    { rewrite endswith_csv_html_name in He. discriminate. }
    rewrite lookup_insert_ne in Hsome by done.
    destruct (decide (f = invoice_csv_name n)) as [->|Hc].
    { left. rewrite embedded_number_csv_name in Hi. congruence. }
    rewrite lookup_insert_ne in Hsome by done.
    right. exists f. split; [|done]. apply elem_of_listdir.
    destruct (invoices_dir files) as [d|]; simpl in Hsome.
    + eauto.
    + rewrite lookup_empty in Hsome. by destruct Hsome.
  - intros [->|(f & Hf & Hs & He & Hi)].
    + exists (invoice_csv_name n). destruct (csv_name_matches n) as [H1 H2].
      split_and!; [|done|done|apply embedded_number_csv_name].
      apply elem_of_listdir. eexists. split; [reflexivity|].
      rewrite lookup_insert_ne by apply html_name_not_csv_name.
      rewrite lookup_insert_eq. eauto.
    + exists f. split; [|done].
      apply elem_of_listdir in Hf as (d & Hd & Hsome).
      apply elem_of_listdir. eexists. split; [reflexivity|].
      rewrite Hd. simpl.
      apply lookup_insert_is_Some'. right. apply lookup_insert_is_Some'. by right.
Qed.

Lemma next_invoice_number_after_invoice (files : FS) (csv html : FileData) :
  let n := (next_invoice_number files).1 in
  (next_invoice_number
     (with_invoices
        (Some (<[invoice_html_name n := html]>
                 (<[invoice_csv_name n := csv]> (default ∅ (invoices_dir files)))))
        files)).1 = n + 1.
Proof.
  intros n. set (files' := with_invoices _ files).
  destruct (next_invoice_number_value files) as (H1 & Hub & Hin).
  destruct (next_invoice_number_value files') as (H1' & Hub' & Hin').
  cbv zeta in *. fold n in H1, Hub, Hin.
  set (n' := (next_invoice_number files').1) in *.
  assert (Hn : n < n').
  { apply Hub'. apply found_ids_after_invoice. by left. }
  destruct Hin' as [E|Hin']; [lia|].
  apply found_ids_after_invoice in Hin' as [E|Hin']; [lia|].
  apply Hub in Hin'. lia.
Qed.

Lemma csv_name_is_new (files : FS) :
  default ∅ (invoices_dir files) !! invoice_csv_name (next_invoice_number files).1 = None.
Proof.
  destruct (default ∅ (invoices_dir files) !! _) as [d|] eqn:E; [exfalso|done].
  destruct (next_invoice_number_value files) as (_ & Hub & _). cbv zeta in Hub.
  set (n := (next_invoice_number files).1) in *.
  assert (Hin : n ∈ found_ids files).
  { unfold found_ids. apply elem_of_scan. exists (invoice_csv_name n).
    destruct (csv_name_matches n) as [H1 H2].
    split_and!; [|done|done|apply embedded_number_csv_name].
    apply elem_of_listdir. destruct (invoices_dir files) as [d0|]; simpl in E.
    - eauto.
    - by rewrite lookup_empty in E. }
  apply Hub in Hin. lia.
Qed.

Lemma refresh_update_keeps_files (f0 : FS) (l0 : list Event) :
  keeps (fun s => fs s = f0 /\ log s = l0 /\ cart s = []) (refresh_cart ;; update_totals).
Proof. unfold refresh_cart, update_totals, update_labels. repeat keeps_step. Qed.

Lemma refresh_update_empty (s : App) :
  cart s = [] -> tree (state_of ((refresh_cart ;; update_totals) s)) = [].
Proof.
  intros Hc. pose proof (refresh_cart_runs s) as Hr. rewrite Hc in Hr.
  cbn [mapM] in Hr. change (mret []) with (Ok ([] : list (list string))) in Hr.
  rewrite bind_run, Hr.
  apply (update_totals_keeps_view (cart s) [] []). by rewrite Hc.
Qed.

Lemma default_ensure (files : FS) :
  default ∅ (invoices_dir (ensure_invoices_dir files)) = default ∅ (invoices_dir files) /\
  products_csv (ensure_invoices_dir files) = products_csv files /\
  elsewhere (ensure_invoices_dir files) = elsewhere files.
Proof.
  unfold ensure_invoices_dir.
  destruct (invoices_dir files) eqn:E; simpl; by rewrite ?E.
Qed.

  (** A generation whose two files render comes down to the rebuilding of the
      view and the totals on the emptied cart. *)
Lemma generate_invoice_runs (now : string) (s : App) (t : Totals)
    (rows : list (list string)) (html : string) :
  let n := (next_invoice_number (fs s)).1 in
  cart s <> [] -> totals s = Some t ->
  invoice_rows n (invoice_data now s t) = Ok rows ->
  invoice_html n (invoice_data now s t) = Ok html ->
  exists s5,
    generate_invoice now s = (refresh_cart ;; update_totals) s5 /\
    cart s5 = [] /\ gst_var s5 = gst_var s /\
    fs s5 = with_invoices
              (Some (<[invoice_html_name n := Text html]>
                       (<[invoice_csv_name n := CsvRows rows]>
                          (default ∅ (invoices_dir (fs s)))))) (fs s) /\
    log s5 = log s ++
      [showinfo "Saved" (cat ["Invoice #"; str_Z n; " saved."; nl;
                              "CSV: "; invoice_csv_path n; nl;
                              "HTML: "; invoice_html_path n]);
       open_new_tab (invoice_html_path n)].
Proof.
  intros n Hcart Htot Hrows Hhtml.
  unfold generate_invoice. rewrite run_bind_gets.
  unfold invoice_data in Hrows, Hhtml.
  destruct (cart s) as [|it rest] eqn:Ecart; [done|].
  rewrite run_bind_gets.
  rewrite (surjective_pairing (next_invoice_number (fs s))). fold n.
  change (next_invoice_number (fs s)).2 with (ensure_invoices_dir (fs s)).
  rewrite run_bind_modify, !run_bind_gets.
  change (totals (set_fs (ensure_invoices_dir (fs s)) s)) with (totals s).
  rewrite Htot.
  change (customer_entry (set_fs (ensure_invoices_dir (fs s)) s)) with (customer_entry s).
  change (gst_var (set_fs (ensure_invoices_dir (fs s)) s)) with (gst_var s).
  rewrite bind_run.
  pose proof (save_invoice_csv_runs n
    {| date := now; customer_name := strip (customer_entry s); items := it :: rest;
       gst_percent_text := gst_var s; amounts := t |}
    (set_fs (ensure_invoices_dir (fs s)) s)) as Hcsv.
  rewrite Hrows in Hcsv. rewrite Hcsv. clear Hcsv.
  rewrite bind_run.
  pose proof (save_invoice_html_runs n
    {| date := now; customer_name := strip (customer_entry s); items := it :: rest;
       gst_percent_text := gst_var s; amounts := t |}
    (with_invoice_file (invoice_csv_name n) (CsvRows rows)
       (set_fs (ensure_invoices_dir (fs s)) s))) as Hh.
  rewrite Hhtml in Hh. rewrite Hh. clear Hh.
  unfold messagebox. rewrite !run_bind_modify.
  match goal with |- context [(refresh_cart ≫= _) ?x] => set (s5 := x) end.
  exists s5. split; [reflexivity|].
  destruct (default_ensure (fs s)) as (Hd & Hp & He).
  split_and!.
  - done.
  - done.
  - subst s5. unfold with_invoice_file, with_invoices. simpl. by rewrite Hd, Hp, He.
  - subst s5. simpl. by rewrite <- app_assoc.
Qed.

  (** What a generation leaves once the two files render. *)
Lemma generate_invoice_saves (now : string) (s : App) (t : Totals)
    (rows : list (list string)) (html : string) :
  let n := (next_invoice_number (fs s)).1 in
  let s' := state_of (generate_invoice now s) in
  cart s <> [] -> totals s = Some t ->
  invoice_rows n (invoice_data now s t) = Ok rows ->
  invoice_html n (invoice_data now s t) = Ok html ->
  fs s' = with_invoices
            (Some (<[invoice_html_name n := Text html]>
                     (<[invoice_csv_name n := CsvRows rows]>
                        (default ∅ (invoices_dir (fs s)))))) (fs s) /\
  cart s' = [] /\ tree s' = [] /\
  log s' = log s ++
    [showinfo "Saved" (cat ["Invoice #"; str_Z n; " saved."; nl;
                            "CSV: "; invoice_csv_path n; nl;
                            "HTML: "; invoice_html_path n]);
     open_new_tab (invoice_html_path n)].
Proof.
  intros n s' Hcart Htot Hrows Hhtml. subst s'.
  destruct (generate_invoice_runs now s t rows html Hcart Htot Hrows Hhtml)
    as (s5 & -> & Hc5 & _ & Hfs & Hlog).
  pose proof (refresh_update_keeps_files (fs s5) (log s5) s5 ltac:(done)) as (K1 & K2 & K3).
  split_and!.
  - by rewrite K1.
  - done.
  - by apply refresh_update_empty.
  - by rewrite K2.
Qed.

  (** A generation that returns has rendered its two files. *)
Lemma generate_invoice_rendered (now : string) (s s' : App) :
  cart s <> [] -> generate_invoice now s = Returned tt s' ->
  exists t rows html,
    totals s = Some t /\
    invoice_rows (next_invoice_number (fs s)).1 (invoice_data now s t) = Ok rows /\
    invoice_html (next_invoice_number (fs s)).1 (invoice_data now s t) = Ok html.
Proof.
  intros Hcart. unfold generate_invoice. rewrite run_bind_gets.
  unfold invoice_data.
  destruct (cart s) as [|it rest] eqn:Ecart; [done|].
  rewrite run_bind_gets.
  rewrite (surjective_pairing (next_invoice_number (fs s))).
  set (n := (next_invoice_number (fs s)).1).
  change (next_invoice_number (fs s)).2 with (ensure_invoices_dir (fs s)).
  rewrite run_bind_modify, !run_bind_gets.
  change (totals (set_fs (ensure_invoices_dir (fs s)) s)) with (totals s).
  destruct (totals s) as [t|]; [|unfold raise; discriminate].
  change (customer_entry (set_fs (ensure_invoices_dir (fs s)) s)) with (customer_entry s).
  change (gst_var (set_fs (ensure_invoices_dir (fs s)) s)) with (gst_var s).
  rewrite bind_run.
  pose proof (save_invoice_csv_runs n
    {| date := now; customer_name := strip (customer_entry s); items := it :: rest;
       gst_percent_text := gst_var s; amounts := t |}
    (set_fs (ensure_invoices_dir (fs s)) s)) as Hcsv.
  destruct (invoice_rows n _) as [rows|e] eqn:Hrows.
  2:{ destruct Hcsv as [s1 ->]. discriminate. }
  intros _. destruct (invoice_html_renders _ _ _ Hrows) as [html Hhtml].
  exists t, rows, html. done.
Qed.

End generation.

(** ** Totals of an empty cart *)
Section empty_cart.
  Import PyStr Dec Billing Spec Props.

Lemma fix_zero_clamps (s : bool) (e : Z) :
  fix_ (Finite s 0 e) = Ok (Finite s 0 (Z.min (Z.max e Etiny) Emax)).
Proof. reflexivity. Qed.

Lemma compute_totals_empty (sg : bool) (c : N) (e : Z) :
  compute_totals [] (Finite sg c e) =
  Ok {| subtotal := Finite false 0 0; gst_total := Finite sg 0 (-2);
        cgst := Finite sg 0 (-2); sgst := Finite false 0 (-2);
        grand_total := Finite false 0 (-2) |}.
Proof.
  unfold compute_totals, round_half_up_2, sum_line_totals. cbn [foldl mbind res_bind].
  assert (Hmul : mul (Finite false 0 0) (Finite sg c e)
                 = Ok (Finite sg 0 (Z.min (Z.max e Etiny) Emax))).
  { unfold mul. cbn [check_nans]. rewrite N.mul_0_l. by rewrite fix_zero_clamps. }
  rewrite Hmul. cbn [mbind res_bind].
  set (e1 := Z.min (Z.max e Etiny) Emax).
  assert (He1 : Etiny <= e1 <= Emax) by (unfold e1, Etiny, Emin, Emax, prec; lia).
  assert (Hdiv : div (Finite sg 0 e1) (of_int 100) = Ok (Finite sg 0 e1)).
  { change (of_int 100) with (Finite false 100 0). unfold div. cbn [check_nans].
    change (100 =? 0)%N with false. change (0 =? 0)%N with true. cbv iota.
    rewrite xorb_false_r, Z.sub_0_r. by apply fix_zero. }
  rewrite Hdiv. cbn [mbind res_bind].
  rewrite quantize_currency_finite. change (0 =? 0)%N with true. cbv iota.
  cbn [mbind res_bind].
  assert (Hhalf : div (Finite sg 0 (-2)) (of_int 2) = Ok (Finite sg 0 (-2))).
  { change (of_int 2) with (Finite false 2 0). unfold div. cbn [check_nans].
    change (2 =? 0)%N with false. change (0 =? 0)%N with true. cbv iota.
    rewrite xorb_false_r. by destruct sg. }
  rewrite Hhalf. cbn [mbind res_bind].
  rewrite quantize_currency_finite. change (0 =? 0)%N with true. cbv iota.
  cbn [mbind res_bind].
  assert (Hsub : sub (Finite sg 0 (-2)) (Finite sg 0 (-2)) = Ok (Finite false 0 (-2))).
  { by destruct sg. }
  rewrite Hsub. cbn [mbind res_bind].
  assert (Hadd : add (Finite false 0 0) (Finite sg 0 (-2)) = Ok (Finite false 0 (-2))).
  { by destruct sg. }
  rewrite Hadd. cbn [mbind res_bind].
  rewrite quantize_currency_finite. change (0 =? 0)%N with true. cbv iota.
  reflexivity.
Qed.

Lemma money_zero (sg : bool) (e : Z) :
  e = 0 \/ e = -2 ->
  money (Finite sg 0 e) = Ok (if sg then "-0.00" else "0.00").
Proof.
  intros He. unfold money. rewrite quantize_currency_finite.
  change (0 =? 0)%N with true. cbv iota. cbn [mbind res_bind]. by destruct sg.
Qed.

  (** With an empty cart and a finite rate [update_totals] returns, whatever
      the size of the rate. *)
Lemma update_totals_empty (s : App) (sg : bool) (c : N) (e : Z) :
  cart s = [] -> parsed_rate (gst_var s) = Finite sg c e ->
  update_totals s =
  Returned tt
    (set_grand_label "Grand Total: 0.00"
       (set_gst_label (cat ["GST: "; if sg then "-0.00" else "0.00"; " (";
                            if sg then "-0.00" else "0.00"; " CGST + "; "0.00"; " SGST)"])
          (set_subtotal_label "Subtotal: 0.00"
             (set_totals
                (Some {| subtotal := Finite false 0 0; gst_total := Finite sg 0 (-2);
                         cgst := Finite sg 0 (-2); sgst := Finite false 0 (-2);
                         grand_total := Finite false 0 (-2) |})
                (rate_fallback s))))).
Proof.
  intros Hc Hr. pose proof (update_totals_computes s) as H.
  rewrite Hc, Hr, compute_totals_empty in H. rewrite H.
  unfold update_labels. cbn [subtotal gst_total cgst sgst grand_total].
  rewrite (money_zero false 0) by (by left).
  rewrite (money_zero sg (-2)) by (by right).
  rewrite (money_zero false (-2)) by (by right).
  reflexivity.
Qed.

End empty_cart.

(** ** Reloading the catalog *)
Section reload.
  Import PyStr Dec Billing Spec Props.

Lemma refresh_product_list_keeps_rest (s0 : App) :
  keeps (fun s => products s = products s0 /\ fs s = fs s0 /\ log s = log s0 /\
                  display s = display s0) refresh_product_list.
Proof. unfold refresh_product_list, display. repeat keeps_step. Qed.

Lemma load_products_csv_cancelled (s : App) :
  load_products_csv EmptyString s = Returned tt s.
Proof. reflexivity. Qed.

Lemma load_products_csv_missing (path : string) (s : App) :
  path <> EmptyString -> elsewhere (fs s) !! path = None ->
  load_products_csv path s = Returned tt (set_log (log s ++ [showerror "Error" OSError]) s).
Proof.
  intros Hp Hnone. unfold load_products_csv. destruct path as [|a path]; [done|].
  unfold try_except. rewrite run_bind_gets, Hnone, bind_run. reflexivity.
Qed.

Lemma load_products_csv_found (path : string) (rows : list (list string)) (s : App) :
  path <> EmptyString -> elsewhere (fs s) !! path = Some rows ->
  exists s' e,
    load_products_csv path s = Returned tt s' /\
    fs s' = {| products_csv := Some rows; invoices_dir := invoices_dir (fs s);
               elsewhere := elsewhere (fs s) |} /\
    products s' = read_products (fs s') /\
    log s' = log s ++ [e] /\
    display s' = display s.
Proof.
  intros Hp Hsome. unfold load_products_csv. destruct path as [|a path]; [done|].
  set (p := String a path) in *.
  unfold try_except. rewrite run_bind_gets, Hsome, run_bind_ret, run_bind_modify,
    run_bind_gets, run_bind_modify.
  match goal with |- context [(refresh_product_list ≫= _) ?x] => set (s2 := x) end.
  pose proof (refresh_product_list_keeps_rest s2 s2 ltac:(done)) as (K1 & K2 & K3 & K4).
  rewrite bind_run.
  destruct (refresh_product_list s2) as [[] s3|e s3]; simpl in K1, K2, K3, K4.
  - eexists _, _. split; [reflexivity|]. unfold messagebox, modify. simpl.
    rewrite K1, K2, K3. unfold display in *. simpl. done.
  - eexists _, _. split; [reflexivity|]. unfold messagebox, modify. simpl.
    rewrite K1, K2, K3. unfold display in *. simpl. done.
Qed.

End reload.

(** ** Sessions in which every callback returns *)
Section returning_sessions.
  Import PyStr Dec Billing Spec Props.

Lemma is_returned_state_of (o : outcome unit) :
  is_returned o = true -> o = Returned tt (state_of o).
Proof. destruct o as [[] s|e s]; [done|discriminate]. Qed.

Lemma session_returning (l : list action) (s : App) :
  returning s -> all_returned l s -> returning (session l s).
Proof.
  unfold session. revert s. induction l as [|a l IH]; intros s Hs Hl; simpl; [done|].
  destruct Hl as (Ha & Hr & Hl). apply IH; [|done].
  apply (ret_step a s); [done|done|]. by apply is_returned_state_of.
Qed.

Lemma returning_reachable (s : App) : returning s -> reachable s.
Proof.
  induction 1 as [files s Hinit|a s s' Hs IH Hen Hrun].
  - by apply (reach_init files).
  - replace s' with (state_of (run a s)) by (by rewrite Hrun). by apply reach_step.
Qed.

End returning_sessions.

(** ** The product list *)
Section product_list.
  Import PyStr Dec Billing Spec Props.

Lemma insert_sorted_perm (x : string * Product) (l : list (string * Product)) :
  insert_sorted x l ≡ₚ x :: l.
Proof.
  induction l as [|y l IH]; simpl; [done|].
  destruct (String.leb x.1 y.1); [done|].
  rewrite IH. apply Permutation_swap.
Qed.

Lemma sorted_items_perm (products : gmap string Product) :
  sorted_items products ≡ₚ map_to_list products.
Proof.
  unfold sorted_items. induction (map_to_list products) as [|x l IH]; simpl; [done|].
  by rewrite insert_sorted_perm, IH.
Qed.

Lemma elem_of_sorted_items (products : gmap string Product) (c : string) (p : Product) :
  (c, p) ∈ sorted_items products <-> products !! c = Some p.
Proof. rewrite sorted_items_perm. apply elem_of_map_to_list. Qed.

Lemma insert_sorted_sorted (x : string * Product) (l : list (string * Product)) :
  Sorted (fun a b => String.leb a.1 b.1 = true) l ->
  Sorted (fun a b => String.leb a.1 b.1 = true) (insert_sorted x l).
Proof.
  induction 1 as [|y l Hl IH Hy]; simpl.
  - by repeat constructor.
  - destruct (String.leb x.1 y.1) eqn:E.
    + constructor; [by constructor|]. by constructor.
    + constructor; [done|].
      assert (Hyx : String.leb y.1 x.1 = true).
      { destruct (String.leb_total x.1 y.1) as [H|H]; [congruence|done]. }
      destruct l as [|z l]; simpl; [by constructor|].
      destruct (String.leb x.1 z.1); constructor; [done|].
      by inversion Hy.
Qed.

Lemma sorted_items_sorted (products : gmap string Product) :
  Sorted (fun a b => String.leb a.1 b.1 = true) (sorted_items products).
Proof.
  unfold sorted_items. induction (map_to_list products) as [|x l IH]; simpl.
  - constructor.
  - by apply insert_sorted_sorted.
Qed.

  (** A loop that raises has done the iterations before the raise. *)
Lemma for_each_prefix {A R : Type} (l : list A) (body : A -> M unit)
    (f : A -> res R) (g : R -> App -> App) :
  (forall x s, body x s = match f x with
                          | Ok r => Returned tt (g r s)
                          | Raise e => Raised e s
                          end) ->
  forall s, exists k rows,
    mapM f (take k l) = Ok rows /\
    state_of (for_each l body s) = foldl (fun s r => g r s) s rows.
Proof.
  intros Hb. induction l as [|x l IH]; intros s.
  - by exists 0%nat, [].
  - cbn [for_each]. rewrite bind_run, Hb.
    destruct (f x) as [r|e] eqn:Hx.
    + destruct (IH (g r s)) as (k & rows & Hk & Hs).
      exists (S k), (r :: rows). split; [|done].
      cbn [take mapM]. rewrite Hx. cbn [mbind res_bind].
      change (mapM f (take k l)) with (mapM f (take k l)). by rewrite Hk.
    + by exists 0%nat, [].
Qed.

Lemma foldl_listbox_lines (lines : list string) (s : App) :
  foldl (fun s r => set_product_listbox (product_listbox s ++ [r]) s) s lines
  = set_product_listbox (product_listbox s ++ lines) s.
Proof.
  revert s. induction lines as [|r lines IH]; intros s; simpl.
  - rewrite app_nil_r. by destruct s.
  - rewrite IH. unfold set_product_listbox. simpl. by rewrite <- app_assoc.
Qed.

Lemma product_list_body (x : string * Product) (s : App) :
  (let '(code, p) := x in
   m ← lift (money (prod_price p));
   modify (fun s =>
     set_product_listbox
       (product_listbox s ++ [cat [code; " | "; prod_name p; " | "; m]]) s)) s
  = match product_line x with
    | Ok r => Returned tt (set_product_listbox (product_listbox s ++ [r]) s)
    | Raise e => Raised e s
    end.
Proof.
  destruct x as [c p]. unfold product_line. cbn [fst snd].
  rewrite run_bind_lift. by destruct (money (prod_price p)).
Qed.

  (** [refresh_product_list] lists the catalog in the order of the codes, and
      stops at the first price that does not render. *)
Lemma refresh_product_list_runs (s : App) :
  match mapM product_line (sorted_items (products s)) with
  | Ok lines =>
      refresh_product_list s =
      Returned tt (set_product_listbox lines (set_listbox_selection [] s))
  | Raise e => exists s', refresh_product_list s = Raised e s'
  end.
Proof.
  unfold refresh_product_list. rewrite run_bind_modify, run_bind_gets.
  change (products (set_listbox_selection [] (set_product_listbox [] s)))
    with (products s).
  match goal with |- context [for_each _ ?b _] =>
    pose proof (for_each_collect (sorted_items (products s)) b product_line
      (fun r s => set_product_listbox (product_listbox s ++ [r]) s)
      product_list_body (set_listbox_selection [] (set_product_listbox [] s))) as H
  end.
  destruct (mapM product_line (sorted_items (products s))) as [lines|e]; [|done].
  rewrite H, foldl_listbox_lines. reflexivity.
Qed.

Lemma refresh_product_list_state (s : App) :
  let s' := state_of (refresh_product_list s) in
  products s' = products s /\ listbox_shows_catalog s'.
Proof.
  cbv zeta. unfold refresh_product_list. rewrite run_bind_modify, run_bind_gets.
  change (products (set_listbox_selection [] (set_product_listbox [] s)))
    with (products s).
  match goal with |- context [for_each _ ?b _] =>
    destruct (for_each_prefix (sorted_items (products s)) b product_line
      (fun r s => set_product_listbox (product_listbox s ++ [r]) s)
      product_list_body (set_listbox_selection [] (set_product_listbox [] s)))
      as (k & lines & Hk & Hs)
  end.
  rewrite Hs, foldl_listbox_lines. split; [done|].
  exists k. done.
Qed.

End product_list.

(** ** The product list during a session *)
Section listed.
  Import PyStr Dec Billing Spec Props.

Lemma update_totals_keeps_catalog (p0 : gmap string Product) (l0 : list string) :
  keeps (fun s => products s = p0 /\ product_listbox s = l0) update_totals.
Proof. unfold update_totals, update_labels. repeat keeps_step. Qed.

Lemma run_keeps_catalog (a : action) (p0 : gmap string Product) (l0 : list string) :
  (forall path, a <> LoadProductsCsv path) ->
  keeps (fun s => products s = p0 /\ product_listbox s = l0) (run a).
Proof.
  intros Ha. destruct a; simpl.
  1-5: by apply keeps_modify.
  - unfold add_selected_product, refresh_cart, update_totals, update_labels.
    repeat keeps_step.
  - unfold remove_selected, refresh_cart, update_totals, update_labels.
    repeat keeps_step.
  - unfold clear_cart, refresh_cart, update_totals, update_labels.
    repeat keeps_step.
  - unfold generate_invoice, save_invoice_csv, save_invoice_html, invoice_writerow,
      write_invoice_file, refresh_cart, update_totals, update_labels.
    repeat keeps_step.
  - unfold export_cart_csv. repeat keeps_step.
  - unfold open_invoices_folder. repeat keeps_step.
  - by destruct (Ha path).
Qed.

Lemma load_products_csv_listed (path : string) :
  keeps listbox_shows_catalog (load_products_csv path).
Proof.
  intros s Hs. unfold load_products_csv. destruct path as [|a path]; [done|].
  set (p := String a path).
  unfold try_except. rewrite run_bind_gets.
  destruct (elsewhere (fs s) !! p) as [rows|].
  2:{ rewrite bind_run. exact Hs. }
  rewrite run_bind_ret, run_bind_modify, run_bind_gets, run_bind_modify.
  match goal with |- context [(refresh_product_list ≫= _) ?x] => set (s2 := x) end.
  destruct (refresh_product_list_state s2) as [Kp [k Hk]].
  rewrite bind_run.
  destruct (refresh_product_list s2) as [[] s3|e s3]; simpl in Kp, Hk |- *;
    exists k; exact Hk.
Qed.

Lemma init_listed (files : FS) (s : App) :
  init (blank files) = Returned tt s -> listbox_shows_catalog s.
Proof.
  unfold init. rewrite run_bind_gets, run_bind_modify, run_bind_gets.
  intros H.
  apply bind_returned in H as ([] & s1 & H1 & H).
  rewrite !run_bind_modify in H.
  apply bind_returned in H as ([] & s2 & H2 & H).
  apply bind_returned in H as ([] & s3 & H3 & H).
  destruct (refresh_product_list_state s2) as [Kp [k Hk]].
  rewrite H3 in Kp, Hk. simpl in Kp, Hk.
  pose proof (update_totals_keeps_catalog (products s3) (product_listbox s3) s3
                ltac:(done)) as K.
  rewrite H in K. simpl in K. destruct K as [K1 K2].
  exists k. by rewrite K1, K2.
Qed.

Lemma reachable_listed (s : App) : reachable s -> listbox_shows_catalog s.
Proof.
  induction 1 as [files s Hinit|a s Hreach IH Hen].
  - by apply (init_listed files).
  - assert ((exists path, a = LoadProductsCsv path) \/
            (forall path, a <> LoadProductsCsv path)) as [[path ->]|Ha]
      by (destruct a; (by right) || (left; eauto)).
    + by apply load_products_csv_listed.
    + destruct IH as [k Hk].
      pose proof (run_keeps_catalog a (products s) (product_listbox s) Ha s
                    ltac:(done)) as [K1 K2].
      exists k. by rewrite K1, K2.
Qed.

  (** What a line of the list stands for. *)
Lemma listed_line (s : App) (idx : nat) (line : string) :
  listbox_shows_catalog s -> product_listbox s !! idx = Some line ->
  exists c p m,
    sorted_items (products s) !! idx = Some (c, p) /\
    products s !! c = Some p /\
    money (prod_price p) = Ok m /\
    line = cat [c; " | "; prod_name p; " | "; m].
Proof.
  intros [k Hk] Hline.
  destruct (mapM_res_lookup _ _ _ Hk) as [Hlen Hl].
  assert (Hlt : (idx < length (take k (sorted_items (products s))))%nat).
  { rewrite <- Hlen. by apply lookup_lt_Some in Hline. }
  destruct (lookup_lt_is_Some_2 _ _ Hlt) as [[c p] Hx].
  destruct (Hl idx (c, p) Hx) as (y & Hy & Hy').
  rewrite Hline in Hy'. injection Hy' as ->.
  apply lookup_take_Some in Hx as [Hx _].
  exists c, p. unfold product_line in Hy. cbn [fst snd] in Hy.
  destruct (money (prod_price p)) as [m|e]; [|discriminate].
  exists m. injection Hy as <-. split_and!; try done.
  apply elem_of_sorted_items. by apply list_elem_of_lookup_2 in Hx.
Qed.

End listed.

(** ** Reading the code off a line *)
Section line_code.
  Import PyStr Dec Billing Spec Props.

Lemma append_snoc (a : string) (x : ascii) (r : string) :
  a +:+ String x r = (a +:+ String x EmptyString) +:+ r.
Proof.
  induction a as [|y a IH]; [reflexivity|].
  change (String y (a +:+ String x r) = String y ((a +:+ String x EmptyString) +:+ r)).
  by rewrite IH.
Qed.

Lemma length_lstrip (s : string) : (String.length (lstrip s) <= String.length s)%nat.
Proof.
  induction s as [|c s IH]; simpl; [lia|]. destruct (isspace c); simpl; lia.
Qed.

Lemma length_rstrip (s : string) : (String.length (rstrip s) <= String.length s)%nat.
Proof.
  induction s as [|c s IH]; simpl; [lia|].
  destruct (rstrip s); [destruct (isspace c)|]; simpl in *; lia.
Qed.

Lemma rstrip_snoc_space (a : string) (x : ascii) :
  isspace x = true -> rstrip (a +:+ String x EmptyString) = rstrip a.
Proof.
  intros Hx. induction a as [|c a IH].
  - change (rstrip (String x EmptyString) = EmptyString). simpl. by rewrite Hx.
  - change (rstrip (String c (a +:+ String x EmptyString)) = rstrip (String c a)).
    simpl. by rewrite IH.
Qed.

  (** A stripped code is empty or starts with a character that is no white
      space. *)
Lemma stripped_head (a : ascii) (c : string) :
  strip (String a c) = String a c -> isspace a = false.
Proof.
  intros H. destruct (isspace a) eqn:E; [exfalso|done].
  apply (f_equal String.length) in H. unfold strip in H. simpl in H. rewrite E in H.
  pose proof (length_rstrip (lstrip c)). pose proof (length_lstrip c). lia.
Qed.

Lemma strip_snoc_space (c : string) :
  strip c = c -> c <> EmptyString -> strip (c +:+ " ") = c.
Proof.
  intros Hs Hne. destruct c as [|a c]; [done|].
  pose proof (stripped_head a c Hs) as Ha.
  unfold strip in *.
  change (String a c +:+ " ") with (String a (c +:+ " ")).
  assert (Hl : forall r, lstrip (String a r) = String a r)
    by (intros r; simpl; by rewrite Ha).
  rewrite Hl in Hs |- *.
  change (String a (c +:+ " ")) with (String a c +:+ " ").
  by rewrite rstrip_snoc_space.
Qed.

Lemma selected_line_code (c name m : string) :
  clean_code c -> c <> EmptyString ->
  strip (default EmptyString (head (split "|" (cat [c; " | "; name; " | "; m])))) = c.
Proof.
  intros [Hs Hbar] Hne.
  change (cat [c; " | "; name; " | "; m])
    with (c +:+ String " " (String "|" (String " " (name +:+ " | " +:+ m)))).
  rewrite append_snoc.
  assert (Hc : c +:+ " " = str_of_chars (list_ascii_of_string c ++ [" "%char])).
  { rewrite str_of_chars_app. unfold str_of_chars.
    by rewrite string_of_list_ascii_of_string. }
  rewrite Hc.
  destruct (split_app_sep "|" (list_ascii_of_string c ++ [" "%char])
              (String " " (name +:+ " | " +:+ m))) as [ws Hws].
  { apply Forall_app. split; [|by repeat constructor].
    eapply Forall_impl; [exact Hbar|]. intros x Hx. by apply Ascii.eqb_neq. }
  rewrite Hws. cbn [head default]. rewrite <- Hc. by apply strip_snoc_space.
Qed.

End line_code.

(** ** The subtotal *)
Section subtotal.
  Import PyStr Dec Billing Spec Props.

Lemma add_zero_first (c : N) :
  (c < pow10 prec)%N ->
  add (Finite false 0 0) (Finite false c (-2)) = Ok (Finite false c (-2)).
Proof.
  intros Hc. unfold add. cbn [check_nans]. change (0 =? 0)%N with true.
  cbn [andb]. destruct (N.eqb_spec c 0) as [->|Hne]; [reflexivity|].
  unfold rescale. destruct (N.eqb_spec c 0) as [->|_]; [done|].
  change (Z.max (Z.min 0 (-2)) (-2 - prec - 1)) with (-2).
  change (-2 <=? -2) with true. cbv iota.
  change (pow10 (-2 - -2)) with 1%N. rewrite N.mul_1_r.
  apply fix_fits; [by apply ndigits_small|apply currency_exp_range].
Qed.

Lemma add_hundredths (a c : N) :
  (a + c < pow10 prec)%N ->
  add (Finite false a (-2)) (Finite false c (-2)) = Ok (Finite false (a + c) (-2)).
Proof.
  intros H.
  rewrite add_same_exp;
    [|apply currency_exp_range|apply ndigits_small; lia|apply ndigits_small; lia].
  cbn [xorb]. apply fix_fits; [by apply ndigits_small|apply currency_exp_range].
Qed.

Lemma foldl_add_hundredths (cart : list CartItem) (a : N) :
  Forall (fun it => exists c, line_total it = Finite false c (-2)) cart ->
  (a + sum_hundredths cart < pow10 prec)%N ->
  foldl (fun acc it => subtotal ← acc; add subtotal (line_total it))
        (Ok (Finite false a (-2))) cart
  = Ok (Finite false (a + sum_hundredths cart) (-2)).
Proof.
  intros Hall. revert a. induction Hall as [|it rest [c Hc] Hrest IH]; intros a Hlt.
  - simpl. by rewrite N.add_0_r.
  - cbn [foldl sum_hundredths foldr] in *. rewrite Hc in *. cbn [hundredths] in *.
    cbn [mbind res_bind]. rewrite add_hundredths by lia.
    fold (sum_hundredths rest) in *.
    rewrite IH by lia. do 2 f_equal. lia.
Qed.

End subtotal.

(** ** Start-up *)
Section startup.
  Import PyStr Dec Billing Spec Props.



End startup.

(** ** An add that fails after the increment *)
Section failed_add.
  Import PyStr Dec Billing Spec Props.

Lemma add_selected_product_raises_incremented (s : App) (c : string) (prod : Product)
    (q : Z) (l1 l2 : list CartItem) (it : CartItem) (lt : Decimal) (e : exn) :
  selected_code s = Some c -> products s !! c = Some prod ->
  qty_var s = Some q -> 0 < q ->
  cart s = l1 ++ it :: l2 -> code it = c -> c ∉ codes l1 ->
  (p ← mul (prod_price prod) (of_int q); round_half_up_2 p) = Ok lt ->
  (p ← mul (price it) (of_int (qty it + q)); round_half_up_2 p) = Raise e ->
  add_selected_product s =
  Raised e (set_cart (l1 ++ {| code := code it; name := name it; price := price it;
                               qty := qty it + q; line_total := line_total it |} :: l2) s).
Proof.
  unfold selected_code, add_selected_product. rewrite run_bind_gets.
  destruct (listbox_selection s) as [|idx sel]; [discriminate|].
  intros [= <-] Hprod Hq Hpos Hcart Hit Hnot Hlt Hraise.
  rewrite !run_bind_gets, Hprod, run_bind_gets, Hq, run_bind_ret.
  destruct (Z.leb_spec q 0) as [Hle|_]; [lia|].
  unfold round_half_up_2 in Hlt. rewrite run_bind_lift, Hlt.
  rewrite run_bind_gets, Hcart, increment_line_found by done.
  rewrite Hraise. rewrite run_bind_modify, run_bind_lift. reflexivity.
Qed.

End failed_add.

(** ** Exporting the cart *)
Section export.
  Import PyStr Dec Billing Spec Props.

Lemma export_cart_csv_runs (path : string) (s : App) :
  cart s <> [] -> path <> EmptyString ->
  match mapM item_row (cart s) with
  | Ok rows =>
      exists s',
        export_cart_csv path s = Returned tt s' /\
        elsewhere (fs s') !! path = Some (CART_HEADER :: rows) /\
        log s' = log s ++ [showinfo "Exported" ("Cart exported to " +:+ path)]
  | Raise e => exists s', export_cart_csv path s = Raised e s'
  end.
Proof.
  intros Hcart Hpath.
  remember (export_cart_csv path s) as o eqn:Ho.
  unfold export_cart_csv in Ho. rewrite run_bind_gets in Ho.
  destruct (cart s) as [|it rest] eqn:Ecart; [done|].
  destruct path as [|a path]; [done|]. set (p := String a path) in *.
  cbv zeta in Ho. rewrite run_bind_modify, bind_run in Ho.
  set (g := fun (r : list string) (s : App) =>
         set_fs {| products_csv := products_csv (fs s);
                   invoices_dir := invoices_dir (fs s);
                   elsewhere := <[p := default [] (elsewhere (fs s) !! p) ++ [r]]>
                                  (elsewhere (fs s)) |} s).
  match type of Ho with context [match ?m ?x with _ => _ end] =>
    change (m x) with (Returned tt (g ["code"; "name"; "price"; "qty"; "total"] x)) in Ho;
    set (s1 := g ["code"; "name"; "price"; "qty"; "total"] x) in Ho
  end.
  cbv iota beta in Ho. rewrite bind_run in Ho.
  match type of Ho with context [for_each _ ?b _] =>
    pose proof (for_each_collect (it :: rest) b item_row g) as H
  end.
  specialize (H ltac:(intros x s0; cbv beta; rewrite run_bind_lift;
                      by destruct (item_row x)) s1).
  destruct (mapM item_row (it :: rest)) as [rows|e].
  2:{ destruct H as [s' Hs']. rewrite Hs' in Ho. eauto. }
  rewrite H in Ho.
  destruct (foldl_export_rows p rows s1 [CART_HEADER]) as [H1 H2].
  { subst s1 g. simpl. rewrite lookup_insert_eq. simpl. rewrite lookup_insert_eq. done. }
  cbv zeta in H1, H2. fold g in H1, H2.
  eexists. split; [exact Ho|]. unfold messagebox, modify.
  split; [exact H1|]. cbn [log set_log]. unfold g. cbv beta. rewrite H2. reflexivity.
Qed.


End export.

(** ** A generation that returns *)
Section generation_returns.
  Import PyStr Dec Billing Spec Props.

Lemma refresh_cart_empty (s : App) :
  cart s = [] ->
  refresh_cart s = Returned tt (set_tree [] (set_tree_selection [] s)).
Proof.
  intros Hc. pose proof (refresh_cart_runs s) as Hr. by rewrite Hc in Hr.
Qed.

Lemma refresh_update_empty_returns (s : App) (sg : bool) (c : N) (e : Z) :
  cart s = [] -> parsed_rate (gst_var s) = Finite sg c e ->
  is_returned ((refresh_cart ;; update_totals) s) = true.
Proof.
  intros Hc Hr. rewrite bind_run, refresh_cart_empty by done.
  by rewrite (update_totals_empty _ sg c e).
Qed.

Lemma invoice_rows_shown (now : string) (s : App) (t : Totals) (n : Z)
    (m_sub m_gst m_cgst m_sgst m_grand : string) :
  view_shows_cart s ->
  money (subtotal t) = Ok m_sub -> money (gst_total t) = Ok m_gst ->
  money (cgst t) = Ok m_cgst -> money (sgst t) = Ok m_sgst ->
  money (grand_total t) = Ok m_grand ->
  invoice_rows n (invoice_data now s t) =
  Ok ([["invoice_number"; str_Z n]; ["date"; now];
       ["customer_name"; strip (customer_entry s)]; [];
       ["code"; "name"; "price"; "qty"; "total"]]
      ++ tree s ++
      [[]; ["subtotal"; m_sub]; ["gst_percent"; gst_var s]; ["gst_total"; m_gst];
       ["cgst"; m_cgst]; ["sgst"; m_sgst]; ["grand_total"; m_grand]]).
Proof.
  unfold view_shows_cart, invoice_rows, invoice_data. cbn [items amounts date
    customer_name gst_percent_text].
  intros -> -> -> -> -> ->. reflexivity.
Qed.

End generation_returns.

(** ** What stays during a session *)
Section kept.
  Import PyStr Dec Billing Spec Props.

Lemma run_keeps_totals_stored (a : action) :
  keeps (fun s => is_Some (totals s)) (run a).
Proof.
  destruct a; simpl.
  1-5: by apply keeps_modify.
  - unfold add_selected_product, refresh_cart, update_totals, update_labels.
    repeat keeps_step. eauto.
  - unfold remove_selected, refresh_cart, update_totals, update_labels.
    repeat keeps_step. eauto.
  - unfold clear_cart, refresh_cart, update_totals, update_labels.
    repeat keeps_step. eauto.
  - unfold generate_invoice, save_invoice_csv, save_invoice_html, invoice_writerow,
      write_invoice_file, refresh_cart, update_totals, update_labels.
    repeat keeps_step. eauto.
  - unfold export_cart_csv. repeat keeps_step.
  - unfold open_invoices_folder. repeat keeps_step.
  - unfold load_products_csv, refresh_product_list. repeat keeps_step.
Qed.

Lemma reachable_totals_stored (s : App) : reachable s -> is_Some (totals s).
Proof.
  induction 1 as [files s Hinit|a s Hreach IH Hen].
  - apply init_returned in Hinit as (s2 & _ & _ & Hu).
    apply update_totals_labels in Hu as (t & _ & _ & _ & _ & _ & Ht & _). eauto.
  - by apply run_keeps_totals_stored.
Qed.



Lemma refresh_update_keeps_fs (f0 : FS) :
  keeps (fun s => fs s = f0) (refresh_cart ;; update_totals).
Proof. unfold refresh_cart, update_totals, update_labels. repeat keeps_step. Qed.



End kept.

(** ** Further properties of the callbacks *)
Section further_properties.
  Import PyStr Dec Billing Spec Props.

(** X1: in a session in which every callback so far has returned, the cart
    view shows the cart: it has one row per cart line, in the order of the
    lines, and the row of a line holds its code, its name, its price rendered
    as money, its quantity and its total rendered as money. *)
Theorem view_shows_cart_after_returns (s : App) :
  returning s ->
  mapM item_row (cart s) = Ok (tree s) /\
  length (tree s) = length (cart s) /\
  (forall i it, cart s !! i = Some it ->
     exists p t, money (price it) = Ok p /\ money (line_total it) = Ok t /\
                 tree s !! i = Some [code it; name it; p; str_Z (qty it); t]).
Proof.
  intros Hs. destruct (returning_display s Hs) as [Hv _].
  unfold view_shows_cart in Hv. split; [done|].
  destruct (mapM_res_lookup _ _ _ Hv) as [Hlen Hl]. split; [done|].
  intros i it Hit. destruct (Hl i it Hit) as (y & Hy & Hy').
  unfold item_row in Hy.
  destruct (money (price it)) as [p|e]; [|discriminate].
  destruct (money (line_total it)) as [t|e]; [|discriminate].
  injection Hy as <-. by exists p, t.
Qed.

Lemma view_shows_cart_after_returns_witness :
  length (tree added_X_3) = length (cart added_X_3).
Proof.
  destruct (view_shows_cart_after_returns added_X_3) as (_ & H & _); [|exact H].
  apply session_returning.
  - apply (ret_init catalog_X). vm_compute. reflexivity.
  - vm_compute. repeat split. constructor; [lia|constructor].
Defined.

(** X2: in a session in which every callback so far has returned, totals are
    stored and the three labels show them: each of the five stored amounts
    renders as money, and the labels read Subtotal, GST with its two halves,
    and Grand Total with these renderings. *)
Theorem labels_show_stored_totals (s : App) :
  returning s -> labels_show_totals s.
Proof. intros Hs. by destruct (returning_display s Hs). Qed.

Lemma labels_show_stored_totals_witness : labels_show_totals added_X_3.
Proof.
  apply labels_show_stored_totals.
  apply session_returning.
  - apply (ret_init catalog_X). vm_compute. reflexivity.
  - vm_compute. repeat split. constructor; [lia|constructor].
Defined.

(** X3: in a session in which every callback so far has returned, the total
    of every cart line is the product of the line's own price and quantity,
    rounded half up to two decimals. *)
Theorem line_totals_are_rounded_products (s : App) :
  returning s -> Forall line_ok (cart s).
Proof. apply returning_lines. Qed.

Lemma line_totals_are_rounded_products_witness : Forall line_ok (cart added_X_3).
Proof.
  apply line_totals_are_rounded_products.
  apply session_returning.
  - apply (ret_init catalog_X). vm_compute. reflexivity.
  - vm_compute. repeat split. constructor; [lia|constructor].
Defined.

(** X4: in every state of a session, whether the callbacks returned or
    raised, the catalog has no entry under the empty code, every cart line
    has a quantity of at least 1 and a code that is not empty, and totals are
    stored, so that [generate_invoice] never fails for a missing total. *)
Theorem cart_lines_well_formed (s : App) :
  reachable s ->
  products s !! EmptyString = None /\ Forall well_formed_line (cart s) /\
  is_Some (totals s).
Proof.
  intros Hs. destruct (reachable_well_formed s Hs) as [H1 H2].
  split_and!; [done|done|by apply reachable_totals_stored].
Qed.

Lemma cart_lines_well_formed_witness : Forall well_formed_line (cart added_2_then_3).
Proof.
  destruct (cart_lines_well_formed added_2_then_3) as (_ & H & _); [|exact H].
  apply session_reachable.
  - apply (reach_init catalog_A_twice). vm_compute. reflexivity.
  - vm_compute. repeat split. constructor; [lia|constructor].
Defined.

(** X5: [remove_selected] leaves, returning or raising, the cart without the
    lines whose code is in the first column of a selected row of the view, and
    with every other line as it was and in the same order; this for a cart
    with one line per code, as every cart of a session is. *)
Theorem remove_selected_drops_selected_codes (s : App) :
  one_per_code s ->
  cart (state_of (remove_selected s)) =
  filter (fun it => code it ∉ selected_codes s) (cart s).
Proof.
  intros Hs. rewrite remove_selected_cart. by apply foldl_remove_first_filter.
Qed.

Lemma remove_selected_drops_selected_codes_witness :
  cart (state_of (remove_selected row_selected)) =
  filter (fun it => code it ∉ selected_codes row_selected) (cart row_selected).
Proof.
  apply remove_selected_drops_selected_codes.
  unfold one_per_code.
  assert (E : codes (cart row_selected) = ["X"]) by (vm_compute; reflexivity).
  rewrite E. apply NoDup_singleton.
Defined.


(** X7: with a cart that is not empty and a path that is not empty,
    [export_cart_csv] returns exactly when every cart line renders; the file
    at the path then holds the header row followed by one row per line, and
    the user is told so.  When every callback of the session so far has
    returned, the export returns and the rows after the header are the rows
    of the cart view. *)
Theorem export_cart_csv_writes_header_and_lines (path : string) (s : App) :
  cart s <> [] -> path <> EmptyString ->
  match mapM item_row (cart s) with
  | Ok rows =>
      exists s',
        export_cart_csv path s = Returned tt s' /\
        elsewhere (fs s') !! path = Some (CART_HEADER :: rows) /\
        log s' = log s ++ [showinfo "Exported" ("Cart exported to " +:+ path)]
  | Raise e => exists s', export_cart_csv path s = Raised e s'
  end /\
  (returning s ->
   exists s', export_cart_csv path s = Returned tt s' /\
              elsewhere (fs s') !! path = Some (CART_HEADER :: tree s)).
Proof.
  intros Hcart Hpath. pose proof (export_cart_csv_runs path s Hcart Hpath) as H.
  split; [exact H|]. intros Hs. destruct (returning_display s Hs) as [Hv _].
  unfold view_shows_cart in Hv. rewrite Hv in H.
  destruct H as (s' & H1 & H2 & _). eauto.
Qed.

Lemma export_cart_csv_writes_header_and_lines_witness :
  is_returned (export_cart_csv "cart.csv" added_X_3) = true.
Proof.
  destruct (export_cart_csv_writes_header_and_lines "cart.csv" added_X_3) as [_ H].
  - intros E. vm_compute in E. discriminate E.
  - discriminate.
  - destruct H as (s' & -> & _); [|reflexivity].
    apply session_returning.
    + apply (ret_init catalog_X). vm_compute. reflexivity.
    + vm_compute. repeat split. constructor; [lia|constructor].
Defined.

(** X8: [save_invoice_csv] returns exactly when every item row and the five
    amounts render as money.  It then returns the path invoices/invoice_n.csv
    and leaves under the name invoice_n.csv, replacing what was there, the
    rows of the invoice in this order: number, date, customer, an empty row,
    the item header, one row per item, an empty row, then subtotal,
    gst_percent, gst_total, cgst, sgst and grand_total; nothing else of the
    state changes but the invoices directory being created. *)
Theorem save_invoice_csv_writes_invoice_rows (n : Z) (d : InvoiceData) (s : App) :
  match invoice_rows n d with
  | Ok rows =>
      save_invoice_csv n d s =
      Returned (invoice_csv_path n) (with_invoice_file (invoice_csv_name n) (CsvRows rows) s)
  | Raise e => exists s', save_invoice_csv n d s = Raised e s'
  end.
Proof. apply save_invoice_csv_runs. Qed.

(** X9: when [save_invoice_csv] has returned for an invoice,
    [save_invoice_html] for the same invoice returns as well: it renders the
    page and writes it under the name invoice_n.html.  No invoice is left
    with its CSV file and without its page. *)
Theorem csv_saved_then_html_saves (n : Z) (d : InvoiceData) (s s1 : App) (path : string) :
  save_invoice_csv n d s = Returned path s1 ->
  exists html,
    invoice_html n d = Ok html /\
    save_invoice_html n d s1 =
    Returned (invoice_html_path n) (with_invoice_file (invoice_html_name n) (Text html) s1).
Proof.
  intros H. pose proof (save_invoice_csv_runs n d s) as Hc.
  destruct (invoice_rows n d) as [rows|e] eqn:Hrows.
  - destruct (invoice_html_renders n d rows Hrows) as [html Hh].
    exists html. split; [done|].
    pose proof (save_invoice_html_runs n d s1) as Hs. by rewrite Hh in Hs.
  - destruct Hc as [s' Hc]. rewrite H in Hc. discriminate.
Qed.

Lemma csv_saved_then_html_saves_witness :
  exists html,
    invoice_html 1 (invoice_data example_now added_X_3
                      {| subtotal := Finite false 3000 (-2);
                         gst_total := Finite false 540 (-2);
                         cgst := Finite false 270 (-2); sgst := Finite false 270 (-2);
                         grand_total := Finite false 3540 (-2) |}) = Ok html.
Proof.
  destruct (csv_saved_then_html_saves 1
    (invoice_data example_now added_X_3
       {| subtotal := Finite false 3000 (-2); gst_total := Finite false 540 (-2);
          cgst := Finite false 270 (-2); sgst := Finite false 270 (-2);
          grand_total := Finite false 3540 (-2) |})
    added_X_3
    (state_of (save_invoice_csv 1
       (invoice_data example_now added_X_3
          {| subtotal := Finite false 3000 (-2); gst_total := Finite false 540 (-2);
             cgst := Finite false 270 (-2); sgst := Finite false 270 (-2);
             grand_total := Finite false 3540 (-2) |}) added_X_3))
    "invoices/invoice_1.csv") as (html & H & _).
  - vm_compute. reflexivity.
  - exists html. exact H.
Defined.

(** X10: the name [save_invoice_csv] gives the file of invoice n is read back
    by the scan of [next_invoice_number] as n, for every integer n: the name
    carries the prefix and the suffix the scan looks for, and the token
    between the underscore and the first point converts to n, since
    [int(str(n))] is n.  The name of the page of the invoice does not carry
    the suffix, so the scan passes it over. *)
Theorem invoice_name_round_trip (n : Z) :
  python_int (str_Z n) = Some n /\
  startswith "invoice_" (invoice_csv_name n) = true /\
  endswith ".csv" (invoice_csv_name n) = true /\
  embedded_number (invoice_csv_name n) = Some n /\
  scan [invoice_csv_name n; invoice_html_name n] = [n].
Proof.
  destruct (csv_name_matches n) as [H1 H2].
  split_and!; [apply python_int_str_Z|done|done|apply embedded_number_csv_name|].
  cbn [scan]. rewrite H1, H2, embedded_number_csv_name, endswith_csv_html_name.
  cbn [andb]. by rewrite andb_false_r.
Qed.

(** X11: in a session in which every callback so far has returned and the
    cart is not empty, [generate_invoice] saves what the window shows: the
    CSV file of the new number holds, between the head and the foot of the
    invoice, the rows of the cart view, and in its foot the amounts the
    labels show and the text of the rate field; the page is written beside
    it; the cart and its view are emptied.  This holds whether the callback
    returns or raises, and it returns whenever the rate field holds a finite
    number or no number at all. *)
Theorem generate_invoice_saves_what_is_shown (now : string) (s : App) :
  returning s -> cart s <> [] ->
  let n := (next_invoice_number (fs s)).1 in
  let s' := state_of (generate_invoice now s) in
  exists t m_sub m_gst m_cgst m_sgst m_grand html,
    totals s = Some t /\
    subtotal_label s = "Subtotal: " +:+ m_sub /\
    gst_label s = cat ["GST: "; m_gst; " ("; m_cgst; " CGST + "; m_sgst; " SGST)"] /\
    grand_label s = "Grand Total: " +:+ m_grand /\
    invoice_html n (invoice_data now s t) = Ok html /\
    invoices_dir (fs s') =
      Some (<[invoice_html_name n := Text html]>
              (<[invoice_csv_name n :=
                   CsvRows ([["invoice_number"; str_Z n]; ["date"; now];
                             ["customer_name"; strip (customer_entry s)]; [];
                             ["code"; "name"; "price"; "qty"; "total"]]
                            ++ tree s ++
                            [[]; ["subtotal"; m_sub]; ["gst_percent"; gst_var s];
                             ["gst_total"; m_gst]; ["cgst"; m_cgst]; ["sgst"; m_sgst];
                             ["grand_total"; m_grand]])]>
                 (default ∅ (invoices_dir (fs s))))) /\
    cart s' = [] /\ tree s' = [] /\
    (forall sg c e, parsed_rate (gst_var s) = Finite sg c e ->
       is_returned (generate_invoice now s) = true).
Proof.
  intros Hs Hcart n s'.
  destruct (returning_display s Hs) as [Hv Hl].
  destruct Hl as (t & m1 & m2 & m3 & m4 & m5 & Ht & H1 & H2 & H3 & H4 & H5 & L1 & L2 & L3).
  pose proof (invoice_rows_shown now s t n m1 m2 m3 m4 m5 Hv H1 H2 H3 H4 H5) as Hrows.
  destruct (invoice_html_renders _ _ _ Hrows) as [html Hhtml].
  exists t, m1, m2, m3, m4, m5, html.
  destruct (generate_invoice_saves now s t _ html Hcart Ht Hrows Hhtml)
    as (Hfs & Hc & Htree & _).
  split_and!; try done.
  - subst s'. by rewrite Hfs.
  - intros sg c e Hrate.
    destruct (generate_invoice_runs now s t _ html Hcart Ht Hrows Hhtml)
      as (s5 & -> & Hc5 & Hg5 & _).
    apply (refresh_update_empty_returns s5 sg c e); [done|by rewrite Hg5].
Qed.

Lemma generate_invoice_saves_what_is_shown_witness :
  cart (state_of (generate_invoice example_now added_X_3)) = [].
Proof.
  destruct (generate_invoice_saves_what_is_shown example_now added_X_3)
    as (t & m1 & m2 & m3 & m4 & m5 & html & _ & _ & _ & _ & _ & _ & H & _).
  - apply session_returning.
    + apply (ret_init catalog_X). vm_compute. reflexivity.
    + vm_compute. repeat split. constructor; [lia|constructor].
  - intros E. vm_compute in E. discriminate E.
  - exact H.
Defined.

(** X12: a generation that returns has used a fresh number: the invoices
    directory held no file under the CSV name of the number before, the two
    files of the invoice are the only entries that changed, and the next
    invoice number afterwards is the number used plus one.  The user has been
    told the number and the two paths, and the page has been handed to the
    browser. *)
Theorem generate_invoice_number_is_fresh (now : string) (s s' : App) :
  cart s <> [] -> generate_invoice now s = Returned tt s' ->
  let n := (next_invoice_number (fs s)).1 in
  default ∅ (invoices_dir (fs s)) !! invoice_csv_name n = None /\
  is_Some (default ∅ (invoices_dir (fs s')) !! invoice_csv_name n) /\
  is_Some (default ∅ (invoices_dir (fs s')) !! invoice_html_name n) /\
  (forall fname, fname <> invoice_csv_name n -> fname <> invoice_html_name n ->
     default ∅ (invoices_dir (fs s')) !! fname =
     default ∅ (invoices_dir (fs s)) !! fname) /\
  (next_invoice_number (fs s')).1 = n + 1 /\
  log s' = log s ++
    [showinfo "Saved" (cat ["Invoice #"; str_Z n; " saved."; nl;
                            "CSV: "; invoice_csv_path n; nl;
                            "HTML: "; invoice_html_path n]);
     open_new_tab (invoice_html_path n)].
Proof.
  intros Hcart Hrun n.
  destruct (generate_invoice_rendered now s s' Hcart Hrun) as (t & rows & html & Ht & Hr & Hh).
  destruct (generate_invoice_saves now s t rows html Hcart Ht Hr Hh) as (Hfs & _ & _ & Hlog).
  rewrite Hrun in Hfs, Hlog. cbn [state_of] in Hfs, Hlog. fold n in Hfs, Hlog.
  split; [apply csv_name_is_new|]. rewrite Hfs.
  cbn [invoices_dir with_invoices default id].
  split_and!.
  - rewrite lookup_insert_ne by apply html_name_not_csv_name.
    rewrite lookup_insert_eq. eauto.
  - rewrite lookup_insert_eq. eauto.
  - intros fname H1 H2. by rewrite !lookup_insert_ne.
  - apply next_invoice_number_after_invoice.
  - exact Hlog.
Qed.

Lemma generate_invoice_number_is_fresh_witness :
  (next_invoice_number (fs (state_of (generate_invoice example_now added_X_3)))).1 =
  (next_invoice_number (fs added_X_3)).1 + 1.
Proof.
  destruct (generate_invoice_number_is_fresh example_now added_X_3
              (state_of (generate_invoice example_now added_X_3)))
    as (_ & _ & _ & _ & H & _).
  - intros E. vm_compute in E. discriminate E.
  - vm_compute. reflexivity.
  - exact H.
Defined.



(** X14: [load_products_csv] never raises, and never touches the cart, its
    view, the stored totals, the labels, the invoices directory or the files
    elsewhere.  A cancelled dialog changes nothing; a path that cannot be
    opened only logs the error, the catalog, the list and the catalog file
    staying as they were; a file that can be opened replaces the catalog
    file, the catalog becomes what [read_products] reads from it, and one
    message is logged: that the products were loaded, or the error that
    stopped the listing. *)
Theorem load_products_csv_never_raises (path : string) (s : App) :
  exists s',
    load_products_csv path s = Returned tt s' /\
    cart s' = cart s /\ tree s' = tree s /\ totals s' = totals s /\
    invoices_dir (fs s') = invoices_dir (fs s) /\
    elsewhere (fs s') = elsewhere (fs s) /\
    (path = EmptyString -> s' = s) /\
    (path <> EmptyString -> elsewhere (fs s) !! path = None ->
     s' = set_log (log s ++ [showerror "Error" OSError]) s) /\
    (forall rows, path <> EmptyString -> elsewhere (fs s) !! path = Some rows ->
       products_csv (fs s') = Some rows /\
       products s' = read_products (fs s') /\
       exists ev, log s' = log s ++ [ev]).
Proof.
  destruct (decide (path = EmptyString)) as [->|Hp].
  { exists s. by split_and!. }
  destruct (elsewhere (fs s) !! path) as [rows|] eqn:E.
  - destruct (load_products_csv_found path rows s Hp E) as (s' & ev & H & Hfs & Hprod & Hlog & Hd).
    exists s'. unfold display in Hd. injection Hd as Hc Ht Hto _ _ _.
    split_and!; try done.
    + by rewrite Hfs.
    + by rewrite Hfs.
    + intros rows' _ [= <-]. split_and!; [by rewrite Hfs|done|eauto].
  - exists (set_log (log s ++ [showerror "Error" OSError]) s).
    split; [by apply load_products_csv_missing|]. split_and!; try done.
Qed.

(** X15: [refresh_product_list] returns exactly when the price of every
    catalog entry renders as money; the list then has one line per entry,
    code | name | price, in the order of the codes, and nothing is selected.
    The entries it goes through are those of the catalog, each once, sorted
    by code. *)
Theorem refresh_product_list_lists_catalog (s : App) :
  match mapM product_line (sorted_items (products s)) with
  | Ok lines =>
      refresh_product_list s =
      Returned tt (set_product_listbox lines (set_listbox_selection [] s)) /\
      length lines = size (products s)
  | Raise e => exists s', refresh_product_list s = Raised e s'
  end /\
  Sorted (fun a b => String.leb a.1 b.1 = true) (sorted_items (products s)) /\
  sorted_items (products s) ≡ₚ map_to_list (products s) /\
  (forall c p, (c, p) ∈ sorted_items (products s) <-> products s !! c = Some p).
Proof.
  split_and!.
  - pose proof (refresh_product_list_runs s) as H.
    destruct (mapM product_line (sorted_items (products s))) as [lines|e] eqn:E; [|done].
    split; [done|].
    destruct (mapM_res_lookup _ _ _ E) as [Hlen _].
    by rewrite Hlen, sorted_items_perm, length_map_to_list.
  - apply sorted_items_sorted.
  - apply sorted_items_perm.
  - intros c p. apply elem_of_sorted_items.
Qed.

(** X16: in every state of a session, a line of the product list is the
    rendering code | name | price of the catalog entry at the same place in
    the order of the codes; and when the code of that entry has no bar in it
    and no white space around it, the code [add_selected_product] reads off
    the selected line is that code, which the catalog knows. *)
Theorem clean_code_line_selects_its_product (s : App) (idx : nat) (sel : list nat)
    (line : string) :
  reachable s ->
  listbox_selection s = idx :: sel -> product_listbox s !! idx = Some line ->
  exists c p m,
    sorted_items (products s) !! idx = Some (c, p) /\
    products s !! c = Some p /\
    money (prod_price p) = Ok m /\
    line = cat [c; " | "; prod_name p; " | "; m] /\
    (clean_code c -> selected_code s = Some c).
Proof.
  intros Hs Hsel Hline.
  destruct (listed_line s idx line (reachable_listed s Hs) Hline)
    as (c & p & m & H1 & H2 & H3 & H4).
  exists c, p, m. split_and!; try done.
  intros Hclean. unfold selected_code. rewrite Hsel, Hline. cbn [default].
  rewrite H4. f_equal. apply selected_line_code; [done|].
  intros ->. destruct (reachable_well_formed s Hs) as [Hne _]. congruence.
Qed.

Lemma clean_code_line_selects_its_product_witness :
  exists c p m,
    sorted_items (products X_selected) !! 0%nat = Some (c, p) /\
    products X_selected !! c = Some p /\
    money (prod_price p) = Ok m /\
    "X | Item | 10.00" = cat [c; " | "; prod_name p; " | "; m] /\
    (clean_code c -> selected_code X_selected = Some c).
Proof.
  apply (clean_code_line_selects_its_product X_selected 0 [] "X | Item | 10.00").
  - apply session_reachable.
    + apply (reach_init catalog_X). vm_compute. reflexivity.
    + vm_compute. repeat split. constructor; [lia|constructor].
  - vm_compute. reflexivity.
  - vm_compute. reflexivity.
Defined.

(** X17: for a cart that is not empty and whose line totals are amounts of
    hundredths that are not negative, the subtotal [update_totals] adds up is
    exact as long as the sum has at most 28 digits: it is the sum of the
    hundredths, with two decimals. *)
Theorem subtotal_is_exact_sum (cart : list CartItem) :
  cart <> [] ->
  Forall (fun it => exists c, line_total it = Finite false c (-2)) cart ->
  (sum_hundredths cart < pow10 prec)%N ->
  sum_line_totals cart = Ok (Finite false (sum_hundredths cart) (-2)).
Proof.
  intros Hne Hall Hlt. destruct cart as [|it rest]; [done|].
  apply Forall_cons in Hall as [[c Hc] Hrest].
  unfold sum_line_totals. cbn [foldl sum_hundredths foldr] in *.
  rewrite Hc in *. cbn [hundredths mbind res_bind] in *.
  fold (sum_hundredths rest) in *.
  rewrite add_zero_first by lia. by apply foldl_add_hundredths.
Qed.

Lemma subtotal_is_exact_sum_witness :
  sum_line_totals [{| code := "X"; name := "Item"; price := Finite false 1000 (-2);
                      qty := 3; line_total := Finite false 3000 (-2) |}]
  = Ok (Finite false 3000 (-2)).
Proof.
  apply (subtotal_is_exact_sum
           [{| code := "X"; name := "Item"; price := Finite false 1000 (-2);
               qty := 3; line_total := Finite false 3000 (-2) |}]).
  - discriminate.
  - constructor; [|constructor]. exists 3000%N. reflexivity.
  - vm_compute. reflexivity.
Defined.


(** X19: an add for a code that has a line raises when the new total of the
    line does not compute, and it raises after the quantity of the line has
    been incremented: the cart is left with the new quantity beside the old
    total, the view and the totals are not rebuilt, and nothing else of the
    state has changed. *)
Theorem add_failure_keeps_increment (s : App) (c : string) (prod : Product)
    (q : Z) (l1 l2 : list CartItem) (it : CartItem) (lt : Decimal) (e : exn) :
  selected_code s = Some c -> products s !! c = Some prod ->
  qty_var s = Some q -> 0 < q ->
  cart s = l1 ++ it :: l2 -> code it = c -> c ∉ codes l1 ->
  (p ← mul (prod_price prod) (of_int q); round_half_up_2 p) = Ok lt ->
  (p ← mul (price it) (of_int (qty it + q)); round_half_up_2 p) = Raise e ->
  add_selected_product s =
  Raised e (set_cart (l1 ++ {| code := code it; name := name it; price := price it;
                               qty := qty it + q; line_total := line_total it |} :: l2) s).
Proof. apply add_selected_product_raises_incremented. Qed.

Lemma add_failure_keeps_increment_witness :
  is_returned (add_selected_product big_added) = false.
Proof.
  rewrite (add_failure_keeps_increment big_added "B"
             {| prod_name := "Bullion"; prod_price := Finite false 50000000000000000000000000 0 |}
             1 []  []
             {| code := "B"; name := "Bullion";
                price := Finite false 50000000000000000000000000 0; qty := 1;
                line_total := Finite false 5000000000000000000000000000 (-2) |}
             (Finite false 5000000000000000000000000000 (-2)) InvalidOperation).
  - reflexivity.
  - vm_compute. reflexivity.
  - vm_compute. reflexivity.
  - vm_compute. reflexivity.
  - lia.
  - vm_compute. reflexivity.
  - reflexivity.
  - apply not_elem_of_nil.
  - vm_compute. reflexivity.
  - vm_compute. reflexivity.
Defined.



End further_properties.

(** ** Special values in the rate field *)
Section special_rates.
  Import PyStr Dec Billing Spec Props.

Lemma compute_totals_infinite_rate (cart : list CartItem) (sg s0 : bool) (c0 : N) (e0 : Z) :
  sum_line_totals cart = Ok (Finite s0 c0 e0) ->
  compute_totals cart (Infinity sg) = Raise InvalidOperation.
Proof.
  intros Hsum. unfold compute_totals, round_half_up_2. rewrite Hsum.
  cbn [mbind res_bind]. unfold mul. cbn [check_nans].
  destruct (c0 =? 0)%N; [reflexivity|]. reflexivity.
Qed.

Lemma compute_totals_signalling_rate (cart : list CartItem) (sg : bool) (p : N)
    (st : Decimal) :
  sum_line_totals cart = Ok st ->
  compute_totals cart (sNaN sg p) = Raise InvalidOperation.
Proof.
  intros Hsum. unfold compute_totals. rewrite Hsum.
  cbn [mbind res_bind]. by destruct st.
Qed.

Lemma compute_totals_nan_rate (cart : list CartItem) (sg s0 : bool) (p c0 : N) (e0 : Z) :
  sum_line_totals cart = Ok (Finite s0 c0 e0) ->
  compute_totals cart (NaN sg p) =
  Ok {| subtotal := Finite s0 c0 e0; gst_total := fix_nan (NaN sg p);
        cgst := fix_nan (NaN sg p); sgst := fix_nan (NaN sg p);
        grand_total := fix_nan (NaN sg p) |}.
Proof.
  intros Hsum. unfold compute_totals, round_half_up_2. rewrite Hsum.
  cbn [mbind res_bind].
  assert (Hn : exists p', fix_nan (NaN sg p) = NaN sg p').
  { simpl. destruct (prec <? ndigits p); eauto. }
  destruct Hn as [p' Hn].
  assert (Hidem : fix_nan (NaN sg p') = NaN sg p').
  { rewrite <- Hn. apply fix_nan_idem. }
  assert (Hmul : mul (Finite s0 c0 e0) (NaN sg p) = Ok (NaN sg p')).
  { unfold mul. cbn [check_nans]. by rewrite Hn. }
  rewrite Hmul. cbn [mbind res_bind].
  assert (Hop : forall d, div (NaN sg p') (of_int d) = Ok (NaN sg p')).
  { intros d. unfold div, of_int. cbn [check_nans]. by rewrite Hidem. }
  assert (Hq : quantize (NaN sg p') CURRENCY_QUANT ROUND_HALF_UP = Ok (NaN sg p')).
  { unfold quantize, CURRENCY_QUANT. cbn [check_nans]. by rewrite Hidem. }
  rewrite Hop. cbn [mbind res_bind]. rewrite Hq. cbn [mbind res_bind].
  rewrite Hop. cbn [mbind res_bind]. rewrite Hq. cbn [mbind res_bind].
  assert (Hsub : sub (NaN sg p') (NaN sg p') = Ok (NaN sg p')).
  { unfold sub. cbn [check_nans]. by rewrite Hidem. }
  rewrite Hsub. cbn [mbind res_bind].
  assert (Hadd : add (Finite s0 c0 e0) (NaN sg p') = Ok (NaN sg p')).
  { unfold add. cbn [check_nans]. by rewrite Hidem. }
  rewrite Hadd. cbn [mbind res_bind]. rewrite Hq. cbn [mbind res_bind].
  by rewrite Hn.
Qed.

Lemma rate_fallback_parsed (s : App) (rate : Decimal) :
  of_string (gst_var s) = Ok rate -> rate_fallback s = s /\ parsed_rate (gst_var s) = rate.
Proof. intros H. unfold rate_fallback, parsed_rate. by rewrite H. Qed.

Lemma update_totals_raises_unchanged (s : App) (rate : Decimal) (e : exn) :
  of_string (gst_var s) = Ok rate ->
  compute_totals (cart s) rate = Raise e ->
  update_totals s = Raised e s.
Proof.
  intros Hrate Hc. destruct (rate_fallback_parsed s rate Hrate) as [Hf Hp].
  pose proof (update_totals_computes s) as H. rewrite Hp, Hc, Hf in H.
  by destruct H.
Qed.

(** X21: the rate field takes every text [Decimal] accepts.  For a cart
    whose subtotal is a finite number: with an infinity or a signalling NaN
    in the field [update_totals] raises InvalidOperation and leaves the state,
    the stored totals among it, as it was; with a quiet NaN it returns as
    soon as the subtotal renders, and stores that NaN as tax total, as both
    halves and as grand total, which the labels then show. *)
Theorem rate_field_special_values (s : App) (s0 : bool) (c0 : N) (e0 : Z) :
  sum_line_totals (cart s) = Ok (Finite s0 c0 e0) ->
  (forall sg, of_string (gst_var s) = Ok (Infinity sg) ->
     update_totals s = Raised InvalidOperation s) /\
  (forall sg p, of_string (gst_var s) = Ok (sNaN sg p) ->
     update_totals s = Raised InvalidOperation s) /\
  (forall sg p m, of_string (gst_var s) = Ok (NaN sg p) ->
     money (Finite s0 c0 e0) = Ok m ->
     exists s',
       update_totals s = Returned tt s' /\
       totals s' = Some {| subtotal := Finite s0 c0 e0; gst_total := fix_nan (NaN sg p);
                           cgst := fix_nan (NaN sg p); sgst := fix_nan (NaN sg p);
                           grand_total := fix_nan (NaN sg p) |} /\
       is_nan (fix_nan (NaN sg p)) = true /\
       grand_label s' = "Grand Total: " +:+ to_str (fix_nan (NaN sg p))).
Proof.
  intros Hsum. split_and!.
  - intros sg Hr. apply (update_totals_raises_unchanged s (Infinity sg)); [done|].
    by apply (compute_totals_infinite_rate _ sg s0 c0 e0).
  - intros sg p Hr. apply (update_totals_raises_unchanged s (sNaN sg p)); [done|].
    by apply (compute_totals_signalling_rate _ sg p (Finite s0 c0 e0)).
  - intros sg p m Hr Hm.
    destruct (rate_fallback_parsed s _ Hr) as [Hf Hp].
    pose proof (update_totals_computes s) as H.
    rewrite Hp, (compute_totals_nan_rate _ sg s0 p c0 e0 Hsum), Hf in H.
    assert (Hn : exists p', fix_nan (NaN sg p) = NaN sg p').
    { simpl. destruct (prec <? ndigits p); eauto. }
    destruct Hn as [p' Hn]. rewrite Hn in *.
    assert (Hidem : fix_nan (NaN sg p') = NaN sg p').
    { rewrite <- Hn. apply fix_nan_idem. }
    assert (Hmn : money (NaN sg p') = Ok (to_str (NaN sg p'))).
    { unfold money, quantize, CURRENCY_QUANT. cbn [check_nans]. by rewrite Hidem. }
    rewrite H. unfold update_labels. cbn [subtotal gst_total cgst sgst grand_total].
    rewrite Hm, Hmn. eexists. split; [reflexivity|]. by split_and!.
Qed.

Lemma rate_field_special_values_witness :
  update_totals rate_inf = Raised InvalidOperation rate_inf.
Proof.
  destruct (rate_field_special_values rate_inf false 3000 (-2)) as (H & _).
  - vm_compute. reflexivity.
  - apply (H false). vm_compute. reflexivity.
Defined.

End special_rates.

(** ** Removing rows by their place *)
Section removal_by_place.
  Import PyStr Dec Billing Spec Props.

Lemma selected_codes_of_rows (s : App) :
  view_shows_cart s ->
  Forall (fun i => (i < length (tree s))%nat) (tree_selection s) ->
  forall c, c ∈ selected_codes s <->
            exists i it, i ∈ tree_selection s /\ cart s !! i = Some it /\ code it = c.
Proof.
  intros Hv Hsel c. unfold view_shows_cart in Hv.
  destruct (mapM_res_lookup _ _ _ Hv) as [Hlen Hl].
  unfold selected_codes. rewrite list_elem_of_fmap. split.
  - intros (i & -> & Hi). rewrite Forall_forall in Hsel.
    specialize (Hsel i Hi). rewrite Hlen in Hsel.
    destruct (lookup_lt_is_Some_2 _ _ Hsel) as [it Hit].
    destruct (Hl i it Hit) as (row & Hrow & Hrow').
    exists i, it. split_and!; [done|done|].
    rewrite Hrow'. cbn [default]. unfold item_row in Hrow.
    destruct (money (price it)); [|discriminate].
    destruct (money (line_total it)); [|discriminate].
    by injection Hrow as <-.
  - intros (i & it & Hi & Hit & <-). exists i. split; [|done].
    destruct (Hl i it Hit) as (row & Hrow & Hrow').
    rewrite Hrow'. cbn [default]. unfold item_row in Hrow.
    destruct (money (price it)); [|discriminate].
    destruct (money (line_total it)); [|discriminate].
    by injection Hrow as <-.
Qed.

Lemma one_per_code_same_place (cart : list CartItem) (i j : nat) (a b : CartItem) :
  NoDup (codes cart) -> cart !! i = Some a -> cart !! j = Some b ->
  code a = code b -> i = j.
Proof.
  intros Hnd Ha Hb Hab. apply (NoDup_lookup (codes cart) i j (code a)); [done| |].
  - unfold codes. by rewrite list_lookup_fmap, Ha.
  - unfold codes. by rewrite list_lookup_fmap, Hb, Hab.
Qed.

(** X22: in a session in which every callback so far has returned,
    [remove_selected] removes the lines at the places of the selected rows
    and no other: a line of the cart is in the cart afterwards exactly when
    the row at its place is not selected. *)
Theorem remove_selected_removes_selected_rows (s : App) (i : nat) (it : CartItem) :
  returning s ->
  Forall (fun i => (i < length (tree s))%nat) (tree_selection s) ->
  cart s !! i = Some it ->
  (it ∈ cart (state_of (remove_selected s)) <-> i ∉ tree_selection s).
Proof.
  intros Hs Hsel Hit.
  pose proof (reachable_one_per_code s (returning_reachable s Hs)) as Hnd.
  destruct (returning_display s Hs) as [Hv _].
  pose proof (selected_codes_of_rows s Hv Hsel) as Hcodes.
  rewrite remove_selected_cart, foldl_remove_first_filter by done.
  rewrite list_elem_of_filter. split.
  - intros [Hnot _] Hi. apply Hnot. apply Hcodes. eauto.
  - intros Hi. split; [|by apply list_elem_of_lookup_2 in Hit].
    intros Hin. apply Hcodes in Hin as (j & it' & Hj & Hit' & Hc).
    apply Hi. by rewrite (one_per_code_same_place (cart s) i j it it' Hnd Hit Hit').
Qed.

Lemma remove_selected_removes_selected_rows_witness :
  {| code := "X"; name := "Item"; price := Finite false 1000 (-2); qty := 3;
     line_total := Finite false 3000 (-2) |}
    ∈ cart (state_of (remove_selected row_selected))
  <-> 0%nat ∉ tree_selection row_selected.
Proof.
  apply remove_selected_removes_selected_rows.
  - apply session_returning; [apply session_returning|].
    + apply (ret_init catalog_X). vm_compute. reflexivity.
    + vm_compute. repeat split. constructor; [lia|constructor].
    + vm_compute. repeat split. constructor; [lia|constructor].
  - vm_compute. constructor; [lia|constructor].
  - vm_compute. reflexivity.
Defined.

End removal_by_place.
